(** * Encryption-at-rest subsystem of the Telegram log bot

    A shallow embedding of [src/service/crypto.service.ts] and
    [src/service/message-log.service.ts] (the same code appears inlined in the
    older single-file [TelegramService]), together with the parts of the
    JavaScript run time they call: UTF-16 strings, hex and UTF-8 codecs of
    [Buffer], PKCS#7/CBC framing of [node:crypto], [JSON], [Date] and the one
    file the store owns.

    The AES-256 block permutation, [scryptSync] and the implementation-defined
    corners of [Date] and [JSON] are not code of the repository; they are
    taken as an interface ([Platform]) with the laws the code relies on. *)

From Stdlib Require Import Bool Ascii String List ZArith Arith Lia.
Import ListNotations.

(* ================================================================== *)
(** ** Bytes, code units and strings *)

(** A byte of a [Buffer]. [Ascii b0 .. b7] lists the bits least significant
    first. *)
Definition octet := ascii.

(** A UTF-16 code unit: JavaScript strings are sequences of these. *)
Record cunit : Set := CU { cu_hi : octet; cu_lo : octet }.

Definition jsstring := list cunit.

Definition cunit_eqb (a b : cunit) : bool :=
  Ascii.eqb (cu_hi a) (cu_hi b) && Ascii.eqb (cu_lo a) (cu_lo b).

(** A string literal of the source (ASCII only). *)
Definition lit (s : string) : jsstring :=
  map (CU zero) (list_ascii_of_string s).

Definition colon : cunit := CU zero ":"%char.

(** Surrogate classification: 0xD800..0xDBFF and 0xDC00..0xDFFF. *)
Definition is_high_surrogate (c : cunit) : bool :=
  let '(Ascii _ _ b2 b3 b4 b5 b6 b7) := cu_hi c in
  b7 && b6 && negb b5 && b4 && b3 && negb b2.

Definition is_low_surrogate (c : cunit) : bool :=
  let '(Ascii _ _ b2 b3 b4 b5 b6 b7) := cu_hi c in
  b7 && b6 && negb b5 && b4 && b3 && b2.

Definition not_surrogate (c : cunit) : bool :=
  negb (is_high_surrogate c) && negb (is_low_surrogate c).

Definition replacement_char : cunit := CU "255"%char "253"%char.

(* ================================================================== *)
(** ** Errors *)

Inductive crypto_code : Set :=
| ERR_CRYPTO_INVALID_IV
| ERR_CRYPTO_INVALID_KEYLEN
| ERR_OSSL_WRONG_FINAL_BLOCK_LENGTH
| ERR_OSSL_BAD_DECRYPT.

Inductive errno : Set :=
| ENOENT
| EOTHER.   (* EACCES, EISDIR, ENOSPC, ... *)

(** What the code can throw.  [FormatError] is the explicit
    [new Error('Invalid encrypted text format')] of [decrypt]; [CryptoError]
    is anything raised inside [node:crypto]; [SystemError] comes from [fs]. *)
Inductive js_error : Set :=
| FormatError
| CryptoError (code : crypto_code)
| SyntaxError
| TypeError
| SystemError (code : errno).

Inductive result (A : Type) : Type :=
| Ok (a : A)
| Throw (e : js_error).
Arguments Ok {A} a.
Arguments Throw {A} e.

Definition bind {A B} (r : result A) (k : A -> result B) : result B :=
  match r with
  | Ok a => k a
  | Throw e => Throw e
  end.

Notation "'do' x <- r ; k" := (bind r (fun x => k))
  (at level 10, x name, r at level 100, k at level 200).

(** [error.code] as seen by ['code' in error && error.code !== 'ENOENT']. *)
Definition error_has_code (e : js_error) : bool :=
  match e with
  | CryptoError _ | SystemError _ => true
  | FormatError | SyntaxError | TypeError => false
  end.

Definition error_is_enoent (e : js_error) : bool :=
  match e with
  | SystemError ENOENT => true
  | _ => false
  end.

(* ================================================================== *)
(** ** [Buffer]: hex codec *)

Module Hex.

(** Four bits, most significant first. *)
Definition nibble : Set := (bool * bool * bool * bool)%type.

Definition digit (n : nibble) : ascii :=
  match n with
  | (false, false, false, false) => "0"
  | (false, false, false, true) => "1"
  | (false, false, true, false) => "2"
  | (false, false, true, true) => "3"
  | (false, true, false, false) => "4"
  | (false, true, false, true) => "5"
  | (false, true, true, false) => "6"
  | (false, true, true, true) => "7"
  | (true, false, false, false) => "8"
  | (true, false, false, true) => "9"
  | (true, false, true, false) => "a"
  | (true, false, true, true) => "b"
  | (true, true, false, false) => "c"
  | (true, true, false, true) => "d"
  | (true, true, true, false) => "e"
  | (true, true, true, true) => "f"
  end%char.

Definition high (b : octet) : nibble :=
  let '(Ascii _ _ _ _ b4 b5 b6 b7) := b in (b7, b6, b5, b4).
Definition low (b : octet) : nibble :=
  let '(Ascii b0 b1 b2 b3 _ _ _ _) := b in (b3, b2, b1, b0).
Definition join (h l : nibble) : octet :=
  let '(b7, b6, b5, b4) := h in
  let '(b3, b2, b1, b0) := l in
  Ascii b0 b1 b2 b3 b4 b5 b6 b7.

(** [buf.toString('hex')]: two lowercase digits per byte. *)
Definition encode (bs : list octet) : jsstring :=
  flat_map (fun b => [CU zero (digit (high b)); CU zero (digit (low b))]) bs.

Definition unhex_ascii (c : ascii) : option nibble :=
  match c with
  | "0" => Some (false, false, false, false)
  | "1" => Some (false, false, false, true)
  | "2" => Some (false, false, true, false)
  | "3" => Some (false, false, true, true)
  | "4" => Some (false, true, false, false)
  | "5" => Some (false, true, false, true)
  | "6" => Some (false, true, true, false)
  | "7" => Some (false, true, true, true)
  | "8" => Some (true, false, false, false)
  | "9" => Some (true, false, false, true)
  | "a" | "A" => Some (true, false, true, false)
  | "b" | "B" => Some (true, false, true, true)
  | "c" | "C" => Some (true, true, false, false)
  | "d" | "D" => Some (true, true, false, true)
  | "e" | "E" => Some (true, true, true, false)
  | "f" | "F" => Some (true, true, true, true)
  | _ => None
  end%char.

Definition unhex (c : cunit) : option nibble :=
  if Ascii.eqb (cu_hi c) zero then unhex_ascii (cu_lo c) else None.

(** [Buffer.from(s, 'hex')]: pairs of digits are decoded until the first
    pair that is not two hex digits; a trailing single character is
    dropped ("data truncation" in Node's documentation). *)
Fixpoint decode (s : jsstring) : list octet :=
  match s with
  | a :: b :: r =>
      match unhex a, unhex b with
      | Some h, Some l => join h l :: decode r
      | _, _ => []
      end
  | _ => []
  end.

Definition is_lower_digit (c : cunit) : bool :=
  match unhex c with
  | Some n => cunit_eqb c (CU zero (digit n))
  | None => false
  end.


End Hex.

(* ================================================================== *)
(** ** [String.prototype.split] on a one-character separator *)

(** Every occurrence of the separator splits; the result is never empty
    (the empty string yields one empty part). *)
Fixpoint split (sep : cunit) (s : jsstring) : list jsstring :=
  match s with
  | [] => [[]]
  | c :: r =>
      if cunit_eqb c sep then [] :: split sep r
      else match split sep r with
           | h :: t => (c :: h) :: t
           | [] => [[c]]
           end
  end.

(* ================================================================== *)
(** ** UTF-8 as [Buffer] and [fs] apply it *)

Module Utf8.

(** Encoding one code unit of the Basic Multilingual Plane that is not a
    surrogate: one, two or three bytes. *)
Definition encode_bmp (c : cunit) : list octet :=
  let '(CU (Ascii h0 h1 h2 h3 h4 h5 h6 h7) (Ascii l0 l1 l2 l3 l4 l5 l6 l7)) := c in
  if negb (h0 || h1 || h2 || h3 || h4 || h5 || h6 || h7 || l7) then
    [Ascii l0 l1 l2 l3 l4 l5 l6 false]
  else if negb (h3 || h4 || h5 || h6 || h7) then
    [Ascii l6 l7 h0 h1 h2 false true true;
     Ascii l0 l1 l2 l3 l4 l5 false true]
  else
    [Ascii h4 h5 h6 h7 false true true true;
     Ascii l6 l7 h0 h1 h2 h3 false true;
     Ascii l0 l1 l2 l3 l4 l5 false true].

(** Adding and removing the 0x10000 offset of a supplementary code point,
    on its bits 16..20 (most significant first). *)
Definition plane_of (v : bool * bool * bool * bool) : bool * bool * bool * bool * bool :=
  let '(a, b, c, d) := v in
  let k1 := d in
  let k2 := c && k1 in
  let k3 := b && k2 in
  (a && k3, xorb a k3, xorb b k2, xorb c k1, negb d).

Definition plane_offset (u : bool * bool * bool * bool * bool) : bool * bool * bool * bool :=
  let '(_, a, b, c, d) := u in
  let k1 := negb d in
  let k2 := negb c && k1 in
  let k3 := negb b && k2 in
  (xorb a k3, xorb b k2, xorb c k1, negb d).

(** Encoding a surrogate pair: four bytes. *)
Definition encode_pair (h l : cunit) : list octet :=
  let '(CU (Ascii v18 v19 _ _ _ _ _ _) (Ascii v10 v11 v12 v13 v14 v15 v16 v17)) := h in
  let '(CU (Ascii v8 v9 _ _ _ _ _ _) (Ascii v0 v1 v2 v3 v4 v5 v6 v7)) := l in
  let '(u20, u19, u18, u17, u16) := plane_of (v19, v18, v17, v16) in
  [Ascii u18 u19 u20 false true true true true;
   Ascii v12 v13 v14 v15 u16 u17 false true;
   Ascii v6 v7 v8 v9 v10 v11 false true;
   Ascii v0 v1 v2 v3 v4 v5 false true].

(** U+FFFD as bytes: EF BF BD. *)
Definition replacement_bytes : list octet :=
  ["239"%char; "191"%char; "189"%char].

(** [Buffer.from(s, 'utf8')], [cipher.update(s, 'utf8')] and
    [fs.writeFile(_, s, 'utf-8')]: a surrogate that is not part of a pair
    is written as U+FFFD. *)
Fixpoint encode (s : jsstring) : list octet :=
  match s with
  | [] => []
  | c :: r =>
      if is_high_surrogate c then
        match r with
        | d :: r' =>
            if is_low_surrogate d then encode_pair c d ++ encode r'
            else replacement_bytes ++ encode r
        | [] => replacement_bytes
        end
      else if is_low_surrogate c then replacement_bytes ++ encode r
      else encode_bmp c ++ encode r
  end.

(** *** Decoder (the WHATWG state machine, which V8 follows) *)

Inductive lead_kind : Set := LAscii | L2 | L3 | L4 | LBad.

(** 00..7F one byte; C2..DF two; E0..EF three; F0..F4 four; the rest
    (80..C1, F5..FF) cannot start a sequence. *)
Definition lead (b : octet) : lead_kind :=
  let '(Ascii b0 b1 b2 b3 b4 b5 b6 b7) := b in
  if negb b7 then LAscii
  else if negb b6 then LBad
  else if negb b5 then (if b1 || b2 || b3 || b4 then L2 else LBad)
  else if negb b4 then L3
  else if negb b3 && (negb b2 || negb (b0 || b1)) then L4
  else LBad.

(** 80..BF. *)
Definition is_cont (b : octet) : bool :=
  let '(Ascii _ _ _ _ _ _ b6 b7) := b in b7 && negb b6.

(** The range allowed for the byte after the lead: A0..BF after E0,
    80..9F after ED, 90..BF after F0, 80..8F after F4, 80..BF otherwise. *)
Definition second_ok (l b : octet) : bool :=
  let '(Ascii _ _ _ _ b4 b5 _ _) := b in
  is_cont b
  && (if Ascii.eqb l "224" then b5
      else if Ascii.eqb l "237" then negb b5
      else if Ascii.eqb l "240" then b5 || b4
      else if Ascii.eqb l "244" then negb (b5 || b4)
      else true).

Definition scalar2 (l b : octet) : jsstring :=
  let '(Ascii x0 x1 x2 x3 x4 _ _ _) := l in
  let '(Ascii y0 y1 y2 y3 y4 y5 _ _) := b in
  [CU (Ascii x2 x3 x4 false false false false false)
      (Ascii y0 y1 y2 y3 y4 y5 x0 x1)].

Definition scalar3 (l b c : octet) : jsstring :=
  let '(Ascii x0 x1 x2 x3 _ _ _ _) := l in
  let '(Ascii y0 y1 y2 y3 y4 y5 _ _) := b in
  let '(Ascii z0 z1 z2 z3 z4 z5 _ _) := c in
  [CU (Ascii y2 y3 y4 y5 x0 x1 x2 x3)
      (Ascii z0 z1 z2 z3 z4 z5 y0 y1)].

(** A supplementary code point becomes a surrogate pair. *)
Definition scalar4 (l b c d : octet) : jsstring :=
  let '(Ascii u18 u19 u20 _ _ _ _ _) := l in
  let '(Ascii v12 v13 v14 v15 u16 u17 _ _) := b in
  let '(Ascii v6 v7 v8 v9 v10 v11 _ _) := c in
  let '(Ascii v0 v1 v2 v3 v4 v5 _ _) := d in
  let '(v19, v18, v17, v16) := plane_offset (u20, u19, u18, u17, u16) in
  [CU (Ascii v18 v19 false true true false true true)
      (Ascii v10 v11 v12 v13 v14 v15 v16 v17);
   CU (Ascii v8 v9 true true true false true true)
      (Ascii v0 v1 v2 v3 v4 v5 v6 v7)].

(** A byte met with no sequence pending. *)
Definition start (b : octet) : jsstring * list octet :=
  match lead b with
  | LAscii => ([CU zero b], [])
  | L2 | L3 | L4 => ([], [b])
  | LBad => ([replacement_char], [])
  end.

(** One byte, given the bytes of the sequence read so far: the code units
    produced and the new pending bytes.  A byte that cannot continue the
    sequence ends it with U+FFFD and is then read afresh. *)
Definition step (pending : list octet) (b : octet) : jsstring * list octet :=
  let restart := let '(e, p) := start b in (replacement_char :: e, p) in
  match pending with
  | [] => start b
  | [l] =>
      if second_ok l b then
        match lead l with
        | L2 => (scalar2 l b, [])
        | _ => ([], [l; b])
        end
      else restart
  | [l; b2] =>
      if is_cont b then
        match lead l with
        | L3 => (scalar3 l b2 b, [])
        | _ => ([], [l; b2; b])
        end
      else restart
  | l :: b2 :: b3 :: _ =>
      if is_cont b then (scalar4 l b2 b3 b, []) else restart
  end.

Fixpoint decode_from (pending : list octet) (bs : list octet) : jsstring :=
  match bs with
  | [] => match pending with [] => [] | _ :: _ => [replacement_char] end
  | b :: r => let '(e, p) := step pending b in e ++ decode_from p r
  end.

(** [buf.toString('utf8')] and [fs.readFile(_, 'utf-8')]. *)
Definition decode (bs : list octet) : jsstring := decode_from [] bs.

End Utf8.

(** [String.prototype.toWellFormed]: lone surrogates become U+FFFD. *)
Fixpoint toWellFormed (s : jsstring) : jsstring :=
  match s with
  | [] => []
  | c :: r =>
      if is_high_surrogate c then
        match r with
        | d :: r' =>
            if is_low_surrogate d then c :: d :: toWellFormed r'
            else replacement_char :: toWellFormed r
        | [] => [replacement_char]
        end
      else if is_low_surrogate c then replacement_char :: toWellFormed r
      else c :: toWellFormed r
  end.

(** [String.prototype.isWellFormed]. *)
Fixpoint isWellFormed (s : jsstring) : bool :=
  match s with
  | [] => true
  | c :: r =>
      if is_high_surrogate c then
        match r with
        | d :: r' => is_low_surrogate d && isWellFormed r'
        | [] => false
        end
      else negb (is_low_surrogate c) && isWellFormed r
  end.

(* ================================================================== *)
(** ** Values *)

(** A [Date]: its time value is NaN or a number of milliseconds since the
    epoch. *)
Inductive JSDate : Set :=
| InvalidDate
| DateAt (ms : Z).

Definition maxTime : Z := 8640000000000000.

Definition TimeClip (t : Z) : JSDate :=
  if (Z.abs t <=? maxTime)%Z then DateAt t else InvalidDate.

(** What every [Date] satisfies: its time value is NaN or within
    8.64e15 milliseconds of the epoch. *)
Definition time_value (d : JSDate) : Prop :=
  match d with
  | InvalidDate => True
  | DateAt t => (Z.abs t <= maxTime)%Z
  end.

(** The values [JSON.parse] builds, and [undefined] for a missing property.
    A number is kept as the text that denotes it; an object keeps its
    members in the order and multiplicity of the text. *)
#[local] Unset Elimination Schemes.
Inductive jsval : Set :=
| VUndefined
| VNull
| VBool (b : bool)
| VNumber (lexeme : jsstring)
| VString (s : jsstring)
| VArray (elements : list jsval)
| VObject (members : list (jsstring * jsval)).
#[local] Set Elimination Schemes.

(* ================================================================== *)
(** ** What the platform provides *)

(** The parts of Node and V8 that the repository calls and that are left
    uninterpreted here.

    - [scryptSync password salt keylen] returns [keylen] bytes.
    - AES-256 on one 16-byte block under a 32-byte key is a permutation of
      blocks, [aes256_decrypt_block] being its inverse.
    - [Date_parse_other] is [Date.parse] on the strings that are not in the
      ISO 8601 format with every field present and in range (the lenient and
      implementation-defined part of [Date.parse]).
    - [Date_of_other] is [new Date(v)] for a number, an array or an object.
      Both yield dates, whose time values are clipped.
    - [stringify_other] is [JSON.stringify] of a number, an array or an
      object found as the property of a log entry. *)
Class Platform : Type := {
  scryptSync : jsstring -> jsstring -> nat -> list octet;
  scryptSync_length :
    forall password salt keylen,
      length (scryptSync password salt keylen) = keylen;
  aes256_encrypt_block : list octet -> list octet -> list octet;
  aes256_decrypt_block : list octet -> list octet -> list octet;
  aes256_encrypt_length :
    forall key b,
      length key = 32 -> length b = 16 ->
      length (aes256_encrypt_block key b) = 16;
  aes256_decrypt_encrypt :
    forall key b,
      length key = 32 -> length b = 16 ->
      aes256_decrypt_block key (aes256_encrypt_block key b) = b;
  Date_parse_other : jsstring -> JSDate;
  Date_parse_other_clipped : forall s, time_value (Date_parse_other s);
  Date_of_other : jsval -> JSDate;
  Date_of_other_clipped : forall v, time_value (Date_of_other v);
  stringify_other : jsval -> jsstring
}.

(* ================================================================== *)
(** ** [node:crypto]: AES-256-CBC with PKCS#7 padding *)

Module Cbc.

Definition block_size : nat := 16.

(** Every block has sixteen bytes. *)
Definition all_blocks (bs : list (list octet)) : Prop :=
  Forall (fun b => length b = block_size) bs.

Section WithPlatform.
Context {P : Platform}.

Definition xor_octet (a b : octet) : octet :=
  let '(Ascii a0 a1 a2 a3 a4 a5 a6 a7) := a in
  let '(Ascii b0 b1 b2 b3 b4 b5 b6 b7) := b in
  Ascii (xorb a0 b0) (xorb a1 b1) (xorb a2 b2) (xorb a3 b3)
        (xorb a4 b4) (xorb a5 b5) (xorb a6 b6) (xorb a7 b7).

Fixpoint xor_bytes (a b : list octet) : list octet :=
  match a, b with
  | x :: a', y :: b' => xor_octet x y :: xor_bytes a' b'
  | _, _ => []
  end.

(** The first [n] blocks of 16 bytes. *)
Fixpoint blocks (n : nat) (bs : list octet) : list (list octet) :=
  match n with
  | O => []
  | S n' => firstn block_size bs :: blocks n' (skipn block_size bs)
  end.

(** Padding always adds between 1 and 16 bytes, each holding the count. *)
Definition pad (bs : list octet) : list octet :=
  let n := block_size - (length bs mod block_size) in
  bs ++ repeat (ascii_of_nat n) n.

(** OpenSSL's check in [EVP_DecryptFinal]: the last byte [n] must be in
    1..16 and the last [n] bytes must all equal it. *)
Definition unpad (bs : list octet) : result (list octet) :=
  let n := nat_of_ascii (last bs zero) in
  if (n =? 0) || (block_size <? n) then
    Throw (CryptoError ERR_OSSL_BAD_DECRYPT)
  else if forallb (Ascii.eqb (last bs zero)) (skipn (length bs - n) bs) then
    Ok (firstn (length bs - n) bs)
  else Throw (CryptoError ERR_OSSL_BAD_DECRYPT).

Fixpoint encrypt_blocks (key prev : list octet) (ps : list (list octet))
  : list (list octet) :=
  match ps with
  | [] => []
  | p :: r =>
      let c := aes256_encrypt_block key (xor_bytes p prev) in
      c :: encrypt_blocks key c r
  end.

Fixpoint decrypt_blocks (key prev : list octet) (cs : list (list octet))
  : list (list octet) :=
  match cs with
  | [] => []
  | c :: r =>
      xor_bytes (aes256_decrypt_block key c) prev :: decrypt_blocks key c r
  end.

(** The checks of [createCipheriv] and [createDecipheriv] for
    ['aes-256-cbc']: the IV first, then the key. *)
Definition check_params (key iv : list octet) : result unit :=
  if negb (length iv =? block_size) then
    Throw (CryptoError ERR_CRYPTO_INVALID_IV)
  else if negb (length key =? 32) then
    Throw (CryptoError ERR_CRYPTO_INVALID_KEYLEN)
  else Ok tt.

(** [createCipheriv('aes-256-cbc', key, iv)] followed by [update] and
    [final] over the whole input. *)
Definition encrypt (key iv data : list octet) : result (list octet) :=
  do _ <- check_params key iv;
  let padded := pad data in
  Ok (concat (encrypt_blocks key iv
                (blocks (length padded / block_size) padded))).

(** [createDecipheriv('aes-256-cbc', key, iv)] followed by [update] and
    [final]: [final] rejects an input that is empty or not a whole number
    of blocks, then checks the padding. *)
Definition decrypt (key iv data : list octet) : result (list octet) :=
  do _ <- check_params key iv;
  if (length data =? 0) || negb (length data mod block_size =? 0) then
    Throw (CryptoError ERR_OSSL_WRONG_FINAL_BLOCK_LENGTH)
  else
    unpad (concat (decrypt_blocks key iv
                     (blocks (length data / block_size) data))).

End WithPlatform.
End Cbc.

(* ================================================================== *)
(** ** The source of randomness *)

(** [crypto.randomBytes] reads from an endless tape of bytes. *)
Record Entropy : Type := { tape : nat -> octet; cursor : nat }.

Definition randomBytes (n : nat) (g : Entropy) : list octet * Entropy :=
  (map (tape g) (seq (cursor g) n),
   {| tape := tape g; cursor := cursor g + n |}).

(* ================================================================== *)
(** ** [CryptoService] (crypto.service.ts) *)

Definition IV_LENGTH : nat := 16.
Definition KEY_LENGTH : nat := 32.

Record CryptoService : Type := { encryptionKey : jsstring }.

Definition default_encryption_key : jsstring :=
  lit "default-encryption-key-32-char-long!".

(** The constructor: [configService.get('ENCRYPTION_KEY') || default]; an
    unset or empty variable selects the default. *)
Definition newCryptoService (env : option jsstring) : CryptoService :=
  {| encryptionKey :=
       match env with
       | Some (c :: k) => c :: k
       | Some [] | None => default_encryption_key
       end |}.

(** [!x] for a value that is a string or [undefined]. *)
Definition falsy (x : option jsstring) : bool :=
  match x with
  | None | Some [] => true
  | Some (_ :: _) => false
  end.

Section CryptoServiceMethods.
Context {P : Platform}.
Variable this : CryptoService.

Definition getKey : list octet :=
  scryptSync (encryptionKey this) (lit "salt") KEY_LENGTH.

(** The body of [encrypt] after [iv] has been drawn. *)
Definition encrypt_with (iv : list octet) (text : jsstring) : result jsstring :=
  let key := getKey in
  do encrypted <- Cbc.encrypt key iv (Utf8.encode text);
  Ok (Hex.encode iv ++ colon :: Hex.encode encrypted).

Definition encrypt (text : jsstring) (g : Entropy) : result jsstring * Entropy :=
  let '(iv, g') := randomBytes IV_LENGTH g in
  (encrypt_with iv text, g').

Definition decrypt (text : jsstring) : result jsstring :=
  let parts := split colon text in
  let ivString := nth_error parts 0 in
  let encryptedText := nth_error parts 1 in
  if falsy ivString || falsy encryptedText
     || negb (length (match ivString with Some s => s | None => [] end)
              =? IV_LENGTH * 2)
  then Throw FormatError
  else
    let iv := Hex.decode (match ivString with Some s => s | None => [] end) in
    let encrypted :=
      Hex.decode (match encryptedText with Some s => s | None => [] end) in
    let key := getKey in
    do decrypted <- Cbc.decrypt key iv encrypted;
    Ok (Utf8.decode decrypted).

End CryptoServiceMethods.

(** The older single-file [TelegramService] has the same three functions
    at top level, taking the passphrase as an argument; its
    [readEncryptedFile], [writeEncryptedFile], [readMessages] and
    [appendMessageToFile] are, line for line, the methods of
    [MessageLogService] below with [this.encryptionKey] passed along. *)
Module Inline.
Section WithPlatform.
Context {P : Platform}.

Definition getKey (encryptionKey : jsstring) : list octet :=
  scryptSync encryptionKey (lit "salt") KEY_LENGTH.

Definition encrypt_with (iv : list octet) (text encryptionKey : jsstring)
  : result jsstring :=
  let key := getKey encryptionKey in
  do encrypted <- Cbc.encrypt key iv (Utf8.encode text);
  Ok (Hex.encode iv ++ colon :: Hex.encode encrypted).

Definition encrypt (text encryptionKey : jsstring) (g : Entropy)
  : result jsstring * Entropy :=
  let '(iv, g') := randomBytes IV_LENGTH g in
  (encrypt_with iv text encryptionKey, g').

Definition decrypt (text encryptionKey : jsstring) : result jsstring :=
  let parts := split colon text in
  let ivString := nth_error parts 0 in
  let encryptedText := nth_error parts 1 in
  if falsy ivString || falsy encryptedText
     || negb (length (match ivString with Some s => s | None => [] end)
              =? IV_LENGTH * 2)
  then Throw FormatError
  else
    let iv := Hex.decode (match ivString with Some s => s | None => [] end) in
    let encrypted :=
      Hex.decode (match encryptedText with Some s => s | None => [] end) in
    let key := getKey encryptionKey in
    do decrypted <- Cbc.decrypt key iv encrypted;
    Ok (Utf8.decode decrypted).

End WithPlatform.
End Inline.

(* ================================================================== *)
(** ** [Date] *)

Module DateTime.
#[local] Open Scope Z_scope.

Definition msPerDay : Z := 86400000.
Definition Day (t : Z) : Z := t / msPerDay.
Definition TimeWithinDay (t : Z) : Z := t mod msPerDay.

Definition DayFromYear (y : Z) : Z :=
  365 * (y - 1970) + (y - 1969) / 4 - (y - 1901) / 100 + (y - 1601) / 400.

Definition InLeapYear (y : Z) : bool :=
  (y mod 4 =? 0) && (negb (y mod 100 =? 0) || (y mod 400 =? 0)).

Definition DaysInYear (y : Z) : Z := if InLeapYear y then 366 else 365.

(** The year a day falls in: the largest [y] with [DayFromYear y <= day],
    found from an estimate that is off by at most one. *)
Definition YearFromDay (day : Z) : Z :=
  let y := 1970 + (400 * day) / 146097 in
  if DayFromYear (y + 1) <=? day then y + 1
  else if DayFromYear y <=? day then y
  else y - 1.

(** Day number, within its year, of the first day of month [m] (0..11). *)
Definition month_start (leap : bool) (m : Z) : Z :=
  let l := if leap then 1 else 0 in
  match m with
  | 0 => 0
  | 1 => 31
  | 2 => 59 + l
  | 3 => 90 + l
  | 4 => 120 + l
  | 5 => 151 + l
  | 6 => 181 + l
  | 7 => 212 + l
  | 8 => 243 + l
  | 9 => 273 + l
  | 10 => 304 + l
  | 11 => 334 + l
  | _ => 365 + l
  end%Z.

Definition MonthFromDay (leap : bool) (d : Z) : Z :=
  if d <? month_start leap 1 then 0
  else if d <? month_start leap 2 then 1
  else if d <? month_start leap 3 then 2
  else if d <? month_start leap 4 then 3
  else if d <? month_start leap 5 then 4
  else if d <? month_start leap 6 then 5
  else if d <? month_start leap 7 then 6
  else if d <? month_start leap 8 then 7
  else if d <? month_start leap 9 then 8
  else if d <? month_start leap 10 then 9
  else if d <? month_start leap 11 then 10
  else 11.

Definition DaysInMonth (leap : bool) (m : Z) : Z :=
  month_start leap (m + 1) - month_start leap m.

Definition MakeDay (year month date : Z) : Z :=
  DayFromYear year + month_start (InLeapYear year) month + date - 1.

Definition MakeTime (hour min sec ms : Z) : Z :=
  hour * 3600000 + min * 60000 + sec * 1000 + ms.

Definition MakeDate (day time : Z) : Z := day * msPerDay + time.

(** *** Decimal fields *)

Definition digit_char (d : Z) : cunit :=
  CU zero
     match d with
     | 1 => "1" | 2 => "2" | 3 => "3" | 4 => "4" | 5 => "5"
     | 6 => "6" | 7 => "7" | 8 => "8" | 9 => "9" | _ => "0"
     end%char%Z.

(** The digits are the characters 48..57. *)
Definition digit_value (c : cunit) : option Z :=
  let n := Z.of_nat (nat_of_ascii (cu_lo c)) - 48 in
  if Ascii.eqb (cu_hi c) zero && (0 <=? n) && (n <=? 9) then Some n
  else None.

(** [n] written with exactly [w] digits (leading zeros). *)
Fixpoint digits (w : nat) (n : Z) : jsstring :=
  match w with
  | O => []
  | S w' => digits w' (n / 10) ++ [digit_char (n mod 10)]
  end.

(** Reads exactly [w] digits. *)
Fixpoint take_digits (w : nat) (acc : Z) (s : jsstring) : option (Z * jsstring) :=
  match w with
  | O => Some (acc, s)
  | S w' =>
      match s with
      | c :: r =>
          match digit_value c with
          | Some d => take_digits w' (10 * acc + d) r
          | None => None
          end
      | [] => None
      end
  end.

Definition expect (a : ascii) (s : jsstring) : option jsstring :=
  match s with
  | c :: r => if cunit_eqb c (CU zero a) then Some r else None
  | [] => None
  end.
Arguments expect a%_char_scope s.

(** *** [Date.prototype.toISOString] *)

Definition year_string (y : Z) : jsstring :=
  if (0 <=? y) && (y <=? 9999) then digits 4%nat y
  else (if y <? 0 then lit "-" else lit "+") ++ digits 6%nat (Z.abs y).

Definition toISOString (t : Z) : jsstring :=
  let day := Day t in
  let y := YearFromDay day in
  let leap := InLeapYear y in
  let dwy := day - DayFromYear y in
  let m := MonthFromDay leap dwy in
  let d := dwy - month_start leap m + 1 in
  let tm := TimeWithinDay t in
  year_string y ++ lit "-" ++ digits 2%nat (m + 1) ++ lit "-" ++ digits 2%nat d
    ++ lit "T" ++ digits 2%nat (tm / 3600000)
    ++ lit ":" ++ digits 2%nat ((tm / 60000) mod 60)
    ++ lit ":" ++ digits 2%nat ((tm / 1000) mod 60)
    ++ lit "." ++ digits 3%nat (tm mod 1000) ++ lit "Z".

(** [Date.prototype.toJSON]: [null] for an invalid date. *)
Definition toJSON (d : JSDate) : option jsstring :=
  match d with
  | InvalidDate => None
  | DateAt t => Some (toISOString t)
  end.

(** *** [Date.parse] on the complete ISO format *)

Definition opt_bind {A B} (o : option A) (k : A -> option B) : option B :=
  match o with
  | Some a => k a
  | None => None
  end.

(** The year: four digits, or a sign and six digits ([-000000] is not a
    year). *)
Definition take_year (s : jsstring) : option (Z * jsstring) :=
  match s with
  | c :: r =>
      if cunit_eqb c (CU zero "+"%char) then take_digits 6%nat 0 r
      else if cunit_eqb c (CU zero "-"%char) then
        opt_bind (take_digits 6%nat 0 r) (fun '(y, r') =>
          if y =? 0 then None else Some (- y, r'))
      else take_digits 4%nat 0 s
  | [] => None
  end.

(** [YYYY-MM-DDTHH:mm:ss.sssZ] (or with an expanded year), every field in
    range; [None] for any other string. *)
Definition parse_iso (s : jsstring) : option Z :=
  opt_bind (take_year s) (fun '(y, s) =>
  opt_bind (expect "-" s) (fun s =>
  opt_bind (take_digits 2%nat 0 s) (fun '(mo, s) =>
  opt_bind (expect "-" s) (fun s =>
  opt_bind (take_digits 2%nat 0 s) (fun '(d, s) =>
  opt_bind (expect "T" s) (fun s =>
  opt_bind (take_digits 2%nat 0 s) (fun '(h, s) =>
  opt_bind (expect ":" s) (fun s =>
  opt_bind (take_digits 2%nat 0 s) (fun '(mi, s) =>
  opt_bind (expect ":" s) (fun s =>
  opt_bind (take_digits 2%nat 0 s) (fun '(sec, s) =>
  opt_bind (expect "." s) (fun s =>
  opt_bind (take_digits 3%nat 0 s) (fun '(ms, s) =>
  opt_bind (expect "Z" s) (fun s =>
    match s with
    | [] =>
        if (1 <=? mo) && (mo <=? 12) && (1 <=? d)
           && (d <=? DaysInMonth (InLeapYear y) (mo - 1))
           && (h <=? 23) && (mi <=? 59) && (sec <=? 59)
        then Some (MakeDate (MakeDay y (mo - 1) d) (MakeTime h mi sec ms))
        else None
    | _ :: _ => None
    end)))))))))))))).

Section WithPlatform.
Context {P : Platform}.

Definition parse (s : jsstring) : JSDate :=
  match parse_iso s with
  | Some t => TimeClip t
  | None => Date_parse_other s
  end.

(** [new Date(v)] for a value read from JSON or a missing property. *)
Definition construct (v : jsval) : JSDate :=
  match v with
  | VString s => parse s
  | VUndefined => InvalidDate
  | VNull => DateAt 0
  | VBool b => DateAt (if b then 1 else 0)
  | VNumber _ | VArray _ | VObject _ => Date_of_other v
  end.

End WithPlatform.

(** [new Date(n)] for an integer [n]. *)
Definition of_number (n : Z) : JSDate := TimeClip n.

End DateTime.

(* ================================================================== *)
(** ** [JSON] *)

(** One element of the array kept in [messages.json], as [readMessages]
    builds it and [appendMessage] pushes it. *)
Record StoredMessage : Set := { date : JSDate; message : jsval }.

Module JSON.

Definition dquote : cunit := CU zero "034"%char.
Definition backslash : cunit := CU zero "092"%char.
Definition newline : cunit := CU zero "010"%char.

Definition is_char (a : ascii) (c : cunit) : bool := cunit_eqb c (CU zero a).
Arguments is_char a%_char_scope c.

(** U+0000..U+001F. *)
Definition is_control (c : cunit) : bool :=
  let '(Ascii _ _ _ _ _ b5 b6 b7) := cu_lo c in
  Ascii.eqb (cu_hi c) zero && negb (b5 || b6 || b7).

(** *** [JSON.stringify] *)

Definition unicode_escape (c : cunit) : jsstring :=
  lit "\u"
    ++ [CU zero (Hex.digit (Hex.high (cu_hi c)));
        CU zero (Hex.digit (Hex.low (cu_hi c)));
        CU zero (Hex.digit (Hex.high (cu_lo c)));
        CU zero (Hex.digit (Hex.low (cu_lo c)))].

(** A code unit that is not a surrogate. *)
Definition quote_unit (c : cunit) : jsstring :=
  if is_char "008" c then lit "\b"
  else if is_char "009" c then lit "\t"
  else if is_char "010" c then lit "\n"
  else if is_char "012" c then lit "\f"
  else if is_char "013" c then lit "\r"
  else if is_char "034" c then [backslash; dquote]
  else if is_char "092" c then [backslash; backslash]
  else if is_control c then unicode_escape c
  else [c].

(** QuoteJSONString without the enclosing quotes: a surrogate pair is
    copied, a lone surrogate is escaped. *)
Fixpoint quote_body (s : jsstring) : jsstring :=
  match s with
  | [] => []
  | c :: r =>
      if is_high_surrogate c then
        match r with
        | d :: r' =>
            if is_low_surrogate d then c :: d :: quote_body r'
            else unicode_escape c ++ quote_body r
        | [] => unicode_escape c
        end
      else if is_low_surrogate c then unicode_escape c ++ quote_body r
      else quote_unit c ++ quote_body r
  end.

Definition quote (s : jsstring) : jsstring :=
  dquote :: quote_body s ++ [dquote].

Section Stringify.
Context {P : Platform}.

(** The text of a property value; [None] when the property is left out
    ([undefined]). *)
Definition stringify_property (v : jsval) : option jsstring :=
  match v with
  | VUndefined => None
  | VNull => Some (lit "null")
  | VBool true => Some (lit "true")
  | VBool false => Some (lit "false")
  | VString s => Some (quote s)
  | VNumber _ | VArray _ | VObject _ => Some (stringify_other v)
  end.

(** One entry at indentation 2: its [date] goes through [toJSON]. *)
Definition stringify_entry (e : StoredMessage) : jsstring :=
  lit "{" ++ [newline]
    ++ lit "    " ++ quote (lit "date") ++ lit ": "
    ++ match DateTime.toJSON (date e) with
       | Some iso => quote iso
       | None => lit "null"
       end
    ++ match stringify_property (message e) with
       | Some m =>
           lit "," ++ [newline] ++ lit "    " ++ quote (lit "message")
             ++ lit ": " ++ m
       | None => []
       end
    ++ [newline] ++ lit "  }".

Fixpoint stringify_entries (l : list StoredMessage) : jsstring :=
  match l with
  | [] => []
  | [e] => lit "  " ++ stringify_entry e
  | e :: r =>
      lit "  " ++ stringify_entry e ++ lit "," ++ [newline]
        ++ stringify_entries r
  end.

(** [JSON.stringify(messages, null, 2)]. *)
Definition stringify (l : list StoredMessage) : jsstring :=
  match l with
  | [] => lit "[]"
  | _ :: _ => lit "[" ++ [newline] ++ stringify_entries l ++ [newline] ++ lit "]"
  end.

End Stringify.

(** *** [JSON.parse] *)

Inductive parsed (A : Type) : Type :=
| OutOfFuel
| Bad
| Got (a : A) (rest : jsstring).
Arguments OutOfFuel {A}.
Arguments Bad {A}.
Arguments Got {A} a rest.

Definition is_ws (c : cunit) : bool :=
  is_char " " c || is_char "009" c || is_char "010" c || is_char "013" c.

Fixpoint skip_ws (s : jsstring) : jsstring :=
  match s with
  | c :: r => if is_ws c then skip_ws r else s
  | [] => []
  end.

Definition simple_escape (c : cunit) : option cunit :=
  if is_char "034" c then Some dquote
  else if is_char "092" c then Some backslash
  else if is_char "/" c then Some (CU zero "/"%char)
  else if is_char "b" c then Some (CU zero "008"%char)
  else if is_char "f" c then Some (CU zero "012"%char)
  else if is_char "n" c then Some (CU zero "010"%char)
  else if is_char "r" c then Some (CU zero "013"%char)
  else if is_char "t" c then Some (CU zero "009"%char)
  else None.

Definition cons_fst (c : cunit) (o : option (jsstring * jsstring))
  : option (jsstring * jsstring) :=
  match o with
  | Some (str, rest) => Some (c :: str, rest)
  | None => None
  end.

(** The characters of a string up to its closing quote, and what
    follows. *)
Fixpoint string_body (s : jsstring) : option (jsstring * jsstring) :=
  match s with
  | [] => None
  | c :: r =>
      if is_char "034" c then Some ([], r)
      else if is_char "092" c then
        match r with
        | e :: r1 =>
            match simple_escape e with
            | Some x => cons_fst x (string_body r1)
            | None =>
                if is_char "u" e then
                  match r1 with
                  | h1 :: h2 :: h3 :: h4 :: r2 =>
                      match Hex.unhex h1, Hex.unhex h2,
                            Hex.unhex h3, Hex.unhex h4 with
                      | Some a, Some b, Some c', Some d =>
                          cons_fst (CU (Hex.join a b) (Hex.join c' d))
                                   (string_body r2)
                      | _, _, _, _ => None
                      end
                  | _ => None
                  end
                else None
            end
        | [] => None
        end
      else if is_control c then None
      else cons_fst c (string_body r)
  end.

Definition is_dec_digit (c : cunit) : bool :=
  match DateTime.digit_value c with
  | Some _ => true
  | None => false
  end.

Fixpoint span_digits (s : jsstring) : jsstring * jsstring :=
  match s with
  | c :: r =>
      if is_dec_digit c then
        let '(d, r') := span_digits r in (c :: d, r')
      else ([], s)
  | [] => ([], [])
  end.

(** At least one digit. *)
Definition digits1 (s : jsstring) : option (jsstring * jsstring) :=
  match span_digits s with
  | ([], _) => None
  | (d, r) => Some (d, r)
  end.

(** The JSON number grammar: an optional minus, then 0 or a nonzero digit
    followed by digits, then an optional fraction (a dot and at least one
    digit) and an optional exponent (e or E, an optional sign and at least
    one digit). *)
Definition lex_number (s : jsstring) : option (jsstring * jsstring) :=
  let '(sign, s1) :=
    match s with
    | c :: r => if is_char "-" c then ([c], r) else ([], s)
    | [] => ([], s)
    end in
  let int :=
    match s1 with
    | c :: r =>
        if is_char "0" c then Some ([c], r)
        else if is_dec_digit c then
          let '(d, r') := span_digits r in Some (c :: d, r')
        else None
    | [] => None
    end in
  match int with
  | None => None
  | Some (i, s2) =>
      let frac :=
        match s2 with
        | c :: r =>
            if is_char "." c then
              match digits1 r with
              | Some (d, r') => Some (c :: d, r')
              | None => None
              end
            else Some ([], s2)
        | [] => Some ([], s2)
        end in
      match frac with
      | None => None
      | Some (f, s3) =>
          let exp :=
            match s3 with
            | c :: r =>
                if is_char "e" c || is_char "E" c then
                  let '(sg, r1) :=
                    match r with
                    | c2 :: r' =>
                        if is_char "+" c2 || is_char "-" c2 then ([c2], r')
                        else ([], r)
                    | [] => ([], r)
                    end in
                  match digits1 r1 with
                  | Some (d, r') => Some (c :: sg ++ d, r')
                  | None => None
                  end
                else Some ([], s3)
            | [] => Some ([], s3)
            end in
          match exp with
          | None => None
          | Some (e, s4) => Some (sign ++ i ++ f ++ e, s4)
          end
      end
  end.

Fixpoint strip_prefix (p s : jsstring) : option jsstring :=
  match p, s with
  | [], _ => Some s
  | a :: p', b :: s' => if cunit_eqb a b then strip_prefix p' s' else None
  | _ :: _, [] => None
  end.

Fixpoint value (fuel : nat) (s : jsstring) {struct fuel} : parsed jsval :=
  match fuel with
  | O => OutOfFuel
  | S fuel' =>
      match skip_ws s with
      | [] => Bad
      | c :: r =>
          if is_char "034" c then
            match string_body r with
            | Some (str, r') => Got (VString str) r'
            | None => Bad
            end
          else if is_char "[" c then
            match skip_ws r with
            | d :: r' =>
                if is_char "]" d then Got (VArray []) r'
                else
                  match elements fuel' (d :: r') with
                  | Got vs r'' => Got (VArray vs) r''
                  | Bad => Bad
                  | OutOfFuel => OutOfFuel
                  end
            | [] => Bad
            end
          else if is_char "{" c then
            match skip_ws r with
            | d :: r' =>
                if is_char "}" d then Got (VObject []) r'
                else
                  match members fuel' (d :: r') with
                  | Got ms r'' => Got (VObject ms) r''
                  | Bad => Bad
                  | OutOfFuel => OutOfFuel
                  end
            | [] => Bad
            end
          else
            match strip_prefix (lit "null") (c :: r) with
            | Some r' => Got VNull r'
            | None =>
                match strip_prefix (lit "true") (c :: r) with
                | Some r' => Got (VBool true) r'
                | None =>
                    match strip_prefix (lit "false") (c :: r) with
                    | Some r' => Got (VBool false) r'
                    | None =>
                        match lex_number (c :: r) with
                        | Some (lx, r') => Got (VNumber lx) r'
                        | None => Bad
                        end
                    end
                end
            end
      end
  end

(** The elements of an array after its first bracket, up to the closing
    one. *)
with elements (fuel : nat) (s : jsstring) {struct fuel}
  : parsed (list jsval) :=
  match fuel with
  | O => OutOfFuel
  | S fuel' =>
      match value fuel' s with
      | Got v r =>
          match skip_ws r with
          | c :: r' =>
              if is_char "," c then
                match elements fuel' r' with
                | Got vs r'' => Got (v :: vs) r''
                | Bad => Bad
                | OutOfFuel => OutOfFuel
                end
              else if is_char "]" c then Got [v] r'
              else Bad
          | [] => Bad
          end
      | Bad => Bad
      | OutOfFuel => OutOfFuel
      end
  end

(** The members of an object after its brace, up to the closing one. *)
with members (fuel : nat) (s : jsstring) {struct fuel}
  : parsed (list (jsstring * jsval)) :=
  match fuel with
  | O => OutOfFuel
  | S fuel' =>
      match skip_ws s with
      | c :: r =>
          if is_char "034" c then
            match string_body r with
            | Some (k, r1) =>
                match skip_ws r1 with
                | c2 :: r2 =>
                    if is_char ":" c2 then
                      match value fuel' r2 with
                      | Got v r3 =>
                          match skip_ws r3 with
                          | c3 :: r4 =>
                              if is_char "," c3 then
                                match members fuel' r4 with
                                | Got ms r5 => Got ((k, v) :: ms) r5
                                | Bad => Bad
                                | OutOfFuel => OutOfFuel
                                end
                              else if is_char "}" c3 then Got [(k, v)] r4
                              else Bad
                          | [] => Bad
                          end
                      | Bad => Bad
                      | OutOfFuel => OutOfFuel
                      end
                    else Bad
                | [] => Bad
                end
            | None => Bad
            end
          else Bad
      | [] => Bad
      end
  end.

(** Two units of fuel per character are never used up
    ([JSONFuel.value_fuel]). *)
Definition fuel_for (text : jsstring) : nat := 2 * length text + 1.

Definition parse (text : jsstring) : result jsval :=
  match value (fuel_for text) text with
  | Got v rest =>
      match skip_ws rest with
      | [] => Ok v
      | _ :: _ => Throw SyntaxError
      end
  | Bad | OutOfFuel => Throw SyntaxError
  end.

Fixpoint jsstring_eqb (a b : jsstring) : bool :=
  match a, b with
  | [], [] => true
  | x :: a', y :: b' => cunit_eqb x y && jsstring_eqb a' b'
  | _, _ => false
  end.

(** [o[k]] for an object built by [JSON.parse]: the last member named [k]
    wins; [undefined] when there is none. *)
Fixpoint lookup (k : jsstring) (ms : list (jsstring * jsval)) : jsval :=
  match ms with
  | [] => VUndefined
  | (k', v) :: r =>
      match lookup k r with
      | VUndefined => if jsstring_eqb k k' then v else VUndefined
      | found => found
      end
  end.

End JSON.

(** [v.k] for [k] one of [date], [message]: strings, numbers, booleans and
    arrays have no such property; [null] and [undefined] throw. *)
Definition get_property (v : jsval) (k : jsstring) : result jsval :=
  match v with
  | VNull | VUndefined => Throw TypeError
  | VObject ms => Ok (JSON.lookup k ms)
  | VBool _ | VNumber _ | VString _ | VArray _ => Ok VUndefined
  end.

(* ================================================================== *)
(** ** The world of [MessageLogService] *)

Inductive log_line : Set :=
| LogInfo (text : string)
| LogError (text : string) (e : js_error).

(** What the service can observe and change: the file at [messagesPath]
    ([None] when it does not exist), whether the file system refuses to read
    or to write it, the random source and the logger's output.

    [read_fault] makes [fs.readFile] fail with a system error other than
    ENOENT.  [write_fault = Some residue] makes [fs.writeFile] fail and
    leave [residue] behind. *)
Record World : Type := {
  messages_json : option (list octet);
  read_fault : bool;
  write_fault : option (option (list octet));
  entropy : Entropy;
  console : list log_line
}.

Definition logged (l : log_line) (w : World) : World :=
  {| messages_json := messages_json w;
     read_fault := read_fault w;
     write_fault := write_fault w;
     entropy := entropy w;
     console := console w ++ [l] |}.

Definition with_file (f : option (list octet)) (w : World) : World :=
  {| messages_json := f;
     read_fault := read_fault w;
     write_fault := write_fault w;
     entropy := entropy w;
     console := console w |}.

Definition with_entropy (g : Entropy) (w : World) : World :=
  {| messages_json := messages_json w;
     read_fault := read_fault w;
     write_fault := write_fault w;
     entropy := g;
     console := console w |}.

(** [fs.readFile(messagesPath, 'utf-8')]. *)
Definition fs_readFile (w : World) : result jsstring :=
  if read_fault w then Throw (SystemError EOTHER)
  else match messages_json w with
       | None => Throw (SystemError ENOENT)
       | Some bytes => Ok (Utf8.decode bytes)
       end.

(** [fs.writeFile(messagesPath, content, 'utf-8')]. *)
Definition fs_writeFile (content : jsstring) (w : World) : result unit * World :=
  match write_fault w with
  | Some residue => (Throw (SystemError EOTHER), with_file residue w)
  | None => (Ok tt, with_file (Some (Utf8.encode content)) w)
  end.

(** The part of [TelegramBot.Message] the store reads: [date] in seconds
    since the epoch and the optional [text]. *)
Record Message : Set := { msg_date : Z; msg_text : option jsstring }.

Definition no_text_content : jsstring := lit "No text content".

(* ================================================================== *)
(** ** [MessageLogService] (message-log.service.ts) *)

Section MessageLogService.
Context {P : Platform}.
Variable cryptoService : CryptoService.

(** The [try] block of [readEncryptedFile]. *)
Definition readEncryptedFile_try (w : World) : result jsval :=
  do encryptedContent <- fs_readFile w;
  do decryptedContent <- decrypt cryptoService encryptedContent;
  JSON.parse decryptedContent.

(** Its [catch] logs when the error carries a [code] other than ['ENOENT']
    and returns [null]. *)
Definition readEncryptedFile (w : World) : jsval * World :=
  match readEncryptedFile_try w with
  | Ok v => (v, w)
  | Throw error =>
      (VNull,
       if error_has_code error && negb (error_is_enoent error)
       then logged (LogError "Error reading encrypted file:" error) w
       else w)
  end.

Definition writeEncryptedFile (data : list StoredMessage) (w : World)
  : result unit * World :=
  let jsonContent := JSON.stringify data in
  let '(encrypted, g) := encrypt cryptoService jsonContent (entropy w) in
  let w1 := with_entropy g w in
  let '(outcome, w2) :=
    match encrypted with
    | Ok encryptedContent => fs_writeFile encryptedContent w1
    | Throw error => (Throw error, w1)
    end in
  match outcome with
  | Ok tt => (Ok tt, w2)
  | Throw error =>
      (Throw error, logged (LogError "Error writing encrypted file:" error) w2)
  end.

(** The callback of [messages.map]. *)
Definition to_stored (msg : jsval) : result StoredMessage :=
  do d <- get_property msg (lit "date");
  do m <- get_property msg (lit "message");
  Ok {| date := DateTime.construct d; message := m |}.

Fixpoint map_result {A B} (f : A -> result B) (l : list A) : result (list B) :=
  match l with
  | [] => Ok []
  | a :: r =>
      do b <- f a;
      do bs <- map_result f r;
      Ok (b :: bs)
  end.

(** [messages?.map(...) || []]: [null] gives the empty array, an array is
    mapped, and any other value has no callable [map]. *)
Definition readMessages (w : World) : result (list StoredMessage) * World :=
  let '(messages, w') := readEncryptedFile w in
  (match messages with
   | VNull | VUndefined => Ok []
   | VArray elements => map_result to_stored elements
   | VBool _ | VNumber _ | VString _ | VObject _ => Throw TypeError
   end, w').

(** [msg.text || 'No text content']. *)
Definition text_or_default (text : option jsstring) : jsstring :=
  match text with
  | Some (c :: r) => c :: r
  | Some [] | None => no_text_content
  end.

(** What [appendMessage] pushes. *)
Definition stored_of (msg : Message) : StoredMessage :=
  {| date := DateTime.of_number (msg_date msg * 1000);
     message := VString (text_or_default (msg_text msg)) |}.

(** The promise of [appendMessage] and the world it leaves. *)
Definition appendMessage (msg : Message) (w : World) : result unit * World :=
  let '(read, w1) := readMessages w in
  match read with
  | Ok messages =>
      let messages' := messages ++ [stored_of msg] in
      let '(written, w2) := writeEncryptedFile messages' w1 in
      match written with
      | Ok _ => (Ok tt, logged (LogInfo "Message saved to file") w2)
      | Throw error =>
          (Ok tt, logged (LogError "Error saving message to file:" error) w2)
      end
  | Throw error =>
      (Ok tt, logged (LogError "Error saving message to file:" error) w1)
  end.

End MessageLogService.

(* ================================================================== *)
(** ** A platform to run the model on *)

(** A stand-in for the provider, used to show that the laws of [Platform]
    can be met and to evaluate the model: the block "cipher" adds the first
    key byte to every byte of the block, and the key derivation repeats one
    byte, the number of characters of the passphrase and the salt. *)
Module Toy.

Definition scrypt (password salt : jsstring) (keylen : nat) : list octet :=
  repeat (ascii_of_nat (length password + length salt)) keylen.

Definition encrypt_block (key b : list octet) : list octet :=
  map (Cbc.xor_octet (hd zero key)) b.

Definition decrypt_block (key b : list octet) : list octet :=
  map (Cbc.xor_octet (hd zero key)) b.

End Toy.

(** The laws of [Platform] can be met. *)
Definition toy_platform : Platform.
Proof.
  refine {| scryptSync := Toy.scrypt;
            aes256_encrypt_block := Toy.encrypt_block;
            aes256_decrypt_block := Toy.decrypt_block;
            Date_parse_other := fun _ => InvalidDate;
            Date_of_other := fun _ => InvalidDate;
            stringify_other := fun _ => lit "null" |}.
  - intros password salt keylen. apply repeat_length.
  - intros key b _ Hb. unfold Toy.encrypt_block. now rewrite length_map.
  - intros key b _ _. unfold Toy.decrypt_block, Toy.encrypt_block.
    rewrite map_map. rewrite <- (map_id b) at 2.
    apply map_ext. intros a. destruct (hd zero key), a. cbn.
    f_equal; rewrite <- xorb_assoc, xorb_nilpotent; apply xorb_false_l.
  - intros s. exact I.
  - intros v. exact I.
Defined.

(* ================================================================== *)
(** ** Vocabulary of the statements *)

(** The two parts [decrypt] looks at, [[]] standing for a missing one. *)
Definition iv_segment (text : jsstring) : jsstring :=
  nth 0 (split colon text) [].


Definition count_colons (s : jsstring) : nat :=
  length (filter (cunit_eqb colon) s).

(** The values [JSON.stringify] writes without help from the platform and
    [JSON.parse] reads back as they were, and their text. *)
Definition atom (v : jsval) : bool :=
  match v with
  | VNull | VBool _ | VString _ => true
  | VUndefined | VNumber _ | VArray _ | VObject _ => false
  end.

Definition atom_text (v : jsval) : jsstring :=
  match v with
  | VNull => lit "null"
  | VBool true => lit "true"
  | VBool false => lit "false"
  | VString s => JSON.quote s
  | VUndefined | VNumber _ | VArray _ | VObject _ => []
  end.

(** An atom, or [undefined] for a property that is left out. *)
Definition optional_atom (v : jsval) : bool :=
  match v with
  | VUndefined => true
  | _ => atom v
  end.

(** What [toJSON] hands to [JSON.stringify] for a date. *)
Definition date_value (d : JSDate) : jsval :=
  match DateTime.toJSON d with
  | Some iso => VString iso
  | None => VNull
  end.

(** The text of an entry with the date value [d] and the message [m], the
    value [JSON.parse] reads from it, and the text of a list of entries. *)
Definition entry_text (d m : jsval) : jsstring :=
  lit "{" ++ [JSON.newline] ++ lit "    " ++ JSON.quote (lit "date")
    ++ lit ": " ++ atom_text d
    ++ match m with
       | VUndefined => []
       | _ =>
           lit "," ++ [JSON.newline] ++ lit "    "
             ++ JSON.quote (lit "message") ++ lit ": " ++ atom_text m
       end
    ++ [JSON.newline] ++ lit "  }".

Definition entry_value (d m : jsval) : jsval :=
  VObject ((lit "date", d)
             :: match m with
                | VUndefined => []
                | _ => [(lit "message", m)]
                end).

Fixpoint entries_text (l : list (jsval * jsval)) : jsstring :=
  match l with
  | [] => []
  | [(d, m)] => lit "  " ++ entry_text d m
  | (d, m) :: r =>
      lit "  " ++ entry_text d m ++ lit "," ++ [JSON.newline]
        ++ entries_text r
  end.

Definition fields (e : StoredMessage) : jsval * jsval :=
  (date_value (date e), message e).

(** An entry whose message is a string, a boolean, [null] or missing. *)
Definition scalar_message (e : StoredMessage) : bool :=
  optional_atom (message e).

Definition valid_date (e : StoredMessage) : bool :=
  match date e with
  | DateAt _ => true
  | InvalidDate => false
  end.

(** An entry as it is read after having been written: an invalid date is
    written as [null], which [new Date] reads as the epoch. *)
Definition reread (e : StoredMessage) : StoredMessage :=
  {| date := match date e with
             | InvalidDate => DateAt 0
             | DateAt t => DateAt t
             end;
     message := message e |}.

(** [msg.date * 1000] is a time value [Date] can hold. *)
Definition in_date_range (msg : Message) : Prop :=
  (Z.abs (msg_date msg * 1000) <= maxTime)%Z.

(** The file of [w] holds the log [l], encrypted under some IV. *)
Definition holds {P : Platform} (cryptoService : CryptoService)
  (w : World) (l : list StoredMessage) : Prop :=
  exists iv blob,
    length iv = 16
    /\ encrypt_with cryptoService iv (JSON.stringify l) = Ok blob
    /\ messages_json w = Some (Utf8.encode blob).

(** Concrete inputs. *)
Module Sample.

Definition bytes (n : nat) : octet := ascii_of_nat (7 * n + 3).

Definition source : Entropy := {| tape := bytes; cursor := 0 |}.

Definition world (file : option (list octet)) : World :=
  {| messages_json := file;
     read_fault := false;
     write_fault := None;
     entropy := source;
     console := [] |}.

Definition read_only_world : World :=
  {| messages_json := None;
     read_fault := false;
     write_fault := Some None;
     entropy := source;
     console := [] |}.

Definition service : CryptoService := newCryptoService None.

Definition iv0 : list octet := repeat zero 16.
Definition iv1 : list octet := repeat "001"%char 16.

(** A high surrogate with no low surrogate after it. *)
Definition lone_surrogate : jsstring := [CU "216"%char zero].


(** The toy platform's blob for the JSON text [true] under [iv0] and the
    default passphrase, as bytes on disk. *)
Definition true_blob : jsstring :=
  lit "00000000000000000000000000000000:5c5a5d4d242424242424242424242424".

Definition true_world : World := world (Some (Utf8.encode true_blob)).

(** The same for the JSON text of one entry that has a message and no
    date. *)
Definition dateless_blob : jsstring :=
  lit "00000000000000000000000000000000:73530a454d5b5b494f4d0a120a450a5506742d626a7c7c6e686a2d352d622d72".

Definition dateless_world : World :=
  world (Some (Utf8.encode dateless_blob)).

Definition garbage_world : World :=
  world (Some (Utf8.encode (lit "garbage"))).

Definition hello : Message :=
  {| msg_date := 1700000000; msg_text := Some (lit "hello") |}.

Definition bye : Message :=
  {| msg_date := 1700000060; msg_text := Some (lit "bye") |}.

Definition far_future : Message :=
  {| msg_date := 10000000000000; msg_text := Some (lit "a") |}.

Definition empty_text : Message :=
  {| msg_date := 1700000000; msg_text := Some [] |}.

End Sample.

From Stdlib Require Import DecimalString.

(* ================================================================== *)
(** * The services above the store

    [src/service/ai-summary.service.ts] and
    [src/service/telegram.service.ts]: the formatting of the log, the request
    to the language model and the handler of incoming messages, over the
    store of [MessageLogService]. *)

(* ================================================================== *)
(** ** Strings: [trim], [toLowerCase], [includes], [join] *)

Definition code (c : cunit) : N :=
  (256 * N_of_ascii (cu_hi c) + N_of_ascii (cu_lo c))%N.

(** WhiteSpace and LineTerminator of ECMAScript, all in the basic plane:
    U+0009..U+000D, U+0020, U+00A0, U+1680, U+2000..U+200A, U+2028, U+2029,
    U+202F, U+205F, U+3000 and U+FEFF. *)
Definition is_space (c : cunit) : bool :=
  let n := code c in
  (((9 <=? n) && (n <=? 13)) || (n =? 32) || (n =? 160) || (n =? 5760)
   || ((8192 <=? n) && (n <=? 8202)) || (n =? 8232) || (n =? 8233)
   || (n =? 8239) || (n =? 8287) || (n =? 12288) || (n =? 65279))%N.

Fixpoint trimStart (s : jsstring) : jsstring :=
  match s with
  | c :: r => if is_space c then trimStart r else s
  | [] => []
  end.

Definition trimEnd (s : jsstring) : jsstring := rev (trimStart (rev s)).

(** [String.prototype.trim]. *)
Definition trim (s : jsstring) : jsstring := trimEnd (trimStart s).

Definition is_ascii (c : cunit) : bool := (code c <? 128)%N.

(** [A]..[Z] to [a]..[z]; every other code unit below 128 is kept. *)
Definition lower_ascii (c : cunit) : cunit :=
  let n := code c in
  if ((65 <=? n) && (n <=? 90))%N then CU zero (ascii_of_N (n + 32)) else c.

Fixpoint starts_with (p s : jsstring) : bool :=
  match p, s with
  | [], _ => true
  | a :: p', b :: s' => cunit_eqb a b && starts_with p' s'
  | _ :: _, [] => false
  end.

(** [hay.includes(needle)]. *)
Fixpoint includes (needle hay : jsstring) : bool :=
  starts_with needle hay
  || match hay with
     | [] => false
     | _ :: r => includes needle r
     end.

(** [lines.join(sep)] for an array of strings. *)
Fixpoint join (sep : jsstring) (lines : list jsstring) : jsstring :=
  match lines with
  | [] => []
  | [x] => x
  | x :: r => x ++ sep ++ join sep r
  end.

(** [String(n)] for an integer below 10^21 in absolute value, as the
    identifiers of chats are. *)
Definition number_text (n : Z) : jsstring :=
  lit (NilZero.string_of_int (Z.to_int n)).

(** What is left uninterpreted of the run time.

    - [ToString_other v] is the conversion of [v] in a template literal when
      [v] is a number, an array or an object; it can throw.
    - [lower_other s i] is what the code unit at index [i] of [s] contributes
      to [s.toLowerCase()] when that code unit is not below 128 (the
      mapping of the code point it belongs to, in its context, or nothing
      for the second half of a pair).  The code units below 128 map by
      [lower_ascii] wherever they stand. *)
Class Runtime : Type := {
  ToString_other : jsval -> result jsstring;
  lower_other : jsstring -> nat -> jsstring
}.

Section Strings.
Context {R : Runtime}.

Fixpoint lower_from (whole : jsstring) (i : nat) (s : jsstring) : jsstring :=
  match s with
  | [] => []
  | c :: r =>
      (if is_ascii c then [lower_ascii c] else lower_other whole i)
        ++ lower_from whole (S i) r
  end.

(** [String.prototype.toLowerCase]. *)
Definition toLowerCase (s : jsstring) : jsstring := lower_from s 0 s.

End Strings.

(* ================================================================== *)
(** ** Outcomes and effects of the two services *)

(** What the two services can throw: an error of the store, the RangeError
    of [toISOString] on an invalid date, a failure of the model's client, the
    [new Error('Failed to generate psychological analysis')] of
    [generatePsychologicalSummary], and a rejected call of the bot API. *)
Inductive service_error : Set :=
| Inner (e : js_error)
| RangeError
| OllamaError
| AnalysisFailed
| TelegramError.

Inductive outcome (A : Type) : Type :=
| Done (a : A)
| Raised (e : service_error).
Arguments Done {A} a.
Arguments Raised {A} e.

(** The part of [TelegramBot.Message] the handler reads: [chat.id] and what
    the store reads. *)
Record Incoming : Set := { chat_id : Z; content : Message }.

(** A request of [ollama.generate] and what comes back: a response, a
    reply without a [response] string, or a rejection. *)
Record GenerateRequest : Set := {
  model : jsstring;
  prompt : jsstring;
  format : jsstring;
  stream : bool
}.

Inductive ollama_reply : Set :=
| Generated (response : jsstring)
| Garbled
| Refused.

(** The calls made to the bot API; [markdown] is [parse_mode: 'Markdown']. *)
Inductive bot_call : Set :=
| SendChatAction (chat : Z) (action : jsstring)
| SendMessage (chat : Z) (text : jsstring) (markdown : bool)
| EditMessageText (text : jsstring) (chat : Z) (message_id : Z)
                  (markdown : bool).

Inductive telegram_reply : Set :=
| Delivered (message_id : Z)
| Rejected.

(** The output of the loggers of [TelegramService] and [AiSummaryService]. *)
Inductive service_line : Set :=
| Note (text : jsstring)
| NoteWith (text : jsstring) (payload : option jsstring)
| NoteMessage (text : jsstring) (msg : Incoming)
| Failure (text : jsstring) (e : service_error).

(** What the two services observe and change: the world of the store, the
    model's server (its reply to the n-th request), the requests made, the
    Telegram servers (their reply to the n-th call), the calls made, and the
    loggers' output. *)
Record Net : Type := {
  store : World;
  ollama : nat -> GenerateRequest -> ollama_reply;
  requests : list GenerateRequest;
  telegram : nat -> bot_call -> telegram_reply;
  calls : list bot_call;
  journal : list service_line
}.

(** An asynchronous computation: it ends with a value or a rejection and
    leaves a state either way. *)
Definition M (A : Type) : Type := Net -> outcome A * Net.

Definition ret {A} (a : A) : M A := fun n => (Done a, n).

Definition raise {A} (e : service_error) : M A := fun n => (Raised e, n).

Definition mbind {A B} (m : M A) (k : A -> M B) : M B :=
  fun n =>
    match m n with
    | (Done a, n') => k a n'
    | (Raised e, n') => (Raised e, n')
    end.

Notation "'perform' x <- m ; k" := (mbind m (fun x => k))
  (at level 10, x name, m at level 100, k at level 200).

(** [try { body } catch (error) { handler }]. *)
Definition try_catch {A} (body : M A) (handler : service_error -> M A) : M A :=
  fun n =>
    match body n with
    | (Done a, n') => (Done a, n')
    | (Raised e, n') => handler e n'
    end.

Definition with_store (w : World) (n : Net) : Net :=
  {| store := w;
     ollama := ollama n;
     requests := requests n;
     telegram := telegram n;
     calls := calls n;
     journal := journal n |}.

(** A method of [MessageLogService], run on the store. *)
Definition on_store {A} (f : World -> result A * World) : M A :=
  fun n =>
    let '(r, w) := f (store n) in
    (match r with
     | Ok a => Done a
     | Throw e => Raised (Inner e)
     end, with_store w n).

Definition log (l : service_line) : M unit :=
  fun n =>
    (Done tt,
     {| store := store n;
        ollama := ollama n;
        requests := requests n;
        telegram := telegram n;
        calls := calls n;
        journal := journal n ++ [l] |}).

(** A call of the bot API: it is recorded, and answered by the servers. *)
Definition bot (c : bot_call) : M Z :=
  fun n =>
    let n' :=
      {| store := store n;
         ollama := ollama n;
         requests := requests n;
         telegram := telegram n;
         calls := calls n ++ [c];
         journal := journal n |} in
    match telegram n (length (calls n)) c with
    | Delivered id => (Done id, n')
    | Rejected => (Raised TelegramError, n')
    end.

(** [ollama.generate(request)]: the [response] property of what comes back,
    [None] when it has none. *)
Definition ollama_generate (q : GenerateRequest) : M (option jsstring) :=
  fun n =>
    let n' :=
      {| store := store n;
         ollama := ollama n;
         requests := requests n ++ [q];
         telegram := telegram n;
         calls := calls n;
         journal := journal n |} in
    match ollama n (length (requests n)) q with
    | Generated response => (Done (Some response), n')
    | Garbled => (Done None, n')
    | Refused => (Raised OllamaError, n')
    end.

(* ================================================================== *)
(** ** [AiSummaryService] (ai-summary.service.ts) *)

Section AiSummaryService.
Context {R : Runtime}.

(** [`${v}`]. *)
Definition template_text (v : jsval) : outcome jsstring :=
  match v with
  | VString s => Done s
  | VUndefined => Done (lit "undefined")
  | VNull => Done (lit "null")
  | VBool true => Done (lit "true")
  | VBool false => Done (lit "false")
  | VNumber _ | VArray _ | VObject _ =>
      match ToString_other v with
      | Ok s => Done s
      | Throw e => Raised (Inner e)
      end
  end.

(** The callback of [messages.map]:
    [`[${msg.date.toISOString()}] ${msg.message}`]. *)
Definition log_line_of (msg : StoredMessage) : outcome jsstring :=
  match date msg with
  | InvalidDate => Raised RangeError
  | DateAt t =>
      match template_text (message msg) with
      | Done text => Done (lit "[" ++ DateTime.toISOString t ++ lit "] " ++ text)
      | Raised e => Raised e
      end
  end.

Fixpoint map_outcome {A B} (f : A -> outcome B) (l : list A)
  : outcome (list B) :=
  match l with
  | [] => Done []
  | a :: r =>
      match f a with
      | Done b =>
          match map_outcome f r with
          | Done bs => Done (b :: bs)
          | Raised e => Raised e
          end
      | Raised e => Raised e
      end
  end.

Definition formatLogForAI (messages : list StoredMessage) : outcome jsstring :=
  match map_outcome log_line_of messages with
  | Done lines => Done (join [JSON.newline] lines)
  | Raised e => Raised e
  end.

Definition prompt_head : jsstring :=
  lit "Ensure response in format of {response:response} only. You are an expert psychologist. Analyze the following log and provide a psychological summary."
    ++ [JSON.newline]
    ++ lit "Focus on emotional patterns, potential stressors, and overall mental well-being. Be concise but insightful."
    ++ [JSON.newline; JSON.newline]
    ++ lit "Log:" ++ [JSON.newline].

Definition prompt_tail : jsstring :=
  [JSON.newline; JSON.newline] ++ lit "Analysis:".

Definition request_for (logContent : jsstring) : GenerateRequest :=
  {| model := lit "gemma3:12b";
     prompt := prompt_head ++ logContent ++ prompt_tail;
     format := lit "json";
     stream := false |}.

Definition generatePsychologicalSummary (logContent : jsstring) : M jsstring :=
  try_catch
    (perform response <- ollama_generate (request_for logContent);
     perform _ <- log (NoteWith (lit "Psychological analysis response:")
                                response);
     match response with
     | Some text => ret (trim text)
     | None => raise (Inner TypeError)
     end)
    (fun error =>
       perform _ <- log (Failure (lit "Error generating psychological summary:")
                                 error);
       raise AnalysisFailed).

End AiSummaryService.

(* ================================================================== *)
(** ** [TelegramService] (telegram.service.ts) *)

Module Text.

Definition unit_of (hi lo : nat) : cunit :=
  CU (ascii_of_nat hi) (ascii_of_nat lo).

(** U+1F50D, U+1F9E0, U+26A0 U+FE0F and U+274C. *)
Definition magnifier : jsstring := [unit_of 216 61; unit_of 221 13].
Definition brain : jsstring := [unit_of 216 62; unit_of 221 224].
Definition warning : jsstring := [unit_of 38 160; unit_of 254 15].
Definition cross : jsstring := [unit_of 39 76].

Definition log_is_empty : jsstring := lit "Captain's log is empty.".

Definition on_the_case : jsstring :=
  magnifier ++ lit " Holodeck Dan is on the case, Captain!".

Definition analysis (summary : jsstring) : jsstring :=
  brain ++ lit " *Psychological Analysis*"
    ++ [JSON.newline; JSON.newline] ++ summary.

Definition raw_log (logContent : jsstring) : jsstring :=
  warning ++ lit " Couldn't generate analysis. Here's the raw log:"
    ++ [JSON.newline; JSON.newline] ++ logContent.

Definition try_again : jsstring :=
  cross ++ lit " Error processing your request. Please try again later.".

Definition received : jsstring := lit "Message received, captain!".

Definition command : jsstring := lit "summarize captain's log".

End Text.

Section TelegramService.
Context {P : Platform} {R : Runtime}.
Variable cryptoService : CryptoService.

Definition summarizeCaptainLog (chatId : Z) : M unit :=
  try_catch
    (perform _ <- bot (SendChatAction chatId (lit "typing"));
     perform messages <- on_store (readMessages cryptoService);
     if length messages =? 0 then
       perform _ <- bot (SendMessage chatId Text.log_is_empty false);
       ret tt
     else
       perform logContent <- (fun n => (formatLogForAI messages, n));
       perform processingMessage <-
         bot (SendMessage chatId Text.on_the_case true);
       try_catch
         (perform summary <- generatePsychologicalSummary logContent;
          perform _ <- bot (EditMessageText (Text.analysis summary) chatId
                                            processingMessage true);
          ret tt)
         (fun error =>
            perform _ <- log (Failure (lit "Error in psychological analysis:")
                                      error);
            perform _ <- bot (EditMessageText (Text.raw_log logContent) chatId
                                              processingMessage true);
            ret tt))
    (fun error =>
       perform _ <- log (Failure (lit "Error summarizing log:") error);
       perform _ <- bot (SendMessage chatId Text.try_again true);
       ret tt).

(** [msg.text?.toLowerCase().includes(`summarize captain's log`)]. *)
Definition asks_for_summary (text : option jsstring) : bool :=
  match text with
  | Some t => includes Text.command (toLowerCase t)
  | None => false
  end.

(** The callback of [bot.on('message', ...)]. *)
Definition on_message (msg : Incoming) : M unit :=
  perform _ <- log (NoteMessage (lit "Received a message") msg);
  let chatId := chat_id msg in
  let messageText := text_or_default (msg_text (content msg)) in
  perform _ <- log (Note (lit "Received message: " ++ messageText
                            ++ lit " from chat ID: " ++ number_text chatId));
  if asks_for_summary (msg_text (content msg)) then
    summarizeCaptainLog chatId
  else
    perform _ <- on_store (appendMessage cryptoService (content msg));
    perform _ <- bot (SendMessage chatId Text.received false);
    ret tt.

End TelegramService.

(* ================================================================== *)
(** ** A run time and servers to run the model on *)

Definition toy_runtime : Runtime :=
  {| ToString_other := fun _ => Ok (lit "[object Object]");
     lower_other := fun s i =>
                      match nth_error s i with
                      | Some c => [c]
                      | None => []
                      end |}.

Module Scene.

(** Servers that deliver every call, the message sent by the n-th call
    getting the identifier n, and a model that answers every request with
    [reply]. *)
Definition net (w : World) (reply : ollama_reply) : Net :=
  {| store := w;
     ollama := fun _ _ => reply;
     requests := [];
     telegram := fun i _ => Delivered (Z.of_nat i);
     calls := [];
     journal := [] |}.

(** The same, except that the servers reject the call number [k]. *)
Definition net_rejecting (k : nat) (w : World) (reply : ollama_reply) : Net :=
  {| store := w;
     ollama := fun _ _ => reply;
     requests := [];
     telegram := fun i _ => if i =? k then Rejected else Delivered (Z.of_nat i);
     calls := [];
     journal := [] |}.

(** The world after [Sample.hello] has been appended to an absent file. *)
Definition one_entry : World :=
  snd (@appendMessage toy_platform Sample.service Sample.hello
         (Sample.world None)).


Definition hello_line : jsstring := lit "[2023-11-14T22:13:20.000Z] hello".

Definition please_summarize : Incoming :=
  {| chat_id := 7;
     content := {| msg_date := 1700000120;
                   msg_text := Some (lit "Please SUMMARIZE Captain's Log") |} |}.

Definition hello : Incoming :=
  {| chat_id := 7; content := Sample.hello |}.

Definition photo : Incoming :=
  {| chat_id := 7;
     content := {| msg_date := 1700000000; msg_text := None |} |}.

End Scene.

(* ================================================================== *)
(** ** Vocabulary of the statements about the services *)

(** The chat a call is addressed to. *)
Definition call_chat (c : bot_call) : Z :=
  match c with
  | SendChatAction chat _ => chat
  | SendMessage chat _ _ => chat
  | EditMessageText _ chat _ _ => chat
  end.

(** The text of a string, a boolean, [null] or [undefined] in a template
    literal, and the line of the formatted log for an entry that has a valid
    date and such a text. *)
Definition atom_template (v : jsval) : jsstring :=
  match v with
  | VString s => s
  | VUndefined => lit "undefined"
  | VNull => lit "null"
  | VBool true => lit "true"
  | VBool false => lit "false"
  | VNumber _ | VArray _ | VObject _ => []
  end.

Definition entry_line (e : StoredMessage) : jsstring :=
  match date e with
  | DateAt t => lit "[" ++ DateTime.toISOString t ++ lit "] "
                  ++ atom_template (message e)
  | InvalidDate => []
  end.

(** The state in which the handler starts its work, the two lines of the
    logger written. *)
Definition noted (msg : Incoming) (n : Net) : Net :=
  snd (log (Note (lit "Received message: "
                    ++ text_or_default (msg_text (content msg))
                    ++ lit " from chat ID: " ++ number_text (chat_id msg)))
           (snd (log (NoteMessage (lit "Received a message") msg) n))).

(** The servers never reject. *)
Definition telegram_up (n : Net) : Prop :=
  forall i c, telegram n i c <> Rejected.


(** The entries of a log have valid dates. *)
Definition dated (l : list StoredMessage) : bool := forallb valid_date l.

(** The entries of [ms], as the store keeps them. *)
Definition stored_all (ms : list Message) : list StoredMessage :=
  map stored_of ms.

(** [appendMessage] for each message of a list, in order. *)
Fixpoint append_all {P : Platform} (cryptoService : CryptoService)
         (ms : list Message) (w : World) : World :=
  match ms with
  | [] => w
  | m :: r => append_all cryptoService r (snd (appendMessage cryptoService m w))
  end.

(* ================================================================== *)
(** * Properties *)

Module HexFacts.
Import Hex.

Lemma unhex_digit (n : nibble) : unhex (CU zero (digit n)) = Some n.
Proof. destruct n as [[[[] []] []] []]; reflexivity. Qed.

Lemma join_high_low (b : octet) : join (high b) (low b) = b.
Proof. destruct b; reflexivity. Qed.

Lemma decode_encode_app (bs : list octet) :
  decode (encode bs) = bs.
Proof.
  induction bs as [|b bs IH]; [reflexivity|].
  cbn [encode flat_map app decode].
  rewrite !unhex_digit, join_high_low. f_equal. exact IH.
Qed.

Lemma encode_length (bs : list octet) : length (encode bs) = 2 * length bs.
Proof. induction bs as [|b bs IH]; cbn [encode flat_map app length] in *; [reflexivity|]. unfold encode in IH. lia. Qed.

Lemma encode_app (a b : list octet) : encode (a ++ b) = encode a ++ encode b.
Proof. unfold encode. apply flat_map_app. Qed.

Lemma digit_is_lower (n : nibble) : is_lower_digit (CU zero (digit n)) = true.
Proof. destruct n as [[[[] []] []] []]; reflexivity. Qed.

Lemma encode_lower (bs : list octet) : forallb is_lower_digit (encode bs) = true.
Proof.
  induction bs as [|b bs IH]; [reflexivity|].
  cbn [encode flat_map app forallb]. rewrite !digit_is_lower. exact IH.
Qed.

Lemma lower_digit_not_colon (c : cunit) :
  is_lower_digit c = true -> cunit_eqb c colon = false.
Proof.
  unfold is_lower_digit. destruct (unhex c) as [n|] eqn:E; [|discriminate].
  intros H. destruct c as [h l]. unfold cunit_eqb in *. cbn in *.
  apply andb_true_iff in H as [H1 H2].
  apply Ascii.eqb_eq in H1, H2. subst.
  destruct n as [[[[] []] []] []]; reflexivity.
Qed.

End HexFacts.

Module SplitFacts.

Lemma split_nonempty (sep : cunit) (s : jsstring) : split sep s <> [].
Proof.
  destruct s as [|c r]; cbn; [discriminate|].
  destruct (cunit_eqb c sep); [discriminate|].
  destruct (split sep r); discriminate.
Qed.

Lemma split_without (sep : cunit) (s : jsstring) :
  forallb (fun c => negb (cunit_eqb c sep)) s = true -> split sep s = [s].
Proof.
  induction s as [|c r IH]; cbn; [reflexivity|].
  intros H. apply andb_true_iff in H as [Hc Hr].
  apply negb_true_iff in Hc. rewrite Hc, (IH Hr). reflexivity.
Qed.

Lemma split_at_first (sep : cunit) (a b : jsstring) :
  forallb (fun c => negb (cunit_eqb c sep)) a = true ->
  split sep (a ++ sep :: b) = a :: split sep b.
Proof.
  induction a as [|c r IH]; cbn [app split forallb].
  - intros _. destruct sep as [h l]. unfold cunit_eqb. cbn.
    rewrite !Ascii.eqb_refl. reflexivity.
  - intros H. apply andb_true_iff in H as [Hc Hr].
    apply negb_true_iff in Hc. rewrite Hc, (IH Hr). reflexivity.
Qed.

End SplitFacts.

Module Utf8Facts.
Import Utf8.

Lemma plane_roundtrip (v : bool * bool * bool * bool) :
  plane_offset (plane_of v) = v.
Proof. destruct v as [[[[] []] []] []]; reflexivity. Qed.

Lemma decode_bmp (c : cunit) (rest : list octet) :
  is_high_surrogate c = false ->
  is_low_surrogate c = false ->
  decode_from [] (encode_bmp c ++ rest) = c :: decode_from [] rest.
Proof.
  destruct c as [[h0 h1 h2 h3 h4 h5 h6 h7] [l0 l1 l2 l3 l4 l5 l6 l7]].
  unfold is_high_surrogate, is_low_surrogate. cbn [cu_hi].
  destruct h7, h6, h5, h4, h3, h2; intros H1 H2; try discriminate;
    destruct h1, h0, l7, l6; reflexivity.
Qed.

Lemma decode_pair (h l : cunit) (rest : list octet) :
  is_high_surrogate h = true ->
  is_low_surrogate l = true ->
  decode_from [] (encode_pair h l ++ rest) = h :: l :: decode_from [] rest.
Proof.
  destruct h as [[a0 a1 a2 a3 a4 a5 a6 a7] [b0 b1 b2 b3 b4 b5 b6 b7]].
  destruct l as [[c0 c1 c2 c3 c4 c5 c6 c7] [d0 d1 d2 d3 d4 d5 d6 d7]].
  unfold is_high_surrogate, is_low_surrogate. cbn [cu_hi].
  destruct a2, a3, a4, a5, a6, a7; intros H1; try discriminate.
  destruct c2, c3, c4, c5, c6, c7; intros H2; try discriminate.
  destruct a1, a0, b7, b6; reflexivity.
Qed.

Lemma decode_replacement (rest : list octet) :
  decode_from [] (replacement_bytes ++ rest)
  = replacement_char :: decode_from [] rest.
Proof. reflexivity. Qed.

Lemma decode_encode_bounded (n : nat) :
  forall s, length s <= n -> decode (encode s) = toWellFormed s.
Proof.
  unfold decode.
  induction n as [|n IH]; intros [|c r] Hlen; try reflexivity.
  - cbn in Hlen. lia.
  - cbn [length] in Hlen. cbn [encode toWellFormed].
    destruct (is_high_surrogate c) eqn:Hh.
    + destruct r as [|d r']; [reflexivity|].
      cbn [length] in Hlen.
      destruct (is_low_surrogate d) eqn:Hl.
      * rewrite decode_pair by assumption. rewrite IH by lia. reflexivity.
      * rewrite decode_replacement. rewrite IH by (cbn; lia). reflexivity.
    + destruct (is_low_surrogate c) eqn:Hl.
      * rewrite decode_replacement. rewrite IH by lia. reflexivity.
      * rewrite decode_bmp by assumption. rewrite IH by lia. reflexivity.
Qed.

(** Decoding what was encoded gives the string back, lone surrogates
    replaced. *)
Lemma decode_encode (s : jsstring) : decode (encode s) = toWellFormed s.
Proof. apply (decode_encode_bounded (length s)). lia. Qed.

Lemma toWellFormed_bounded (n : nat) :
  forall s, length s <= n -> isWellFormed s = true -> toWellFormed s = s.
Proof.
  induction n as [|n IH]; intros [|c r] Hlen; try reflexivity.
  - cbn in Hlen. lia.
  - cbn [length] in Hlen. cbn [isWellFormed toWellFormed].
    destruct (is_high_surrogate c).
    + destruct r as [|d r']; [discriminate|]. cbn [length] in Hlen.
      destruct (is_low_surrogate d); [|discriminate].
      cbn [andb]. intros H. rewrite IH by (assumption || lia). reflexivity.
    + destruct (is_low_surrogate c); [discriminate|].
      cbn [negb andb]. intros H. rewrite IH by (assumption || lia). reflexivity.
Qed.

Lemma toWellFormed_id (s : jsstring) :
  isWellFormed s = true -> toWellFormed s = s.
Proof. apply (toWellFormed_bounded (length s)). lia. Qed.

Lemma toWellFormed_fixed_bounded (n : nat) :
  forall s, length s <= n -> toWellFormed s = s -> isWellFormed s = true.
Proof.
  induction n as [|n IH]; intros [|c r] Hlen; try reflexivity.
  - cbn in Hlen. lia.
  - cbn [length] in Hlen. cbn [isWellFormed toWellFormed].
    destruct (is_high_surrogate c) eqn:Hh.
    + destruct r as [|d r'].
      * intros H. injection H as <-. discriminate Hh.
      * cbn [length] in Hlen. destruct (is_low_surrogate d).
        -- intros H. injection H as H. cbn [andb]. apply IH; [lia | exact H].
        -- intros H. injection H as <- _. discriminate Hh.
    + destruct (is_low_surrogate c) eqn:Hl.
      * intros H. injection H as <- _. discriminate Hl.
      * intros H. injection H as H. cbn [negb andb].
        apply IH; [lia | exact H].
Qed.

Lemma toWellFormed_fixed (s : jsstring) :
  toWellFormed s = s <-> isWellFormed s = true.
Proof.
  split; [|apply toWellFormed_id].
  apply (toWellFormed_fixed_bounded (length s)). lia.
Qed.

Lemma decode_encode_wf (s : jsstring) :
  isWellFormed s = true -> decode (encode s) = s.
Proof. intros H. rewrite decode_encode. apply toWellFormed_id, H. Qed.

Lemma no_surrogate_wf (s : jsstring) :
  forallb not_surrogate s = true -> isWellFormed s = true.
Proof.
  induction s as [|c r IH]; [reflexivity|].
  cbn [forallb isWellFormed]. unfold not_surrogate at 1.
  intros H. apply andb_true_iff in H as [Hc Hr].
  apply andb_true_iff in Hc as [H1 H2].
  apply negb_true_iff in H1. rewrite H1, H2. apply IH, Hr.
Qed.

(** How well-formed strings compose. *)
Lemma wf_cons_plain (c : cunit) (s : jsstring) :
  not_surrogate c = true -> isWellFormed (c :: s) = isWellFormed s.
Proof.
  unfold not_surrogate. intros H. apply andb_true_iff in H as [H1 H2].
  apply negb_true_iff in H1. cbn [isWellFormed]. rewrite H1, H2. reflexivity.
Qed.

Lemma wf_app_plain (a s : jsstring) :
  forallb not_surrogate a = true -> isWellFormed (a ++ s) = isWellFormed s.
Proof.
  induction a as [|c r IH]; [reflexivity|]. cbn [forallb app].
  intros H. apply andb_true_iff in H as [Hc Hr].
  rewrite wf_cons_plain by assumption. apply IH, Hr.
Qed.

End Utf8Facts.

Module CbcFacts.
Import Cbc.

Lemma xor_octet_cancel (a b : octet) : xor_octet (xor_octet a b) b = a.
Proof.
  destruct a, b. cbn. f_equal; apply xorb_involutive_r || (rewrite xorb_assoc, xorb_nilpotent; apply xorb_false_r).
Qed.

Lemma xor_bytes_length (a b : list octet) :
  length a = length b -> length (xor_bytes a b) = length a.
Proof.
  revert b. induction a as [|x a IH]; intros [|y b] H; cbn in *; try lia.
  rewrite IH; lia.
Qed.

Lemma xor_bytes_cancel (a b : list octet) :
  length a = length b -> xor_bytes (xor_bytes a b) b = a.
Proof.
  revert b. induction a as [|x a IH]; intros [|y b] H; cbn in *; try lia.
  - reflexivity.
  - rewrite xor_octet_cancel, IH by lia. reflexivity.
Qed.

(** *** Blocks *)

Lemma blocks_exact (n : nat) :
  forall bs, length bs = n * block_size ->
    all_blocks (blocks n bs) /\ concat (blocks n bs) = bs
    /\ length (blocks n bs) = n.
Proof.
  induction n as [|n IH]; intros bs H.
  - cbn in *. destruct bs; [|discriminate]. repeat split. constructor.
  - cbn [blocks concat length].
    assert (Hs : length (skipn block_size bs) = n * block_size)
      by (rewrite length_skipn; lia).
    destruct (IH _ Hs) as (Ha & Hc & Hl).
    repeat split.
    + constructor; [|exact Ha]. rewrite length_firstn. lia.
    + rewrite Hc. apply firstn_skipn.
    + now rewrite Hl.
Qed.

Lemma blocks_concat (cs : list (list octet)) :
  all_blocks cs -> blocks (length cs) (concat cs) = cs.
Proof.
  induction 1 as [|c cs Hc _ IH]; [reflexivity|].
  cbn [length blocks concat].
  rewrite firstn_app, skipn_app, Hc, Nat.sub_diag.
  rewrite firstn_all2, skipn_all2 by lia.
  cbn [firstn skipn app]. rewrite app_nil_r, IH. reflexivity.
Qed.

Lemma concat_blocks_length (cs : list (list octet)) :
  all_blocks cs -> length (concat cs) = length cs * block_size.
Proof.
  induction 1 as [|c cs Hc _ IH]; [reflexivity|].
  cbn [concat length]. rewrite length_app, Hc, IH. lia.
Qed.

(** *** Padding *)

Lemma pad_count (bs : list octet) :
  let n := block_size - (length bs mod block_size) in 1 <= n <= 16.
Proof.
  cbn zeta. unfold block_size.
  pose proof (Nat.mod_upper_bound (length bs) 16). lia.
Qed.

Lemma pad_length (bs : list octet) :
  length (pad bs) = (length bs / block_size + 1) * block_size.
Proof.
  unfold pad. rewrite length_app, repeat_length. unfold block_size.
  pose proof (Nat.div_mod_eq (length bs) 16).
  pose proof (Nat.mod_upper_bound (length bs) 16). lia.
Qed.

Lemma last_repeat (x : octet) (n : nat) (bs : list octet) :
  1 <= n -> last (bs ++ repeat x n) zero = x.
Proof.
  intros H. destruct n as [|n]; [lia|].
  replace (S n) with (n + 1) by lia.
  rewrite repeat_app, app_assoc. cbn [repeat]. apply last_last.
Qed.

Lemma forallb_repeat (x : octet) (n : nat) :
  forallb (Ascii.eqb x) (repeat x n) = true.
Proof.
  induction n as [|n IH]; [reflexivity|]. cbn. now rewrite Ascii.eqb_refl.
Qed.

Lemma unpad_pad (bs : list octet) : unpad (pad bs) = Ok bs.
Proof.
  pose proof (pad_count bs) as Hn. cbn zeta in Hn.
  unfold unpad, pad.
  set (n := block_size - length bs mod block_size) in *.
  rewrite last_repeat by lia.
  rewrite nat_ascii_embedding by lia.
  replace (n =? 0) with false by (symmetry; apply Nat.eqb_neq; lia).
  replace (block_size <? n) with false
    by (symmetry; apply Nat.ltb_ge; unfold block_size; lia).
  cbn [orb].
  rewrite length_app, repeat_length.
  replace (length bs + n - n) with (length bs + 0) by lia.
  rewrite skipn_app, firstn_app, Nat.add_0_r, Nat.sub_diag.
  rewrite skipn_all, firstn_all. cbn [skipn firstn app].
  rewrite forallb_repeat, app_nil_r. reflexivity.
Qed.

Section WithPlatform.
Context {P : Platform}.

Lemma encrypt_blocks_wf (key : list octet) (ps : list (list octet)) :
  length key = 32 -> all_blocks ps ->
  forall prev, length prev = block_size ->
    all_blocks (encrypt_blocks key prev ps)
    /\ length (encrypt_blocks key prev ps) = length ps.
Proof.
  intros Hk. induction 1 as [|p ps Hp _ IH]; intros prev Hprev.
  - split; [constructor | reflexivity].
  - cbn [encrypt_blocks length].
    assert (Hc : length (aes256_encrypt_block key (xor_bytes p prev)) = block_size).
    { apply aes256_encrypt_length; [exact Hk|].
      rewrite xor_bytes_length; [exact Hp | congruence]. }
    destruct (IH _ Hc) as [Ha Hl].
    split; [constructor; assumption | now rewrite Hl].
Qed.

Lemma decrypt_encrypt_blocks (key : list octet) (ps : list (list octet)) :
  length key = 32 -> all_blocks ps ->
  forall prev, length prev = block_size ->
    decrypt_blocks key prev (encrypt_blocks key prev ps) = ps.
Proof.
  intros Hk. induction 1 as [|p ps Hp _ IH]; intros prev Hprev.
  - reflexivity.
  - cbn [encrypt_blocks decrypt_blocks].
    assert (Hx : length (xor_bytes p prev) = 16).
    { rewrite xor_bytes_length; [exact Hp | congruence]. }
    rewrite aes256_decrypt_encrypt by assumption.
    rewrite xor_bytes_cancel by congruence.
    rewrite IH; [reflexivity|].
    apply aes256_encrypt_length; assumption.
Qed.

Lemma check_params_ok (key iv : list octet) :
  length key = 32 -> length iv = 16 -> check_params key iv = Ok tt.
Proof.
  intros Hk Hi. unfold check_params, block_size. rewrite Hk, Hi. reflexivity.
Qed.

(** What [encrypt] returns, and its size. *)
Lemma encrypt_ok (key iv data : list octet) :
  length key = 32 -> length iv = 16 ->
  exists ct,
    encrypt key iv data = Ok ct
    /\ length ct = (length data / 16 + 1) * 16
    /\ decrypt key iv ct = Ok data.
Proof.
  intros Hk Hi. unfold encrypt, decrypt.
  rewrite check_params_ok by assumption. cbn [bind].
  eexists. split; [reflexivity|].
  pose proof (pad_length data) as Hpl.
  set (padded := pad data) in *.
  set (n := length data / block_size + 1) in *.
  assert (Hdiv : length padded / block_size = n).
  { rewrite Hpl. apply Nat.div_mul. discriminate. }
  rewrite Hdiv.
  destruct (blocks_exact n padded Hpl) as (Hb & Hc & Hl).
  destruct (encrypt_blocks_wf key _ Hk Hb iv Hi) as [He Hel].
  set (cs := encrypt_blocks key iv (blocks n padded)) in *.
  assert (Hlen : length (concat cs) = n * block_size).
  { rewrite concat_blocks_length by exact He. now rewrite Hel, Hl. }
  split; [exact Hlen|].
  rewrite Hlen.
  replace (n * block_size =? 0) with false
    by (symmetry; apply Nat.eqb_neq; unfold n, block_size; lia).
  rewrite Nat.Div0.mod_mul, Nat.div_mul by discriminate.
  cbn [Nat.eqb negb orb].
  replace n with (length cs) at 1 by (now rewrite Hel, Hl).
  rewrite blocks_concat by exact He.
  unfold cs. rewrite decrypt_encrypt_blocks by assumption.
  rewrite Hc. apply unpad_pad.
Qed.

End WithPlatform.
End CbcFacts.

Module CryptoServiceFacts.
Import HexFacts SplitFacts Utf8Facts CbcFacts.



Lemma randomBytes_length (n : nat) (g : Entropy) :
  length (fst (randomBytes n g)) = n.
Proof. unfold randomBytes. cbn [fst]. now rewrite length_map, length_seq. Qed.

Section WithPlatform.
Context {P : Platform}.
Variable this : CryptoService.

Lemma getKey_length : length (getKey this) = 32.
Proof. unfold getKey. apply scryptSync_length. Qed.

(** [decrypt] on a blob in the grammar [encrypt] writes. *)
Lemma decrypt_framed (iv ct : list octet) :
  length iv = 16 -> ct <> [] ->
  decrypt this (Hex.encode iv ++ colon :: Hex.encode ct)
  = bind (Cbc.decrypt (getKey this) iv ct) (fun d => Ok (Utf8.decode d)).
Proof.
  intros Hiv Hct. unfold decrypt.
  assert (Hnc : forall bs,
             forallb (fun c => negb (cunit_eqb c colon)) (Hex.encode bs) = true).
  { intros bs. pose proof (encode_lower bs) as H.
    rewrite forallb_forall in *. intros c Hc.
    now rewrite (lower_digit_not_colon c (H c Hc)). }
  rewrite split_at_first by apply Hnc.
  rewrite split_without by apply Hnc.
  cbn [nth_error].
  assert (Hl : length (Hex.encode iv) = 32) by (rewrite encode_length; lia).
  rewrite Hl. cbn [IV_LENGTH Nat.mul Nat.add Nat.eqb negb orb].
  destruct (Hex.encode iv) as [|c0 r0] eqn:E0; [discriminate|].
  destruct ct as [|b bs]; [congruence|].
  destruct (Hex.encode (b :: bs)) as [|c1 r1] eqn:E1; [discriminate|].
  cbn [falsy orb]. rewrite <- E0, <- E1, !decode_encode_app. reflexivity.
Qed.

(** The blob [encrypt] builds, its ciphertext and what [decrypt] makes of
    it. *)
Lemma encrypt_with_spec (iv : list octet) (text : jsstring) :
  length iv = 16 ->
  exists ct,
    encrypt_with this iv text
    = Ok (Hex.encode iv ++ colon :: Hex.encode ct)
    /\ length ct = (length (Utf8.encode text) / 16 + 1) * 16
    /\ decrypt this (Hex.encode iv ++ colon :: Hex.encode ct)
       = Ok (toWellFormed text).
Proof.
  intros Hiv.
  destruct (encrypt_ok (getKey this) iv (Utf8.encode text) getKey_length Hiv)
    as (ct & Henc & Hlen & Hdec).
  exists ct. unfold encrypt_with. rewrite Henc. cbn [bind].
  split; [reflexivity|]. split; [exact Hlen|].
  rewrite decrypt_framed; [|exact Hiv|].
  - rewrite Hdec. cbn [bind]. now rewrite decode_encode.
  - intros ->. cbn in Hlen. lia.
Qed.

End WithPlatform.
End CryptoServiceFacts.

Module DateFacts.
Import DateTime.
#[local] Open Scope Z_scope.

(** *** Calendar arithmetic *)

Lemma year_bounds (day : Z) :
  DayFromYear (YearFromDay day) <= day < DayFromYear (YearFromDay day + 1).
Proof.
  unfold YearFromDay.
  set (y := 1970 + 400 * day / 146097).
  assert (Hy : DayFromYear (y - 1) <= day < DayFromYear (y + 2)).
  { unfold DayFromYear, y. Z.div_mod_to_equations; lia. }
  destruct (DayFromYear (y + 1) <=? day) eqn:E1.
  - apply Z.leb_le in E1. replace (y + 1 + 1) with (y + 2) by lia. lia.
  - apply Z.leb_gt in E1.
    destruct (DayFromYear y <=? day) eqn:E2.
    + apply Z.leb_le in E2. lia.
    + apply Z.leb_gt in E2. replace (y - 1 + 1) with y by lia. lia.
Qed.

Lemma year_range (day : Z) :
  -100000000 <= day <= 100000000 ->
  -271822 <= YearFromDay day <= 275761.
Proof.
  intros H. unfold YearFromDay.
  set (y := 1970 + 400 * day / 146097).
  assert (-271821 <= y <= 275760) by (unfold y; Z.div_mod_to_equations; lia).
  destruct (_ <=? _); [lia|]. destruct (_ <=? _); lia.
Qed.

Lemma year_length (y : Z) :
  DayFromYear (y + 1) - DayFromYear y = DaysInYear y.
Proof.
  unfold DaysInYear, InLeapYear, DayFromYear.
  destruct (y mod 4 =? 0) eqn:E4; destruct (y mod 100 =? 0) eqn:E100;
    destruct (y mod 400 =? 0) eqn:E400; cbn [negb andb orb];
    rewrite ?Z.eqb_eq, ?Z.eqb_neq in *;
    Z.div_mod_to_equations; lia.
Qed.

Lemma month_bounds (leap : bool) (d : Z) :
  0 <= d < (if leap then 366 else 365) ->
  let m := MonthFromDay leap d in
  0 <= m <= 11
  /\ month_start leap m <= d < month_start leap (m + 1).
Proof.
  intros H. cbn zeta. unfold MonthFromDay.
  repeat match goal with
         | |- context [?a <? ?b] =>
             let E := fresh "E" in
             destruct (a <? b) eqn:E;
             [apply Z.ltb_lt in E | apply Z.ltb_ge in E]
         end;
    destruct leap; cbn in *; lia.
Qed.

Lemma days_in_month_le (leap : bool) (m : Z) :
  0 <= m <= 11 -> 28 <= DaysInMonth leap m <= 31.
Proof.
  intros H. unfold DaysInMonth.
  assert (m = 0 \/ m = 1 \/ m = 2 \/ m = 3 \/ m = 4 \/ m = 5 \/ m = 6
          \/ m = 7 \/ m = 8 \/ m = 9 \/ m = 10 \/ m = 11) as Hm by lia.
  destruct leap; repeat (destruct Hm as [-> | Hm]); try subst m; cbn; lia.
Qed.

Lemma time_fields (tm : Z) :
  0 <= tm < msPerDay ->
  let h := tm / 3600000 in
  let mi := (tm / 60000) mod 60 in
  let s := (tm / 1000) mod 60 in
  let ms := tm mod 1000 in
  0 <= h <= 23 /\ 0 <= mi <= 59 /\ 0 <= s <= 59 /\ 0 <= ms <= 999
  /\ MakeTime h mi s ms = tm.
Proof.
  unfold msPerDay, MakeTime. intros H. cbn zeta.
  Z.div_mod_to_equations. lia.
Qed.

(** *** Decimal fields *)

Lemma cunit_eqb_refl (c : cunit) : cunit_eqb c c = true.
Proof. unfold cunit_eqb. now rewrite !Ascii.eqb_refl. Qed.

Lemma expect_head (a : ascii) (rest : jsstring) :
  expect a (CU zero a :: rest) = Some rest.
Proof. unfold expect. now rewrite cunit_eqb_refl. Qed.

Lemma digit_roundtrip (d : Z) :
  0 <= d <= 9 -> digit_value (digit_char d) = Some d.
Proof.
  intros H.
  assert (d = 0 \/ d = 1 \/ d = 2 \/ d = 3 \/ d = 4 \/ d = 5 \/ d = 6
          \/ d = 7 \/ d = 8 \/ d = 9) as Hd by lia.
  repeat (destruct Hd as [-> | Hd]); try subst d; reflexivity.
Qed.

Lemma digit_char_cases (d : Z) :
  exists k, 0 <= k <= 9 /\ digit_char d = digit_char k.
Proof.
  destruct (Z_le_gt_dec 0 d) as [H0|H0].
  - destruct (Z_le_gt_dec d 9) as [H9|H9].
    + exists d. split; [lia | reflexivity].
    + exists 0. split; [lia|]. unfold digit_char.
      destruct d as [|p|p]; try lia.
      do 4 (try destruct p as [p|p|]); try reflexivity; lia.
  - exists 0. split; [lia|]. destruct d; try lia. reflexivity.
Qed.

Lemma take_digits_app (w : nat) :
  forall (k : nat) (n acc : Z) (rest : jsstring),
    0 <= n < 10 ^ Z.of_nat w ->
    take_digits (w + k) acc (digits w n ++ rest)
    = take_digits k (acc * 10 ^ Z.of_nat w + n) rest.
Proof.
  induction w as [|w IH]; intros k n acc rest Hn.
  - cbn in *. f_equal. lia.
  - cbn [digits]. rewrite <- app_assoc. cbn [app].
    rewrite Nat2Z.inj_succ, Z.pow_succ_r in Hn by lia.
    replace (S w + k)%nat with (w + S k)%nat by lia.
    rewrite IH by (Z.div_mod_to_equations; lia).
    cbn [take_digits].
    rewrite digit_roundtrip by (Z.div_mod_to_equations; lia).
    f_equal. rewrite Nat2Z.inj_succ, Z.pow_succ_r by lia.
    Z.div_mod_to_equations; lia.
Qed.

Lemma take_digits_exact (w : nat) (n : Z) (rest : jsstring) :
  0 <= n < 10 ^ Z.of_nat w ->
  take_digits w 0 (digits w n ++ rest) = Some (n, rest).
Proof.
  intros H. replace w with (w + 0)%nat at 1 by lia.
  rewrite take_digits_app by exact H. cbn [take_digits]. f_equal.
Qed.

Lemma digits_head (w : nat) (n : Z) :
  exists d r, 0 <= d <= 9 /\ digits (S w) n = digit_char d :: r.
Proof.
  revert n. induction w as [|w IH]; intros n.
  - cbn. destruct (digit_char_cases (n mod 10)) as (k & Hk & E).
    exists k, []. now rewrite E.
  - destruct (IH (n / 10)) as (d & r & Hd & E).
    change (digits (S (S w)) n)
      with (digits (S w) (n / 10) ++ [digit_char (n mod 10)]).
    rewrite E. exists d, (r ++ [digit_char (n mod 10)]). now split.
Qed.

Lemma take_year_roundtrip (y : Z) (rest : jsstring) :
  -999999 <= y <= 999999 ->
  take_year (year_string y ++ rest) = Some (y, rest).
Proof.
  intros H. unfold year_string.
  destruct ((0 <=? y) && (y <=? 9999)) eqn:E.
  - apply andb_true_iff in E as [E1 E2].
    apply Z.leb_le in E1, E2.
    pose proof (take_digits_exact 4 y rest ltac:(cbn; lia)) as Ht.
    destruct (digits_head 3 y) as (d & r & Hd & Ed).
    rewrite Ed in *. cbn [app] in *. unfold take_year.
    assert (d = 0 \/ d = 1 \/ d = 2 \/ d = 3 \/ d = 4 \/ d = 5 \/ d = 6
            \/ d = 7 \/ d = 8 \/ d = 9) as Hc by lia.
    repeat (destruct Hc as [-> | Hc]); try subst d; exact Ht.
  - destruct (y <? 0) eqn:Es; cbn [lit list_ascii_of_string map app take_year].
    + apply Z.ltb_lt in Es.
      change (cunit_eqb (CU zero "-"%char) (CU zero "+"%char)) with false.
      rewrite cunit_eqb_refl.
      cbn match. rewrite take_digits_exact by (cbn; lia).
      cbn [opt_bind]. replace (Z.abs y =? 0) with false
        by (symmetry; apply Z.eqb_neq; lia).
      f_equal. f_equal. lia.
    + apply Z.ltb_ge in Es.
      rewrite cunit_eqb_refl.
      cbn match. rewrite take_digits_exact by (cbn; lia).
      f_equal. f_equal. lia.
Qed.

(** *** [Date.parse] inverts [toISOString] *)

Ltac next_sep :=
  cbn [opt_bind lit list_ascii_of_string map app]; rewrite expect_head.
Ltac next_field tac :=
  cbn [opt_bind]; rewrite take_digits_exact by tac.

Lemma parse_iso_toISOString (t : Z) :
  Z.abs t <= maxTime -> parse_iso (toISOString t) = Some t.
Proof.
  intros Ht. unfold toISOString.
  set (day := Day t). set (tm := TimeWithinDay t).
  set (y := YearFromDay day). set (leap := InLeapYear y).
  set (dwy := day - DayFromYear y).
  set (m := MonthFromDay leap dwy).
  set (d := dwy - month_start leap m + 1).
  assert (Hday : -100000000 <= day <= 100000000).
  { unfold day, Day, msPerDay, maxTime in *. Z.div_mod_to_equations; lia. }
  assert (Htm : 0 <= tm < msPerDay).
  { unfold tm, TimeWithinDay, msPerDay. Z.div_mod_to_equations; lia. }
  assert (Hsplit : t = day * msPerDay + tm).
  { unfold day, tm, Day, TimeWithinDay, msPerDay. Z.div_mod_to_equations; lia. }
  pose proof (year_bounds day) as Hyb. fold y in Hyb.
  pose proof (year_range day Hday) as Hyr. fold y in Hyr.
  pose proof (year_length y) as Hyl.
  assert (Hdwy : 0 <= dwy < (if leap then 366 else 365)).
  { unfold dwy, leap. unfold DaysInYear in Hyl. lia. }
  destruct (month_bounds leap dwy Hdwy) as [Hm Hms]. fold m in Hm, Hms.
  pose proof (days_in_month_le leap m Hm) as Hdim.
  destruct (time_fields tm Htm) as (Hh & Hmi & Hs & Hmsf & Hmk).
  unfold parse_iso.
  rewrite take_year_roundtrip by lia.
  next_sep. next_field ltac:(cbn; lia).
  next_sep. next_field ltac:(unfold d, DaysInMonth in *; cbn; lia).
  next_sep. next_field ltac:(cbn; lia).
  next_sep. next_field ltac:(cbn; lia).
  next_sep. next_field ltac:(cbn; lia).
  next_sep.
  pose proof (take_digits_exact 3 (tm mod 1000) [CU zero "Z"%char]
                ltac:(cbn; lia)) as H3.
  cbn [opt_bind app lit list_ascii_of_string map] in H3 |- *. rewrite H3.
  cbn [opt_bind]. rewrite expect_head. cbn [opt_bind].
  replace (m + 1 - 1) with m by lia. fold leap.
  replace ((1 <=? m + 1) && (m + 1 <=? 12) && (1 <=? d)
           && (d <=? DaysInMonth leap m) && (tm / 3600000 <=? 23)
           && ((tm / 60000) mod 60 <=? 59) && ((tm / 1000) mod 60 <=? 59))
    with true.
  2:{ symmetry. rewrite !andb_true_iff, !Z.leb_le.
      unfold d, DaysInMonth in *. lia. }
  f_equal. rewrite Hmk. unfold MakeDate, MakeDay. fold leap.
  unfold d, dwy. rewrite Hsplit. f_equal. lia.
Qed.

Section WithPlatform.
Context {P : Platform}.

Lemma parse_toISOString (t : Z) :
  Z.abs t <= maxTime -> parse (toISOString t) = DateAt t.
Proof.
  intros Ht. unfold parse. rewrite parse_iso_toISOString by exact Ht.
  unfold TimeClip. now apply Z.leb_le in Ht as ->.
Qed.

End WithPlatform.

End DateFacts.

Module JSONStringFacts.
Import JSON HexFacts.

Lemma cunit_eqb_eq (a b : cunit) : cunit_eqb a b = true -> a = b.
Proof.
  destruct a as [h l], b as [h' l']. unfold cunit_eqb. cbn.
  intros H. apply andb_true_iff in H as [H1 H2].
  apply Ascii.eqb_eq in H1, H2. now subst.
Qed.

Lemma is_char_eq (a : ascii) (c : cunit) : is_char a c = true -> c = CU zero a.
Proof. apply cunit_eqb_eq. Qed.

(** A [\uXXXX] escape reads back as the code unit it names. *)
Lemma string_body_escape (c : cunit) (tail : jsstring) :
  string_body (unicode_escape c ++ tail) = cons_fst c (string_body tail).
Proof.
  unfold unicode_escape. cbn [lit list_ascii_of_string map app string_body].
  change (is_char "034" (CU zero "\"%char)) with false.
  change (is_char "092" (CU zero "\"%char)) with true.
  change (simple_escape (CU zero "u"%char)) with (@None cunit).
  change (is_char "u" (CU zero "u"%char)) with true.
  cbn match. rewrite !unhex_digit, !join_high_low.
  now destruct c.
Qed.

Lemma string_body_unit (c : cunit) (tail : jsstring) :
  is_high_surrogate c = false -> is_low_surrogate c = false ->
  string_body (quote_unit c ++ tail) = cons_fst c (string_body tail).
Proof.
  intros _ _. unfold quote_unit.
  repeat match goal with
         | |- context [if is_char ?a c then _ else _] =>
             let E := fresh "E" in
             destruct (is_char a c) eqn:E;
             [apply is_char_eq in E; subst c; reflexivity|]
         end.
  destruct (is_control c) eqn:Ec.
  - apply string_body_escape.
  - cbn [app string_body]. now rewrite E4, E5, Ec.
Qed.

Lemma surrogate_not_special (c : cunit) :
  is_high_surrogate c || is_low_surrogate c = true ->
  is_char "034" c = false /\ is_char "092" c = false /\ is_control c = false.
Proof.
  destruct c as [[h0 h1 h2 h3 h4 h5 h6 h7] l].
  unfold is_high_surrogate, is_low_surrogate, is_char, is_control, cunit_eqb.
  cbn [cu_hi cu_lo].
  intros H. destruct h7; [clear H | cbn in H; discriminate].
  destruct l as [l0 l1 l2 l3 l4 l5 l6 l7].
  destruct h0, h1, h2, h3, h4, h5, h6; cbn; repeat split; reflexivity.
Qed.

Lemma string_body_raw (c : cunit) (tail : jsstring) :
  is_high_surrogate c || is_low_surrogate c = true ->
  string_body (c :: tail) = cons_fst c (string_body tail).
Proof.
  intros H. destruct (surrogate_not_special c H) as (H1 & H2 & H3).
  cbn [string_body]. now rewrite H1, H2, H3.
Qed.

Lemma string_body_quote_bounded (n : nat) :
  forall s rest, (length s <= n)%nat ->
    string_body (quote_body s ++ dquote :: rest) = Some (s, rest).
Proof.
  induction n as [|n IH]; intros [|c r] rest Hlen; try reflexivity.
  - cbn in Hlen. lia.
  - cbn [length] in Hlen. cbn [quote_body].
    destruct (is_high_surrogate c) eqn:Hh.
    + destruct r as [|d r'].
      * rewrite string_body_escape. reflexivity.
      * cbn [length] in Hlen. destruct (is_low_surrogate d) eqn:Hl.
        -- cbn [app]. rewrite !string_body_raw
             by (rewrite ?Hh, ?Hl, ?orb_true_r; reflexivity).
           rewrite IH by lia. reflexivity.
        -- rewrite <- app_assoc, string_body_escape.
           rewrite IH by (cbn; lia). reflexivity.
    + destruct (is_low_surrogate c) eqn:Hl.
      * rewrite <- app_assoc, string_body_escape, IH by lia. reflexivity.
      * rewrite <- app_assoc, string_body_unit, IH by (assumption || lia).
        reflexivity.
Qed.

(** Reading a quoted string gives the string back. *)
Lemma string_body_quote (s rest : jsstring) :
  string_body (quote_body s ++ dquote :: rest) = Some (s, rest).
Proof. apply (string_body_quote_bounded (length s)). lia. Qed.

End JSONStringFacts.

Module JSONFacts.
Import JSON HexFacts JSONStringFacts.

(** *** Reading back what [stringify] writes *)

Lemma value_skip (fuel : nat) (c : cunit) (s : jsstring) :
  is_ws c = true -> value fuel (c :: s) = value fuel s.
Proof.
  intros H. destruct fuel as [|f]; [reflexivity|].
  cbn [value skip_ws]. now rewrite H.
Qed.

Lemma elements_skip (fuel : nat) (c : cunit) (s : jsstring) :
  is_ws c = true -> elements fuel (c :: s) = elements fuel s.
Proof.
  intros H. destruct fuel as [|f]; [reflexivity|].
  cbn [elements]. now rewrite value_skip.
Qed.

Ltac read_entry :=
  cbn;
  repeat (rewrite <- ?app_assoc; cbn [app]; rewrite string_body_quote; cbn);
  reflexivity.

Lemma value_entry (f : nat) (d m : jsval) (rest : jsstring) :
  atom d = true -> optional_atom m = true ->
  value (4 + f) (entry_text d m ++ rest) = Got (entry_value d m) rest.
Proof.
  unfold entry_text, entry_value, quote.
  destruct d as [| |[|]|n|sd|l|o]; try discriminate; intros _;
    destruct m as [| |[|]|n|sm|l|o]; try discriminate; intros _;
    unfold atom_text, quote; read_entry.
Qed.

Definition parsable (p : jsval * jsval) : Prop :=
  atom (fst p) = true /\ optional_atom (snd p) = true.

Lemma elements_entries (l : list (jsval * jsval)) :
  forall (f : nat) (rest : jsstring),
    l <> [] -> Forall parsable l ->
    elements (length l + 4 + f) (entries_text l ++ newline :: lit "]" ++ rest)
    = Got (map (fun '(d, m) => entry_value d m) l) rest.
Proof.
  induction l as [|[d m] l IH]; intros f rest Hne Hall; [congruence|].
  inversion Hall as [|? ? [Hd Hm] Hall']; subst. cbn [fst snd] in *.
  destruct l as [|e l].
  - cbn [entries_text length Nat.add elements].
    rewrite <- !app_assoc.
    cbn [lit list_ascii_of_string map app].
    rewrite !value_skip by reflexivity.
    rewrite (value_entry f d m) by assumption. cbn. reflexivity.
  - specialize (IH f rest ltac:(discriminate) Hall').
    remember (e :: l) as l' eqn:El.
    assert (Ht : entries_text ((d, m) :: l')
                 = lit "  " ++ entry_text d m ++ lit "," ++ [newline]
                     ++ entries_text l')
      by (subst l'; reflexivity).
    rewrite Ht. clear Ht.
    cbn [length Nat.add elements].
    rewrite <- !app_assoc.
    cbn [lit list_ascii_of_string map app].
    rewrite !value_skip by reflexivity.
    replace (length l' + 4 + f) with (4 + (length l' + f)) by lia.
    rewrite value_entry by assumption.
    cbn [skip_ws is_ws is_char cunit_eqb cu_hi cu_lo].
    cbn - [elements entries_text length].
    rewrite elements_skip by reflexivity.
    replace (S (S (S (S (length l' + f))))) with (length l' + 4 + f) by lia.
    cbn [lit list_ascii_of_string map app] in IH. rewrite IH. reflexivity.
Qed.

Lemma elements_skip_ws (fuel : nat) (s : jsstring) :
  elements fuel (skip_ws s) = elements fuel s.
Proof.
  induction s as [|c s IH]; [reflexivity|]. cbn [skip_ws].
  destruct (is_ws c) eqn:E; [|reflexivity].
  now rewrite IH, elements_skip.
Qed.

Lemma entries_text_head (l : list (jsval * jsval)) :
  l <> [] ->
  exists tail,
    entries_text l
    = CU zero " "%char :: CU zero " "%char :: CU zero "{"%char :: tail.
Proof.
  destruct l as [|[d m] [|e r]]; [congruence | |]; intros _;
    cbn [entries_text entry_text lit list_ascii_of_string map app]; eauto.
Qed.

Lemma entries_text_length (l : list (jsval * jsval)) :
  length l <= length (entries_text l).
Proof.
  induction l as [|[d m] l IH]; [reflexivity|].
  destruct l as [|e r].
  - cbn [entries_text]. rewrite length_app. cbn. lia.
  - remember (e :: r) as l'. 
    replace (entries_text ((d, m) :: l'))
      with (lit "  " ++ entry_text d m ++ lit "," ++ [newline]
              ++ entries_text l') by (subst l'; reflexivity).
    rewrite !length_app. cbn [length lit map list_ascii_of_string]. lia.
Qed.

Lemma parse_entries (l : list (jsval * jsval)) :
  l <> [] -> Forall parsable l ->
  parse (lit "[" ++ [newline] ++ entries_text l ++ [newline] ++ lit "]")
  = Ok (VArray (map (fun '(d, m) => entry_value d m) l)).
Proof.
  intros Hne Hall. unfold parse.
  set (text := lit "[" ++ [newline] ++ entries_text l ++ [newline] ++ lit "]").
  assert (Hlen : length l + 5 <= fuel_for text).
  { unfold fuel_for, text. pose proof (entries_text_length l).
    rewrite !length_app. cbn [length lit map list_ascii_of_string]. lia. }
  destruct (fuel_for text) as [|fuel] eqn:Ef; [lia|].
  pose proof (elements_entries l (fuel - (length l + 4)) [] Hne Hall) as He.
  replace (length l + 4 + (fuel - (length l + 4))) with fuel in He by lia.
  rewrite <- (elements_skip fuel newline) in He by reflexivity.
  rewrite <- elements_skip_ws in He.
  unfold text. clear text Ef.
  destruct (entries_text_head l Hne) as [tail Ht].
  rewrite Ht in *.
  cbn in He |- *. rewrite He. reflexivity.
Qed.

End JSONFacts.

Module JSONFuel.
Import JSON.

Lemma skip_ws_length (s t : jsstring) :
  skip_ws s = t -> length t <= length s.
Proof.
  revert t. induction s as [|c s IH]; intros t <-; [reflexivity|].
  cbn [skip_ws]. destruct (is_ws c); [|reflexivity].
  specialize (IH _ eq_refl). cbn [length]. lia.
Qed.

Lemma cons_fst_length (c : cunit) (o : option (jsstring * jsstring))
      (str r : jsstring) :
  cons_fst c o = Some (str, r) -> exists str', o = Some (str', r).
Proof.
  destruct o as [[str' r']|]; cbn; [|discriminate].
  intros H. injection H as _ <-. eauto.
Qed.

Lemma string_body_length_bounded (n : nat) :
  forall s str r, length s <= n ->
    string_body s = Some (str, r) -> length r < length s.
Proof.
  induction n as [|n IH]; intros [|c s] str r Hn H; try discriminate.
  - cbn in Hn. lia.
  - cbn [length] in Hn. cbn [string_body] in H.
    destruct (is_char "034" c).
    { injection H as _ <-. cbn. lia. }
    destruct (is_char "092" c).
    + destruct s as [|e s1]; [discriminate|]. cbn [length] in *.
      destruct (simple_escape e).
      * apply cons_fst_length in H as [str' H].
        apply IH in H; lia.
      * destruct (is_char "u" e); [|discriminate].
        destruct s1 as [|h1 [|h2 [|h3 [|h4 s2]]]]; try discriminate.
        destruct (Hex.unhex h1), (Hex.unhex h2), (Hex.unhex h3),
          (Hex.unhex h4); try discriminate.
        apply cons_fst_length in H as [str' H].
        apply IH in H; cbn [length] in *; lia.
    + destruct (is_control c); [discriminate|].
      apply cons_fst_length in H as [str' H].
      apply IH in H; cbn [length]; lia.
Qed.

Lemma string_body_length (s str r : jsstring) :
  string_body s = Some (str, r) -> length r < length s.
Proof. apply (string_body_length_bounded (length s)). lia. Qed.

Lemma span_digits_length (s d r : jsstring) :
  span_digits s = (d, r) -> length r <= length s.
Proof.
  revert d r. induction s as [|c s IH]; intros d r H; cbn [span_digits] in H.
  - injection H as _ <-. reflexivity.
  - destruct (is_dec_digit c).
    + destruct (span_digits s) as [d' r'] eqn:E.
      injection H as _ <-. specialize (IH _ _ eq_refl). cbn [length]. lia.
    + injection H as _ <-. reflexivity.
Qed.

Lemma digits1_length (s d r : jsstring) :
  digits1 s = Some (d, r) -> length r <= length s.
Proof.
  unfold digits1. destruct (span_digits s) as [[|x d'] r'] eqn:E;
    [discriminate|].
  intros H. injection H as _ <-. eapply span_digits_length, E.
Qed.

Lemma lex_number_length (s lx r : jsstring) :
  lex_number s = Some (lx, r) -> length r < length s.
Proof.
  unfold lex_number.
  set (pre := match s with
              | c :: r0 => if is_char "-" c then ([c], r0) else ([], s)
              | [] => ([], s)
              end).
  assert (Hpre : length (snd pre) <= length s).
  { unfold pre. destruct s as [|c r0]; [reflexivity|].
    destruct (is_char "-" c); cbn; lia. }
  destruct pre as [sign s1]. cbn [snd] in Hpre.
  set (int := match s1 with
              | c :: r0 =>
                  if is_char "0" c then Some ([c], r0)
                  else if is_dec_digit c then
                    let '(d, r') := span_digits r0 in Some (c :: d, r')
                  else None
              | [] => None
              end).
  assert (Hint : forall i s2, int = Some (i, s2) -> length s2 < length s1).
  { unfold int. intros i s2. destruct s1 as [|c r0]; [discriminate|].
    destruct (is_char "0" c).
    - intros H. injection H as _ <-. cbn. lia.
    - destruct (is_dec_digit c); [|discriminate].
      destruct (span_digits r0) as [d r'] eqn:E.
      intros H. injection H as _ <-.
      apply span_digits_length in E. cbn. lia. }
  destruct int as [[i s2]|]; [|discriminate].
  specialize (Hint _ _ eq_refl).
  set (frac := match s2 with
               | c :: r0 =>
                   if is_char "." c then
                     match digits1 r0 with
                     | Some (d, r') => Some (c :: d, r')
                     | None => None
                     end
                   else Some ([], s2)
               | [] => Some ([], s2)
               end).
  assert (Hfrac : forall f s3, frac = Some (f, s3) -> length s3 <= length s2).
  { unfold frac. intros f s3. destruct s2 as [|c r0].
    - intros H. injection H as _ <-. reflexivity.
    - destruct (is_char "." c).
      + destruct (digits1 r0) as [[d r']|] eqn:E; [|discriminate].
        intros H. injection H as _ <-.
        apply digits1_length in E. cbn. lia.
      + intros H. injection H as _ <-. reflexivity. }
  destruct frac as [[f s3]|]; [|discriminate].
  specialize (Hfrac _ _ eq_refl).
  set (exp := match s3 with
              | c :: r0 =>
                  if is_char "e" c || is_char "E" c then
                    let '(sg, r1) :=
                      match r0 with
                      | c2 :: r' =>
                          if is_char "+" c2 || is_char "-" c2
                          then ([c2], r') else ([], r0)
                      | [] => ([], r0)
                      end in
                    match digits1 r1 with
                    | Some (d, r') => Some (c :: sg ++ d, r')
                    | None => None
                    end
                  else Some ([], s3)
              | [] => Some ([], s3)
              end).
  assert (Hexp : forall e s4, exp = Some (e, s4) -> length s4 <= length s3).
  { unfold exp. intros e s4. destruct s3 as [|c r0].
    - intros H. injection H as _ <-. reflexivity.
    - destruct (is_char "e" c || is_char "E" c).
      + set (sg := match r0 with
                   | c2 :: r' =>
                       if is_char "+" c2 || is_char "-" c2
                       then ([c2], r') else ([], r0)
                   | [] => ([], r0)
                   end).
        assert (Hsg : length (snd sg) <= length r0).
        { unfold sg. destruct r0 as [|c2 r']; [reflexivity|].
          destruct (is_char "+" c2 || is_char "-" c2); cbn; lia. }
        destruct sg as [sg r1]. cbn [snd] in Hsg.
        destruct (digits1 r1) as [[d r']|] eqn:E; [|discriminate].
        intros H. injection H as _ <-.
        apply digits1_length in E. cbn. lia.
      + intros H. injection H as _ <-. reflexivity. }
  destruct exp as [[e s4]|]; [|discriminate].
  specialize (Hexp _ _ eq_refl).
  intros H. injection H as _ <-. lia.
Qed.

Lemma strip_prefix_length (p s r : jsstring) :
  strip_prefix p s = Some r -> length r + length p = length s.
Proof.
  revert s. induction p as [|a p IH]; intros [|b s] H; cbn in H;
    try discriminate.
  - injection H as <-. reflexivity.
  - injection H as <-. cbn. lia.
  - destruct (cunit_eqb a b); [|discriminate].
    apply IH in H. cbn. lia.
Qed.

Ltac measure :=
  repeat match goal with
         | H : skip_ws _ = _ |- _ => apply skip_ws_length in H
         | H : string_body _ = Some _ |- _ => apply string_body_length in H
         | H : lex_number _ = Some _ |- _ => apply lex_number_length in H
         | H : strip_prefix _ _ = Some _ |- _ =>
             apply strip_prefix_length in H
         end;
  cbn [length lit map list_ascii_of_string] in *.

Ltac split_on x :=
  let E := fresh "E" in destruct x eqn:E; try discriminate.

(** Every construct consumes at least one character. *)
Lemma consumes (fuel : nat) :
  (forall s v r, value fuel s = Got v r -> length r < length s)
  /\ (forall s vs r, elements fuel s = Got vs r -> length r < length s)
  /\ (forall s ms r, members fuel s = Got ms r -> length r < length s).
Proof.
  induction fuel as [|f (IHv & IHe & IHm)];
    [repeat split; intros; discriminate|].
  repeat split; intros s x r H.
  - cbn [value] in H.
    split_on (skip_ws s).
    repeat match type of H with
           | context [if ?b then _ else _] => destruct b
           | context [match string_body ?t with _ => _ end] =>
               split_on (string_body t)
           | context [match skip_ws ?t with _ => _ end] =>
               split_on (skip_ws t)
           | context [match elements ?g ?t with _ => _ end] =>
               let E := fresh "E" in
               destruct (elements g t) eqn:E; try discriminate;
               apply IHe in E
           | context [match members ?g ?t with _ => _ end] =>
               let E := fresh "E" in
               destruct (members g t) eqn:E; try discriminate;
               apply IHm in E
           | context [match strip_prefix ?p ?t with _ => _ end] =>
               split_on (strip_prefix p t)
           | context [match lex_number ?t with _ => _ end] =>
               split_on (lex_number t)
           | context [let '(_, _) := ?p in _] => destruct p
           end;
      try discriminate; injection H as _ <-; measure; lia.
  - cbn [elements] in H.
    destruct (value f s) as [| |v r1] eqn:Ev; try discriminate.
    apply IHv in Ev.
    destruct (skip_ws r1) as [|c r2] eqn:E1; [discriminate|].
    destruct (is_char "," c).
    + destruct (elements f r2) as [| |vs r3] eqn:Ee; try discriminate.
      apply IHe in Ee. injection H as _ <-. measure. lia.
    + destruct (is_char "]" c); [|discriminate].
      injection H as _ <-. measure. lia.
  - cbn [members] in H.
    destruct (skip_ws s) as [|c r0] eqn:E0; [discriminate|].
    destruct (is_char "034" c); [|discriminate].
    destruct (string_body r0) as [[k r1]|] eqn:Es; [|discriminate].
    destruct (skip_ws r1) as [|c2 r2] eqn:E1; [discriminate|].
    destruct (is_char ":" c2); [|discriminate].
    destruct (value f r2) as [| |v r3] eqn:Ev; try discriminate.
    apply IHv in Ev.
    destruct (skip_ws r3) as [|c3 r4] eqn:E3; [discriminate|].
    destruct (is_char "," c3).
    + destruct (members f r4) as [| |ms r5] eqn:Em; try discriminate.
      apply IHm in Em. injection H as _ <-. measure. lia.
    + destruct (is_char "}" c3); [|discriminate].
      injection H as _ <-. measure. lia.
Qed.

(** Two units of fuel per character, and one more, are never used up. *)
Lemma enough_fuel (fuel : nat) :
  (forall s, 2 * length s + 1 <= fuel -> value fuel s <> OutOfFuel)
  /\ (forall s, 2 * length s + 2 <= fuel -> elements fuel s <> OutOfFuel)
  /\ (forall s, 2 * length s + 2 <= fuel -> members fuel s <> OutOfFuel).
Proof.
  induction fuel as [|f (IHv & IHe & IHm)];
    [repeat split; intros; lia|].
  repeat split; intros s Hf.
  - cbn [value].
    destruct (skip_ws s) as [|c r] eqn:E0; [discriminate|].
    destruct (is_char "034" c);
      [destruct (string_body r) as [[? ?]|]; discriminate|].
    destruct (is_char "[" c).
    { destruct (skip_ws r) as [|d r'] eqn:E1; [discriminate|].
      destruct (is_char "]" d); [discriminate|].
      destruct (elements f (d :: r')) eqn:Ee; try discriminate.
      exfalso. revert Ee. apply IHe. measure. lia. }
    destruct (is_char "{" c).
    { destruct (skip_ws r) as [|d r'] eqn:E1; [discriminate|].
      destruct (is_char "}" d); [discriminate|].
      destruct (members f (d :: r')) eqn:Em; try discriminate.
      exfalso. revert Em. apply IHm. measure. lia. }
    repeat match goal with
           | |- context [match strip_prefix ?p ?t with _ => _ end] =>
               destruct (strip_prefix p t); [discriminate|]
           end.
    destruct (lex_number (c :: r)) as [[? ?]|]; discriminate.
  - cbn [elements].
    destruct (value f s) as [| |v r1] eqn:Ev; try discriminate.
    { exfalso. revert Ev. apply IHv. lia. }
    apply (proj1 (consumes f)) in Ev.
    destruct (skip_ws r1) as [|c r2] eqn:E1; [discriminate|].
    destruct (is_char "," c).
    + destruct (elements f r2) eqn:Ee; try discriminate.
      exfalso. revert Ee. apply IHe. measure. lia.
    + destruct (is_char "]" c); discriminate.
  - cbn [members].
    destruct (skip_ws s) as [|c r0] eqn:E0; [discriminate|].
    destruct (is_char "034" c); [|discriminate].
    destruct (string_body r0) as [[k r1]|] eqn:Es; [|discriminate].
    destruct (skip_ws r1) as [|c2 r2] eqn:E1; [discriminate|].
    destruct (is_char ":" c2); [|discriminate].
    destruct (value f r2) as [| |v r3] eqn:Ev; try discriminate.
    { exfalso. revert Ev. apply IHv. measure. lia. }
    apply (proj1 (consumes f)) in Ev.
    destruct (skip_ws r3) as [|c3 r4] eqn:E3; [discriminate|].
    destruct (is_char "," c3).
    + destruct (members f r4) eqn:Em; try discriminate.
      exfalso. revert Em. apply IHm. measure. lia.
    + destruct (is_char "}" c3); discriminate.
Qed.

(** [JSON.parse] never runs out of fuel: its [SyntaxError] is a verdict
    on the text. *)
Lemma value_fuel (text : jsstring) :
  value (fuel_for text) text <> OutOfFuel.
Proof. apply enough_fuel. unfold fuel_for. lia. Qed.

End JSONFuel.

Module StoreJSONFacts.
Import JSON Utf8Facts JSONStringFacts JSONFacts DateFacts.

(** *** Well-formedness of what [stringify] writes *)

Lemma escape_plain (c : cunit) :
  forallb not_surrogate (unicode_escape c) = true.
Proof. reflexivity. Qed.

Lemma quote_unit_plain (c : cunit) :
  is_high_surrogate c = false -> is_low_surrogate c = false ->
  forallb not_surrogate (quote_unit c) = true.
Proof.
  intros Hh Hl. unfold quote_unit.
  repeat match goal with
         | |- context [if ?b then _ else _] => destruct b; [reflexivity|]
         end.
  cbn. unfold not_surrogate. now rewrite Hh, Hl.
Qed.

Lemma quote_body_wf_bounded (n : nat) :
  forall s tail, length s <= n ->
    isWellFormed (quote_body s ++ tail) = isWellFormed tail.
Proof.
  induction n as [|n IH]; intros [|c r] tail Hlen; try reflexivity.
  - cbn in Hlen. lia.
  - cbn [length] in Hlen. cbn [quote_body].
    destruct (is_high_surrogate c) eqn:Hh.
    + destruct r as [|d r'].
      * now rewrite wf_app_plain by apply escape_plain.
      * cbn [length] in Hlen. destruct (is_low_surrogate d) eqn:Hl.
        -- cbn [app isWellFormed]. rewrite Hh, Hl. cbn [andb].
           apply IH. lia.
        -- rewrite <- app_assoc, wf_app_plain by apply escape_plain.
           apply IH. cbn. lia.
    + destruct (is_low_surrogate c) eqn:Hl.
      * rewrite <- app_assoc, wf_app_plain by apply escape_plain.
        apply IH. lia.
      * rewrite <- app_assoc, wf_app_plain
          by (apply quote_unit_plain; assumption).
        apply IH. lia.
Qed.

Lemma quote_wf (s tail : jsstring) :
  isWellFormed (quote s ++ tail) = isWellFormed tail.
Proof.
  unfold quote. cbn [app].
  rewrite wf_cons_plain by reflexivity.
  rewrite <- app_assoc.
  rewrite (quote_body_wf_bounded (length s)) by lia.
  cbn [app]. now rewrite wf_cons_plain by reflexivity.
Qed.

Lemma atom_text_wf (v : jsval) (tail : jsstring) :
  isWellFormed (atom_text v ++ tail) = isWellFormed tail.
Proof.
  destruct v as [| |[|]|n|s|l|o]; cbn [atom_text];
    try reflexivity; try (now rewrite wf_app_plain by reflexivity).
  apply quote_wf.
Qed.

Lemma entry_text_wf (d m : jsval) (tail : jsstring) :
  isWellFormed (entry_text d m ++ tail) = isWellFormed tail.
Proof.
  assert (Hend : isWellFormed ([newline] ++ lit "  }" ++ tail)
                 = isWellFormed tail).
  { rewrite wf_app_plain by reflexivity.
    now rewrite wf_app_plain by reflexivity. }
  unfold entry_text.
  destruct m; rewrite <- !app_assoc;
    rewrite wf_app_plain by reflexivity;
    rewrite wf_app_plain by reflexivity;
    rewrite wf_app_plain by reflexivity;
    rewrite quote_wf;
    rewrite wf_app_plain by reflexivity;
    rewrite atom_text_wf; try exact Hend;
    rewrite wf_app_plain by reflexivity;
    rewrite wf_app_plain by reflexivity;
    rewrite wf_app_plain by reflexivity;
    rewrite quote_wf;
    rewrite wf_app_plain by reflexivity;
    rewrite atom_text_wf; exact Hend.
Qed.

Lemma entries_text_wf (l : list (jsval * jsval)) (tail : jsstring) :
  isWellFormed (entries_text l ++ tail) = isWellFormed tail.
Proof.
  induction l as [|[d m] l IH]; [reflexivity|].
  destruct l as [|e r].
  - cbn [entries_text]. rewrite <- app_assoc.
    rewrite wf_app_plain by reflexivity. apply entry_text_wf.
  - remember (e :: r) as l'.
    replace (entries_text ((d, m) :: l'))
      with (lit "  " ++ entry_text d m ++ lit "," ++ [newline]
              ++ entries_text l') by (subst l'; reflexivity).
    rewrite <- !app_assoc.
    rewrite wf_app_plain by reflexivity. rewrite entry_text_wf.
    rewrite wf_app_plain by reflexivity.
    rewrite wf_app_plain by reflexivity. exact IH.
Qed.

Section WithPlatform.
Context {P : Platform}.

Lemma stringify_entry_scalar (e : StoredMessage) :
  scalar_message e = true ->
  stringify_entry e = entry_text (fst (fields e)) (snd (fields e)).
Proof.
  destruct e as [d m]. unfold scalar_message, fields, date_value.
  cbn [date message fst snd]. intros Hm.
  unfold stringify_entry, entry_text. cbn [date message].
  destruct (DateTime.toJSON d) as [iso|];
    destruct m as [| |[|]|n|s|l|o]; try discriminate;
    cbn [stringify_property atom_text]; now rewrite <- ?app_assoc.
Qed.

Lemma stringify_entries_scalar (l : list StoredMessage) :
  forallb scalar_message l = true ->
  stringify_entries l = entries_text (map fields l).
Proof.
  induction l as [|e l IH]; [reflexivity|].
  cbn [forallb]. intros H. apply andb_true_iff in H as [He Hl].
  specialize (IH Hl).
  destruct l as [|e' r].
  - cbn [stringify_entries map entries_text].
    rewrite stringify_entry_scalar by exact He.
    now destruct (fields e).
  - remember (e' :: r) as l'.
    replace (stringify_entries (e :: l'))
      with (lit "  " ++ stringify_entry e ++ lit "," ++ [newline]
              ++ stringify_entries l') by (subst l'; reflexivity).
    rewrite IH, stringify_entry_scalar by exact He.
    subst l'. cbn [map entries_text]. destruct (fields e) as [d m].
    cbn [fst snd]. destruct (fields e'). reflexivity.
Qed.

Lemma stringify_wf (l : list StoredMessage) :
  forallb scalar_message l = true -> isWellFormed (stringify l) = true.
Proof.
  intros H. destruct l as [|e r]; [reflexivity|].
  unfold stringify. rewrite stringify_entries_scalar by exact H.
  rewrite wf_app_plain by reflexivity.
  rewrite wf_app_plain by reflexivity.
  now rewrite entries_text_wf.
Qed.

Lemma fields_parsable (l : list StoredMessage) :
  forallb scalar_message l = true -> Forall parsable (map fields l).
Proof.
  induction l as [|e l IH]; cbn [forallb map]; [constructor|].
  intros H. apply andb_true_iff in H as [He Hl].
  constructor; [|exact (IH Hl)].
  split; [|exact He].
  unfold fields, date_value. cbn [fst].
  now destruct (DateTime.toJSON (date e)).
Qed.

Lemma parse_stringify (l : list StoredMessage) :
  forallb scalar_message l = true ->
  parse (stringify l)
  = Ok (VArray (map (fun e => entry_value (fst (fields e)) (snd (fields e))) l)).
Proof.
  intros H. destruct l as [|e r]; [reflexivity|].
  unfold stringify. rewrite stringify_entries_scalar by exact H.
  rewrite parse_entries by (discriminate || apply fields_parsable, H).
  rewrite map_map. reflexivity.
Qed.

End WithPlatform.
End StoreJSONFacts.

Module StoreFacts.
Import HexFacts Utf8Facts CryptoServiceFacts DateFacts JSONFacts StoreJSONFacts.

Lemma hex_plain (bs : list octet) :
  forallb not_surrogate (Hex.encode bs) = true.
Proof. induction bs as [|b bs IH]; [reflexivity|]. exact IH. Qed.

Lemma blob_wf (iv ct : list octet) :
  isWellFormed (Hex.encode iv ++ colon :: Hex.encode ct) = true.
Proof.
  apply no_surrogate_wf. rewrite forallb_app. cbn [forallb].
  now rewrite !hex_plain.
Qed.

Section WithPlatform.
Context {P : Platform}.
Variable cryptoService : CryptoService.

Lemma TimeClip_clipped (t : Z) : time_value (TimeClip t).
Proof.
  unfold TimeClip. destruct (Z.abs t <=? maxTime)%Z eqn:E; [|exact I].
  now apply Z.leb_le in E.
Qed.

Lemma construct_clipped (v : jsval) : time_value (DateTime.construct v).
Proof.
  destruct v as [| |[|]|n|s|l|o]; cbn [DateTime.construct time_value];
    try exact I; try (unfold maxTime; cbn; lia);
    try apply Date_of_other_clipped.
  unfold DateTime.parse. destruct (DateTime.parse_iso s).
  - apply TimeClip_clipped.
  - apply Date_parse_other_clipped.
Qed.

Lemma stored_of_clipped (msg : Message) : time_value (date (stored_of msg)).
Proof. apply TimeClip_clipped. Qed.

(** What has been read carries dates that [Date] can hold. *)
Lemma map_result_clipped (vs : list jsval) (l : list StoredMessage) :
  map_result to_stored vs = Ok l ->
  Forall (fun e => time_value (date e)) l.
Proof.
  revert l. induction vs as [|v vs IH]; intros l; cbn [map_result].
  - intros [= <-]. constructor.
  - destruct (to_stored v) as [e|] eqn:Ev; [|discriminate]. cbn [bind].
    destruct (map_result to_stored vs) as [r|]; [|discriminate].
    cbn [bind]. intros [= <-]. constructor; [|now apply IH].
    unfold to_stored in Ev.
    destruct (get_property v (lit "date")) as [d|]; [|discriminate].
    destruct (get_property v (lit "message")) as [m|]; [|discriminate].
    cbn [bind] in Ev. injection Ev as <-. apply construct_clipped.
Qed.

Lemma readMessages_clipped (w : World) (l : list StoredMessage) :
  fst (readMessages cryptoService w) = Ok l ->
  Forall (fun e => time_value (date e)) l.
Proof.
  unfold readMessages.
  destruct (readEncryptedFile cryptoService w) as [v w']. cbn [fst].
  destruct v; try discriminate; try (intros [= <-]; constructor).
  apply map_result_clipped.
Qed.

Lemma to_stored_scalar (e : StoredMessage) :
  time_value (date e) -> scalar_message e = true ->
  to_stored (entry_value (fst (fields e)) (snd (fields e)))
  = Ok (reread e).
Proof.
  destruct e as [d m]. unfold scalar_message, reread, fields, date_value.
  cbn [date message fst snd]. intros Hd Hm.
  unfold to_stored, entry_value. cbn [get_property bind].
  destruct d as [|t]; cbn [DateTime.toJSON time_value] in *;
    destruct m as [| |[|]|n|s|l|o]; try discriminate;
    cbn; rewrite ?parse_toISOString by exact Hd; reflexivity.
Qed.

Lemma map_result_scalar (l : list StoredMessage) :
  Forall (fun e => time_value (date e)) l ->
  forallb scalar_message l = true ->
  map_result to_stored
    (map (fun e => entry_value (fst (fields e)) (snd (fields e))) l)
  = Ok (map reread l).
Proof.
  induction 1 as [|e l He Hl IH]; [reflexivity|].
  cbn [forallb map map_result]. intros H.
  apply andb_true_iff in H as [Hs Hr].
  now rewrite to_stored_scalar, IH.
Qed.

Lemma reread_valid (l : list StoredMessage) :
  forallb valid_date l = true -> map reread l = l.
Proof.
  induction l as [|[[|t] m] l IH]; cbn [forallb map]; [reflexivity| |].
  - discriminate.
  - intros H. now rewrite IH.
Qed.

Lemma readEncryptedFile_holds (w : World) (l : list StoredMessage) :
  read_fault w = false -> holds cryptoService w l ->
  forallb scalar_message l = true ->
  readEncryptedFile cryptoService w
  = (VArray (map (fun e => entry_value (fst (fields e)) (snd (fields e))) l), w).
Proof.
  intros Hr (iv & blob & Hiv & Henc & Hfile) Hplain.
  destruct (encrypt_with_spec cryptoService iv (JSON.stringify l) Hiv)
    as (ct & Henc' & _ & Hdec).
  rewrite Henc in Henc'. injection Henc' as ->.
  unfold readEncryptedFile, readEncryptedFile_try, fs_readFile.
  rewrite Hr, Hfile.
  rewrite decode_encode_wf by apply blob_wf.
  cbn [bind]. rewrite Hdec. cbn [bind].
  rewrite toWellFormed_id by (apply stringify_wf, Hplain).
  now rewrite parse_stringify.
Qed.

Lemma readMessages_holds (w : World) (l : list StoredMessage) :
  read_fault w = false -> holds cryptoService w l ->
  Forall (fun e => time_value (date e)) l ->
  forallb scalar_message l = true ->
  readMessages cryptoService w = (Ok (map reread l), w).
Proof.
  intros Hr Hh Hd Hp. unfold readMessages.
  rewrite (readEncryptedFile_holds w l Hr Hh Hp).
  now rewrite map_result_scalar.
Qed.

(** Reading changes nothing but the logger's output. *)
Lemma readMessages_frame (w : World) :
  let w' := snd (readMessages cryptoService w) in
  messages_json w' = messages_json w
  /\ read_fault w' = read_fault w
  /\ write_fault w' = write_fault w
  /\ entropy w' = entropy w.
Proof.
  unfold readMessages, readEncryptedFile.
  destruct (readEncryptedFile_try cryptoService w) as [v|e]; cbn [snd].
  - repeat split.
  - destruct (error_has_code e && negb (error_is_enoent e));
      repeat split.
Qed.

Lemma writeEncryptedFile_calm (data : list StoredMessage) (w : World) :
  write_fault w = None ->
  let w' := snd (writeEncryptedFile cryptoService data w) in
  fst (writeEncryptedFile cryptoService data w) = Ok tt
  /\ holds cryptoService w' data
  /\ read_fault w' = read_fault w
  /\ write_fault w' = None
  /\ console w' = console w.
Proof.
  intros Hw. unfold writeEncryptedFile, encrypt.
  destruct (randomBytes IV_LENGTH (entropy w)) as [iv g] eqn:Eg.
  assert (Hiv : length iv = 16).
  { pose proof (randomBytes_length IV_LENGTH (entropy w)) as H.
    now rewrite Eg in H. }
  destruct (encrypt_with_spec cryptoService iv (JSON.stringify data) Hiv)
    as (ct & Henc & _ & _).
  rewrite Henc. unfold fs_writeFile.
  replace (write_fault (with_entropy g w)) with (@None (option (list octet)))
    by (symmetry; exact Hw).
  cbn [fst snd]. repeat split; try assumption.
  exists iv, (Hex.encode iv ++ colon :: Hex.encode ct). now repeat split.
Qed.

Lemma writeEncryptedFile_fault (data : list StoredMessage) (w : World)
      (residue : option (list octet)) :
  write_fault w = Some residue ->
  let w' := snd (writeEncryptedFile cryptoService data w) in
  fst (writeEncryptedFile cryptoService data w) = Throw (SystemError EOTHER)
  /\ messages_json w' = residue
  /\ console w'
     = console w ++ [LogError "Error writing encrypted file:" (SystemError EOTHER)].
Proof.
  intros Hw. unfold writeEncryptedFile, encrypt.
  destruct (randomBytes IV_LENGTH (entropy w)) as [iv g] eqn:Eg.
  assert (Hiv : length iv = 16).
  { pose proof (randomBytes_length IV_LENGTH (entropy w)) as H.
    now rewrite Eg in H. }
  destruct (encrypt_with_spec cryptoService iv (JSON.stringify data) Hiv)
    as (ct & Henc & _ & _).
  rewrite Henc. unfold fs_writeFile.
  replace (write_fault (with_entropy g w)) with (Some residue)
    by (symmetry; exact Hw).
  cbn [fst snd]. repeat split.
Qed.

(** [appendMessage] in a world without faults: the file then holds the
    log read before, with the new entry at its end. *)
Lemma appendMessage_calm (msg : Message) (w : World)
      (prior : list StoredMessage) :
  write_fault w = None ->
  fst (readMessages cryptoService w) = Ok prior ->
  let w' := snd (appendMessage cryptoService msg w) in
  fst (appendMessage cryptoService msg w) = Ok tt
  /\ holds cryptoService w' (prior ++ [stored_of msg])
  /\ read_fault w' = read_fault w
  /\ write_fault w' = None.
Proof.
  intros Hw Hr. unfold appendMessage.
  pose proof (readMessages_frame w) as (Hf1 & Hf2 & Hf3 & Hf4).
  destruct (readMessages cryptoService w) as [r w1].
  cbn [fst snd] in *. subst r.
  pose proof (writeEncryptedFile_calm (prior ++ [stored_of msg]) w1
                ltac:(congruence)) as (Hok & Hh & Hrf & Hwf & Hc).
  destruct (writeEncryptedFile cryptoService (prior ++ [stored_of msg]) w1)
    as [res w2].
  cbn [fst snd] in *. subst res. cbn [fst snd].
  repeat split; try assumption.
  cbn [logged read_fault]. congruence.
Qed.

Lemma stored_of_scalar (msg : Message) :
  scalar_message (stored_of msg) = true.
Proof. reflexivity. Qed.

(** Reading after an append gives the log read before and the new entry
    at its end, each as [reread] leaves it. *)
Lemma appendMessage_then_read (msg : Message) (w : World)
      (prior : list StoredMessage) :
  read_fault w = false -> write_fault w = None ->
  fst (readMessages cryptoService w) = Ok prior ->
  forallb scalar_message prior = true ->
  let w' := snd (appendMessage cryptoService msg w) in
  readMessages cryptoService w'
  = (Ok (map reread (prior ++ [stored_of msg])), w')
  /\ read_fault w' = false /\ write_fault w' = None.
Proof.
  intros Hrf Hwf Hr Hp.
  destruct (appendMessage_calm msg w prior Hwf Hr) as (_ & Hh & Hr' & Hw').
  cbn zeta. repeat split; [|congruence|assumption].
  apply readMessages_holds; [congruence|assumption| |].
  - apply Forall_app. split; [now apply readMessages_clipped with w|].
    constructor; [apply stored_of_clipped|constructor].
  - rewrite forallb_app, Hp. reflexivity.
Qed.

Lemma reread_scalar (l : list StoredMessage) :
  forallb scalar_message (map reread l) = forallb scalar_message l.
Proof. induction l as [|e l IH]; [reflexivity|]. cbn. now rewrite IH. Qed.


End WithPlatform.
End StoreFacts.

(* ================================================================== *)
(** ** CipherEngine and KeyDerivation: the claims *)

Module CryptoClaims.
Import HexFacts SplitFacts Utf8Facts CbcFacts CryptoServiceFacts.

(** What [decrypt] returns on the blob that [encrypt] built from [text]:
    [text] with every lone surrogate replaced by U+FFFD. *)
Lemma decrypt_encrypt_with (P : Platform) (this : CryptoService)
      (iv : list octet) (text : jsstring) :
  length iv = 16 ->
  bind (encrypt_with this iv text) (decrypt this) = Ok (toWellFormed text).
Proof.
  intros Hiv.
  destruct (encrypt_with_spec this iv text Hiv) as (ct & Henc & _ & Hdec).
  rewrite Henc. exact Hdec.
Qed.

(** C1 (amended): for every service key and every 16-byte IV, decrypting
    the blob produced by encrypt returns exactly the plaintext for every
    plaintext string that is well-formed UTF-16 (no unpaired surrogate),
    and for no other. *)
Theorem decrypt_encrypt_well_formed (P : Platform) (this : CryptoService)
        (iv : list octet) (text : jsstring) :
  length iv = 16 ->
  (bind (encrypt_with this iv text) (decrypt this) = Ok text
   <-> isWellFormed text = true).
Proof.
  intros Hiv. rewrite decrypt_encrypt_with by exact Hiv.
  rewrite <- toWellFormed_fixed. split; congruence.
Qed.

Lemma decrypt_encrypt_well_formed_witness :
  bind (@encrypt_with toy_platform Sample.service Sample.iv0 (lit "hello"))
       (@decrypt toy_platform Sample.service)
  = Ok (lit "hello")
  <-> isWellFormed (lit "hello") = true.
Proof.
  apply (decrypt_encrypt_well_formed toy_platform Sample.service
           Sample.iv0 (lit "hello")). reflexivity.
Defined.

(** C1 as stated fails: a string holding a lone surrogate comes back with
    U+FFFD in its place. *)
Lemma decrypt_encrypt_lone_surrogate :
  ~ (forall (P : Platform) (this : CryptoService) (iv : list octet)
            (text : jsstring),
        length iv = 16 ->
        bind (encrypt_with this iv text) (decrypt this) = Ok text).
Proof.
  intros H.
  specialize (H toy_platform Sample.service Sample.iv0
                Sample.lone_surrogate eq_refl).
  rewrite decrypt_encrypt_with in H by reflexivity.
  discriminate H.
Qed.

(** The same through [encrypt] itself, whatever the random source. *)
Lemma decrypt_encrypt (P : Platform) (this : CryptoService)
      (text : jsstring) (g : Entropy) :
  bind (fst (encrypt this text g)) (decrypt this) = Ok (toWellFormed text).
Proof.
  unfold encrypt.
  pose proof (randomBytes_length IV_LENGTH g) as Hl.
  destruct (randomBytes IV_LENGTH g) as [iv g']. cbn [fst] in *.
  now apply decrypt_encrypt_with.
Qed.

(** The functions inlined in the older [TelegramService] are the methods
    of [CryptoService] for the same passphrase. *)
Lemma inline_agrees (P : Platform) (key text : jsstring) (iv : list octet)
      (g : Entropy) :
  Inline.getKey key = getKey {| encryptionKey := key |}
  /\ Inline.encrypt_with iv text key
     = encrypt_with {| encryptionKey := key |} iv text
  /\ Inline.encrypt text key g = encrypt {| encryptionKey := key |} text g
  /\ Inline.decrypt text key = decrypt {| encryptionKey := key |} text.
Proof. repeat split. Qed.

(** *** Format errors *)

(** The sample blobs are what the toy platform encrypts. *)
Example sample_blobs :
  @encrypt_with toy_platform Sample.service Sample.iv0 (lit "true")
  = Ok Sample.true_blob
  /\ @encrypt_with toy_platform Sample.service Sample.iv0
       (lit "[{" ++ JSON.quote (lit "message") ++ lit ":"
          ++ JSON.quote (lit "m") ++ lit "}]")
     = Ok Sample.dateless_blob.
Proof. split; reflexivity. Qed.

Example decrypt_without_colon :
  @decrypt toy_platform Sample.service (lit "no colon here")
  = Throw FormatError.
Proof. reflexivity. Qed.





(** *** Key derivation *)

(** C7: the key is a function of the passphrase alone, computed with the
    salt ["salt"], and is 32 bytes long; the empty passphrase is derived
    like any other. *)
Theorem getKey_deterministic (P : Platform) (passphrase : jsstring)
        (a b : CryptoService) :
  encryptionKey a = passphrase ->
  encryptionKey b = passphrase ->
  getKey a = getKey b
  /\ getKey a = scryptSync passphrase (lit "salt") 32
  /\ length (getKey a) = 32.
Proof.
  intros Ha Hb. unfold getKey. rewrite Ha, Hb.
  repeat split. apply scryptSync_length.
Qed.

Lemma getKey_deterministic_witness :
  @getKey toy_platform {| encryptionKey := [] |}
  = @getKey toy_platform {| encryptionKey := [] |}
  /\ @getKey toy_platform {| encryptionKey := [] |}
     = @scryptSync toy_platform [] (lit "salt") 32
  /\ length (@getKey toy_platform {| encryptionKey := [] |}) = 32.
Proof.
  apply (getKey_deterministic toy_platform []
           {| encryptionKey := [] |} {| encryptionKey := [] |});
    reflexivity.
Defined.

(** *** IV freshness *)

Lemma hex_encode_injective (a b : list octet) :
  Hex.encode a = Hex.encode b -> a = b.
Proof.
  intros H. rewrite <- (decode_encode_app a), <- (decode_encode_app b).
  now rewrite H.
Qed.

(** C8 (amended): for every well-formed plaintext and every key, two
    encryptions under distinct 16-byte IVs give blobs that differ, already
    in their IV segments (the first 32 characters), and both blobs decrypt
    to the plaintext. *)
Theorem distinct_ivs_distinct_blobs (P : Platform) (this : CryptoService)
        (text : jsstring) (iv1 iv2 : list octet) :
  length iv1 = 16 -> length iv2 = 16 -> iv1 <> iv2 ->
  isWellFormed text = true ->
  exists blob1 blob2,
    encrypt_with this iv1 text = Ok blob1
    /\ encrypt_with this iv2 text = Ok blob2
    /\ iv_segment blob1 <> iv_segment blob2
    /\ blob1 <> blob2
    /\ decrypt this blob1 = Ok text
    /\ decrypt this blob2 = Ok text.
Proof.
  intros H1 H2 Hne Hwf.
  destruct (encrypt_with_spec this iv1 text H1) as (c1 & E1 & _ & D1).
  destruct (encrypt_with_spec this iv2 text H2) as (c2 & E2 & _ & D2).
  rewrite toWellFormed_id in D1, D2 by exact Hwf.
  assert (S1 : forall iv c,
             iv_segment (Hex.encode iv ++ colon :: Hex.encode c)
             = Hex.encode iv).
  { intros iv c. unfold iv_segment.
    rewrite split_at_first; [reflexivity|].
    pose proof (encode_lower iv) as H.
    rewrite forallb_forall in *. intros x Hx.
    now rewrite (lower_digit_not_colon x (H x Hx)). }
  assert (Hseg : iv_segment (Hex.encode iv1 ++ colon :: Hex.encode c1)
                 <> iv_segment (Hex.encode iv2 ++ colon :: Hex.encode c2)).
  { rewrite !S1. intros H. apply Hne, hex_encode_injective, H. }
  eexists _, _. repeat split; try eassumption.
  intros H. apply Hseg. now rewrite H.
Qed.

Lemma distinct_ivs_distinct_blobs_witness :
  exists blob1 blob2,
    @encrypt_with toy_platform Sample.service Sample.iv0 (lit "hello")
    = Ok blob1
    /\ @encrypt_with toy_platform Sample.service Sample.iv1 (lit "hello")
       = Ok blob2
    /\ iv_segment blob1 <> iv_segment blob2
    /\ blob1 <> blob2
    /\ @decrypt toy_platform Sample.service blob1 = Ok (lit "hello")
    /\ @decrypt toy_platform Sample.service blob2 = Ok (lit "hello").
Proof.
  apply (distinct_ivs_distinct_blobs toy_platform Sample.service
           (lit "hello") Sample.iv0 Sample.iv1);
    [reflexivity | reflexivity | discriminate | reflexivity].
Defined.

(** C8 as stated fails: with a lone surrogate for plaintext the two blobs
    differ but neither decrypts to the plaintext. *)
Lemma iv_freshness_lone_surrogate :
  ~ (forall (P : Platform) (this : CryptoService) (text : jsstring)
            (iv1 iv2 : list octet),
        length iv1 = 16 -> length iv2 = 16 -> iv1 <> iv2 ->
        exists blob1 blob2,
          encrypt_with this iv1 text = Ok blob1
          /\ encrypt_with this iv2 text = Ok blob2
          /\ blob1 <> blob2
          /\ decrypt this blob1 = Ok text
          /\ decrypt this blob2 = Ok text).
Proof.
  intros H.
  destruct (H toy_platform Sample.service Sample.lone_surrogate
              Sample.iv0 Sample.iv1 eq_refl eq_refl ltac:(discriminate))
    as (b1 & b2 & E1 & _ & _ & D1 & _).
  pose proof (decrypt_encrypt_with toy_platform Sample.service Sample.iv0
                Sample.lone_surrogate eq_refl) as R.
  rewrite E1 in R. cbn [bind] in R. rewrite D1 in R. discriminate R.
Qed.

(** *** Grammar of the blob *)

Lemma count_colons_hex (bs : list octet) : count_colons (Hex.encode bs) = 0.
Proof.
  unfold count_colons.
  induction bs as [|b bs IH]; [reflexivity|].
  cbn [Hex.encode flat_map app filter].
  pose proof (digit_is_lower (Hex.high b)) as H1.
  pose proof (digit_is_lower (Hex.low b)) as H2.
  apply lower_digit_not_colon in H1, H2.
  assert (Hsym : forall c, cunit_eqb c colon = false -> cunit_eqb colon c = false).
  { intros [h l]. unfold cunit_eqb. cbn [cu_hi cu_lo colon].
    now rewrite (Ascii.eqb_sym h), (Ascii.eqb_sym l). }
  rewrite (Hsym _ H1), (Hsym _ H2). exact IH.
Qed.

(** C9: for every plaintext, key and random source, the blob is a
    32-character lowercase-hex IV segment, one colon (the only one), and a
    non-empty lowercase-hex ciphertext segment of even length, namely
    32 * (byteLength(utf8(P)) / 16 + 1) characters. *)
Theorem encrypt_grammar (P : Platform) (this : CryptoService)
        (text : jsstring) (g : Entropy) :
  exists ivHex cipherHex,
    fst (encrypt this text g) = Ok (ivHex ++ colon :: cipherHex)
    /\ length ivHex = 32
    /\ forallb Hex.is_lower_digit ivHex = true
    /\ forallb Hex.is_lower_digit cipherHex = true
    /\ length cipherHex = 32 * (length (Utf8.encode text) / 16 + 1)
    /\ cipherHex <> []
    /\ Nat.even (length cipherHex) = true
    /\ count_colons (ivHex ++ colon :: cipherHex) = 1.
Proof.
  unfold encrypt.
  pose proof (randomBytes_length IV_LENGTH g) as Hl.
  destruct (randomBytes IV_LENGTH g) as [iv g']. cbn [fst] in *.
  destruct (encrypt_with_spec this iv text Hl) as (ct & Henc & Hlen & _).
  exists (Hex.encode iv), (Hex.encode ct).
  assert (Hc : length (Hex.encode ct)
               = 32 * (length (Utf8.encode text) / 16 + 1))
    by (rewrite encode_length; lia).
  repeat split.
  - exact Henc.
  - rewrite encode_length. unfold IV_LENGTH in Hl. lia.
  - apply encode_lower.
  - apply encode_lower.
  - exact Hc.
  - intros H. rewrite H in Hc. cbn in Hc. lia.
  - rewrite Hc. rewrite Nat.even_mul. reflexivity.
  - unfold count_colons. rewrite filter_app. cbn [filter].
    change (cunit_eqb colon colon) with true.
    rewrite length_app. cbn [length].
    fold (count_colons (Hex.encode iv)). fold (count_colons (Hex.encode ct)).
    rewrite !count_colons_hex. reflexivity.
Qed.

End CryptoClaims.

(* ================================================================== *)
(** ** MessageStore: the claims *)

Module StoreClaims.
Import StoreFacts.

Lemma stored_of_valid (msg : Message) :
  in_date_range msg -> reread (stored_of msg) = stored_of msg.
Proof.
  unfold in_date_range, reread, stored_of, DateTime.of_number, TimeClip.
  cbn [date message]. intros H.
  apply Z.leb_le in H. now rewrite H.
Qed.

Lemma reread_idem (l : list StoredMessage) :
  map reread (map reread l) = map reread l.
Proof.
  rewrite map_map. apply map_ext. now intros [[|t] m].
Qed.

Lemma readMessages_absent (P : Platform) (cryptoService : CryptoService)
      (w : World) :
  messages_json w = None -> fst (readMessages cryptoService w) = Ok [].
Proof.
  intros H. unfold readMessages, readEncryptedFile, readEncryptedFile_try,
    fs_readFile.
  rewrite H. now destruct (read_fault w).
Qed.

(** C2: starting from an absent file, appending
    [{date: 1700000000, text: "hello"}] and reading everything back gives
    exactly one entry, with text "hello" and the time value
    1700000000 * 1000, which is 2023-11-14T22:13:20.000Z. *)
Theorem append_then_read_hello (P : Platform)
        (cryptoService : CryptoService) (w : World) :
  messages_json w = None ->
  read_fault w = false ->
  write_fault w = None ->
  fst (readMessages cryptoService
         (snd (appendMessage cryptoService
                 {| msg_date := 1700000000; msg_text := Some (lit "hello") |}
                 w)))
  = Ok [{| date := DateAt (1700000000 * 1000);
           message := VString (lit "hello") |}]
  /\ DateTime.toJSON (DateAt (1700000000 * 1000))
     = Some (lit "2023-11-14T22:13:20.000Z").
Proof.
  intros Hf Hr Hw. split; [|reflexivity].
  pose proof (readMessages_absent P cryptoService w Hf) as Hread.
  destruct (appendMessage_then_read cryptoService
              {| msg_date := 1700000000; msg_text := Some (lit "hello") |}
              w [] Hr Hw Hread eq_refl) as (H & _ & _).
  rewrite H. reflexivity.
Qed.

Lemma append_then_read_hello_witness :
  fst (@readMessages toy_platform Sample.service
         (snd (@appendMessage toy_platform Sample.service Sample.hello
                 (Sample.world None))))
  = Ok [{| date := DateAt (1700000000 * 1000);
           message := VString (lit "hello") |}]
  /\ DateTime.toJSON (DateAt (1700000000 * 1000))
     = Some (lit "2023-11-14T22:13:20.000Z").
Proof.
  apply (append_then_read_hello toy_platform Sample.service
           (Sample.world None)); reflexivity.
Defined.





Example readMessages_garbage :
  fst (@readMessages toy_platform Sample.service Sample.garbage_world)
  = Ok [].
Proof. reflexivity. Qed.




(** C10: a message whose text is absent or empty is stored with the text
    'No text content', and that is the text read back after the append,
    in the last entry of the log. *)
Theorem no_text_content_sentinel (msg : Message) :
  msg_text msg = None \/ msg_text msg = Some [] ->
  message (stored_of msg) = VString (lit "No text content")
  /\ forall (P : Platform) (cryptoService : CryptoService) (w : World)
            (prior : list StoredMessage),
      read_fault w = false ->
      write_fault w = None ->
      fst (readMessages cryptoService w) = Ok prior ->
      forallb scalar_message prior = true ->
      fst (readMessages cryptoService
             (snd (appendMessage cryptoService msg w)))
      = Ok (map reread prior
              ++ [{| date := date (reread (stored_of msg));
                     message := VString (lit "No text content") |}]).
Proof.
  intros Ht.
  assert (Hm : message (stored_of msg) = VString (lit "No text content")).
  { unfold stored_of, text_or_default. cbn [message].
    destruct Ht as [-> | ->]; reflexivity. }
  split; [exact Hm|].
  intros P cryptoService w prior Hr Hw Hread Hp.
  destruct (appendMessage_then_read cryptoService msg w prior
              Hr Hw Hread Hp) as (H & _ & _).
  rewrite H. cbn [fst]. rewrite map_app. cbn [map]. do 3 f_equal.
  unfold reread at 1. now rewrite Hm.
Qed.

Lemma no_text_content_sentinel_witness :
  message (stored_of Sample.empty_text) = VString (lit "No text content")
  /\ forall (P : Platform) (cryptoService : CryptoService) (w : World)
            (prior : list StoredMessage),
      read_fault w = false ->
      write_fault w = None ->
      fst (readMessages cryptoService w) = Ok prior ->
      forallb scalar_message prior = true ->
      fst (readMessages cryptoService
             (snd (appendMessage cryptoService Sample.empty_text w)))
      = Ok (map reread prior
              ++ [{| date := date (reread (stored_of Sample.empty_text));
                     message := VString (lit "No text content") |}]).
Proof.
  apply (no_text_content_sentinel Sample.empty_text). right. reflexivity.
Defined.

End StoreClaims.

(* ================================================================== *)
(** ** [CryptoService]: framing and failures of [decrypt] *)

Module DecryptFacts.
Import HexFacts SplitFacts CbcFacts CryptoServiceFacts CryptoClaims.

Lemma split_app_sep (sep : cunit) (a b : jsstring) :
  split sep (a ++ sep :: b)
  = removelast (split sep a) ++ [last (split sep a) []] ++ split sep b.
Proof.
  induction a as [|c a IH]; cbn [app split].
  - rewrite DateFacts.cunit_eqb_refl. reflexivity.
  - destruct (cunit_eqb c sep) eqn:E.
    + rewrite IH. pose proof (split_nonempty sep a) as Hn.
      destruct (split sep a) as [|h t]; [contradiction|]. reflexivity.
    + rewrite IH. pose proof (split_nonempty sep a) as Hn.
      destruct (split sep a) as [|h t]; [contradiction|].
      destruct t as [|h' t']; reflexivity.
Qed.

Lemma split_length (sep : cunit) (s : jsstring) :
  length (split sep s) = S (length (filter (cunit_eqb sep) s)).
Proof.
  induction s as [|c s IH]; [reflexivity|]. cbn [split filter].
  assert (E : cunit_eqb sep c = cunit_eqb c sep).
  { unfold cunit_eqb. now rewrite (Ascii.eqb_sym (cu_hi sep)),
      (Ascii.eqb_sym (cu_lo sep)). }
  rewrite E. destruct (cunit_eqb c sep).
  - cbn [length]. now rewrite IH.
  - destruct (split sep s) as [|h t] eqn:Es; cbn [length] in *; lia.
Qed.

(** The first two parts are those of the text before a later colon. *)
Lemma split_keeps_two (a b : jsstring) :
  1 <= count_colons a ->
  nth_error (split colon (a ++ colon :: b)) 0 = nth_error (split colon a) 0
  /\ nth_error (split colon (a ++ colon :: b)) 1
     = nth_error (split colon a) 1.
Proof.
  intros H. rewrite split_app_sep.
  pose proof (split_length colon a) as Hl. unfold count_colons in H.
  destruct (split colon a) as [|x [|y t]]; cbn [length] in Hl; try lia.
  cbn [removelast]. destruct t; split; reflexivity.
Qed.

Section WithPlatform.
Context {P : Platform}.
Variable this : CryptoService.

(** [decrypt] reads nothing but the first two parts of its input. *)
Lemma decrypt_by_parts (t u : jsstring) :
  nth_error (split colon t) 0 = nth_error (split colon u) 0 ->
  nth_error (split colon t) 1 = nth_error (split colon u) 1 ->
  decrypt this t = decrypt this u.
Proof. intros H0 H1. unfold decrypt. now rewrite H0, H1. Qed.



End WithPlatform.
End DecryptFacts.

Module CryptoExtras.
Import HexFacts SplitFacts CbcFacts CryptoServiceFacts DecryptFacts.

(** X1: [decrypt] destructures only the first two parts of
    [text.split(':')]: whatever follows a further colon is ignored, so a
    blob with a colon and any text appended decrypts as the blob does. *)
Theorem decrypt_ignores_later_segments (P : Platform)
        (this : CryptoService) (text junk : jsstring) :
  1 <= count_colons text ->
  decrypt this (text ++ colon :: junk) = decrypt this text.
Proof.
  intros H. destruct (split_keeps_two text junk H) as [H0 H1].
  now apply decrypt_by_parts.
Qed.

Lemma decrypt_ignores_later_segments_witness :
  1 <= count_colons Sample.true_blob
  /\ @decrypt toy_platform Sample.service
       (Sample.true_blob ++ colon :: lit "anything:at:all")
     = @decrypt toy_platform Sample.service Sample.true_blob.
Proof.
  assert (H : 1 <= count_colons Sample.true_blob) by (vm_compute; lia).
  split; [exact H|].
  exact (decrypt_ignores_later_segments toy_platform Sample.service
           Sample.true_blob (lit "anything:at:all") H).
Defined.




End CryptoExtras.

(* ================================================================== *)
(** ** [MessageLogService]: what the claims leave out *)

Module StoreMore.
Import StoreFacts StoreClaims DecryptFacts.

Section WithPlatform.
Context {P : Platform}.
Variable cryptoService : CryptoService.

(** What is read depends on the file and on the file system's
    readiness to read it, and on nothing else of the world. *)
Lemma readMessages_ext (w v : World) :
  messages_json w = messages_json v -> read_fault w = read_fault v ->
  fst (readMessages cryptoService w) = fst (readMessages cryptoService v).
Proof.
  intros Hf Hr.
  assert (Ht : readEncryptedFile_try cryptoService w
               = readEncryptedFile_try cryptoService v).
  { unfold readEncryptedFile_try, fs_readFile. now rewrite Hf, Hr. }
  unfold readMessages, readEncryptedFile. rewrite Ht.
  destruct (readEncryptedFile_try cryptoService v); reflexivity.
Qed.

(** When reading raises, [appendMessage] writes nothing. *)
Lemma appendMessage_blocked (msg : Message) (w : World) (e : js_error) :
  fst (readMessages cryptoService w) = Throw e ->
  let w' := snd (appendMessage cryptoService msg w) in
  messages_json w' = messages_json w
  /\ read_fault w' = read_fault w
  /\ console w'
     = console (snd (readMessages cryptoService w))
         ++ [LogError "Error saving message to file:" e].
Proof.
  intros He. unfold appendMessage.
  pose proof (readMessages_frame cryptoService w) as (Hf & Hr & _ & _).
  destruct (readMessages cryptoService w) as [r w1].
  cbn [fst snd] in *. subst r. cbn [snd logged messages_json read_fault console].
  now repeat split.
Qed.

Lemma append_all_read (ms : list Message) :
  forall (m : Message) (w : World) (prior : list StoredMessage),
    read_fault w = false -> write_fault w = None ->
    fst (readMessages cryptoService w) = Ok prior ->
    forallb scalar_message prior = true ->
    fst (readMessages cryptoService (append_all cryptoService (m :: ms) w))
    = Ok (map reread (prior ++ stored_all (m :: ms))).
Proof.
  induction ms as [|m' ms IH]; intros m w prior Hr Hw Hread Hs;
    destruct (appendMessage_then_read cryptoService m w prior Hr Hw Hread Hs)
    as (H1 & Hr1 & Hw1).
  - cbn [append_all stored_all map]. now rewrite H1.
  - change (append_all cryptoService (m :: m' :: ms) w)
      with (append_all cryptoService (m' :: ms)
              (snd (appendMessage cryptoService m w))).
    rewrite (IH m' _ (map reread (prior ++ [stored_of m])) Hr1 Hw1
               ltac:(now rewrite H1)
               ltac:(now rewrite reread_scalar, forallb_app, Hs)).
    f_equal. rewrite map_app, reread_idem, <- map_app, <- app_assoc.
    reflexivity.
Qed.

(** The world after a write that the file system accepts holds the data
    written. *)
Lemma write_then_read (data : list StoredMessage) (w : World) :
  read_fault w = false -> write_fault w = None ->
  Forall (fun e => time_value (date e)) data ->
  forallb scalar_message data = true ->
  fst (readMessages cryptoService
         (snd (writeEncryptedFile cryptoService data w)))
  = Ok (map reread data).
Proof.
  intros Hr Hw Hd Hs.
  destruct (writeEncryptedFile_calm cryptoService data w Hw)
    as (_ & Hh & Hr' & _ & _).
  rewrite (readMessages_holds cryptoService _ data); try assumption.
  - reflexivity.
  - congruence.
Qed.

(** The [catch] of [readEncryptedFile], seen from [readMessages]. *)
Lemma readMessages_caught (w : World) (e : js_error) :
  readEncryptedFile_try cryptoService w = Throw e ->
  readMessages cryptoService w
  = (Ok [],
     if error_has_code e && negb (error_is_enoent e)
     then logged (LogError "Error reading encrypted file:" e) w
     else w).
Proof.
  intros H. unfold readMessages, readEncryptedFile. now rewrite H.
Qed.

End WithPlatform.
End StoreMore.

Module StoreExtras.
Import StoreFacts StoreClaims DecryptFacts StoreMore.

(** X4: of the failures that make [readEncryptedFile] return [null], only
    those that carry a [code] other than ENOENT are logged.  A missing
    file, a file that is not in the [iv:ciphertext] format and a file
    whose plaintext is not JSON are read as the empty log and leave no
    line in the log output; a failure of [fs.readFile] or of the cipher
    leaves exactly one, "Error reading encrypted file:". *)
Theorem readMessages_logs_only_coded_errors (P : Platform)
        (cryptoService : CryptoService) (w : World) :
  (read_fault w = false -> messages_json w = None ->
   readMessages cryptoService w = (Ok [], w))
  /\ (read_fault w = true ->
      readMessages cryptoService w
      = (Ok [],
         logged (LogError "Error reading encrypted file:"
                          (SystemError EOTHER)) w))
  /\ (forall bytes,
         read_fault w = false -> messages_json w = Some bytes ->
         decrypt cryptoService (Utf8.decode bytes) = Throw FormatError ->
         readMessages cryptoService w = (Ok [], w))
  /\ (forall bytes c,
         read_fault w = false -> messages_json w = Some bytes ->
         decrypt cryptoService (Utf8.decode bytes) = Throw (CryptoError c) ->
         readMessages cryptoService w
         = (Ok [],
            logged (LogError "Error reading encrypted file:" (CryptoError c))
                   w))
  /\ (forall bytes text,
         read_fault w = false -> messages_json w = Some bytes ->
         decrypt cryptoService (Utf8.decode bytes) = Ok text ->
         JSON.parse text = Throw SyntaxError ->
         readMessages cryptoService w = (Ok [], w)).
Proof.
  split; [|split; [|split; [|split]]].
  - intros Hr Hf.
    rewrite (readMessages_caught cryptoService w (SystemError ENOENT));
      [reflexivity|].
    unfold readEncryptedFile_try, fs_readFile. now rewrite Hr, Hf.
  - intros Hr.
    rewrite (readMessages_caught cryptoService w (SystemError EOTHER));
      [reflexivity|].
    unfold readEncryptedFile_try, fs_readFile. now rewrite Hr.
  - intros bytes Hr Hf He.
    rewrite (readMessages_caught cryptoService w FormatError);
      [reflexivity|].
    unfold readEncryptedFile_try, fs_readFile. rewrite Hr, Hf.
    cbn [bind]. now rewrite He.
  - intros bytes c Hr Hf He.
    rewrite (readMessages_caught cryptoService w (CryptoError c));
      [reflexivity|].
    unfold readEncryptedFile_try, fs_readFile. rewrite Hr, Hf.
    cbn [bind]. now rewrite He.
  - intros bytes text Hr Hf Hd Hp.
    rewrite (readMessages_caught cryptoService w SyntaxError);
      [reflexivity|].
    unfold readEncryptedFile_try, fs_readFile. rewrite Hr, Hf.
    cbn [bind]. rewrite Hd. cbn [bind]. exact Hp.
Qed.

(** X5: when the file decrypts to JSON that [readMessages] cannot map
    (a value that is not an array, or an array with a [null] element),
    every [appendMessage] fails in its own [catch]: whatever messages are
    appended, the file stays as it was and reading keeps raising. *)
Theorem append_blocked_by_unmappable_file (P : Platform)
        (cryptoService : CryptoService) (w : World) (e : js_error)
        (ms : list Message) :
  fst (readMessages cryptoService w) = Throw e ->
  messages_json (append_all cryptoService ms w) = messages_json w
  /\ fst (readMessages cryptoService (append_all cryptoService ms w))
     = Throw e.
Proof.
  revert w. induction ms as [|m ms IH]; intros w He; cbn [append_all].
  - now split.
  - destruct (appendMessage_blocked cryptoService m w e He) as (Hf & Hr & _).
    assert (He' : fst (readMessages cryptoService
                         (snd (appendMessage cryptoService m w)))
                  = Throw e).
    { rewrite <- He. now apply readMessages_ext. }
    destruct (IH _ He') as [H1 H2]. split; [congruence | exact H2].
Qed.

Lemma append_blocked_by_unmappable_file_witness :
  messages_json (@append_all toy_platform Sample.service
                   [Sample.hello; Sample.bye] Sample.true_world)
  = messages_json Sample.true_world
  /\ fst (@readMessages toy_platform Sample.service
            (@append_all toy_platform Sample.service
               [Sample.hello; Sample.bye] Sample.true_world))
     = Throw TypeError.
Proof.
  apply (append_blocked_by_unmappable_file toy_platform Sample.service
           Sample.true_world TypeError [Sample.hello; Sample.bye]).
  reflexivity.
Defined.

(** X6: without file-system faults, appending any non-empty sequence of
    messages one after the other to a log read as [prior] (texts being
    strings, booleans, [null] or missing) and then reading gives the
    prior entries followed by one entry per message, in the order of the
    appends, dates being kept when valid; the log has grown by the number
    of messages. *)
Theorem append_all_then_read (P : Platform) (cryptoService : CryptoService)
        (w : World) (prior : list StoredMessage) (m : Message)
        (ms : list Message) :
  read_fault w = false ->
  write_fault w = None ->
  fst (readMessages cryptoService w) = Ok prior ->
  forallb scalar_message prior = true ->
  exists log,
    fst (readMessages cryptoService (append_all cryptoService (m :: ms) w))
    = Ok log
    /\ log = map reread (prior ++ stored_all (m :: ms))
    /\ length log = length prior + S (length ms)
    /\ map message log = map message prior ++ map message (stored_all (m :: ms))
    /\ (forallb valid_date prior = true ->
        Forall in_date_range (m :: ms) ->
        log = prior ++ stored_all (m :: ms)).
Proof.
  intros Hr Hw Hread Hs. eexists. split.
  { apply append_all_read; eassumption. }
  split; [reflexivity|]. split.
  { rewrite length_map, length_app. unfold stored_all.
    now rewrite length_map. }
  split.
  { rewrite map_map. rewrite <- map_app. apply map_ext.
    now intros [[|t] x]. }
  intros Hv Hin. rewrite map_app, (reread_valid prior Hv). f_equal.
  unfold stored_all. rewrite map_map.
  apply map_ext_in. intros a Ha. apply stored_of_valid.
  rewrite Forall_forall in Hin. now apply Hin.
Qed.

Lemma append_all_then_read_witness :
  exists log,
    fst (@readMessages toy_platform Sample.service
           (@append_all toy_platform Sample.service
              [Sample.hello; Sample.far_future; Sample.bye]
              (Sample.world None)))
    = Ok log
    /\ log = map reread ([] ++ stored_all [Sample.hello; Sample.far_future;
                                           Sample.bye])
    /\ length log = length (@nil StoredMessage) + 3
    /\ map message log
       = map message []
           ++ map message (stored_all [Sample.hello; Sample.far_future;
                                       Sample.bye])
    /\ (forallb valid_date [] = true ->
        Forall in_date_range [Sample.hello; Sample.far_future; Sample.bye] ->
        log = [] ++ stored_all [Sample.hello; Sample.far_future; Sample.bye]).
Proof.
  apply (append_all_then_read toy_platform Sample.service
           (Sample.world None) [] Sample.hello
           [Sample.far_future; Sample.bye]); reflexivity.
Defined.

(** X7: what [writeEncryptedFile] has written is what [readMessages]
    returns next, entry by entry, for any list of entries whose texts are
    strings, booleans, [null] or missing; only an invalid date comes back
    changed, as the epoch. *)
Theorem write_then_read_back (P : Platform) (cryptoService : CryptoService)
        (data : list StoredMessage) (w : World) :
  read_fault w = false ->
  write_fault w = None ->
  Forall (fun e => time_value (date e)) data ->
  forallb scalar_message data = true ->
  fst (writeEncryptedFile cryptoService data w) = Ok tt
  /\ fst (readMessages cryptoService
            (snd (writeEncryptedFile cryptoService data w)))
     = Ok (map reread data)
  /\ (forallb valid_date data = true ->
      fst (readMessages cryptoService
             (snd (writeEncryptedFile cryptoService data w)))
      = Ok data).
Proof.
  intros Hr Hw Hd Hs.
  pose proof (write_then_read cryptoService data w Hr Hw Hd Hs) as H.
  destruct (writeEncryptedFile_calm cryptoService data w Hw) as (Hok & _).
  repeat split; try assumption.
  intros Hv. now rewrite H, (reread_valid data Hv).
Qed.

Lemma write_then_read_back_witness :
  fst (@writeEncryptedFile toy_platform Sample.service
         [{| date := DateAt 0; message := VNull |};
          {| date := InvalidDate; message := VString (lit "m") |}]
         (Sample.world None)) = Ok tt
  /\ fst (@readMessages toy_platform Sample.service
            (snd (@writeEncryptedFile toy_platform Sample.service
                    [{| date := DateAt 0; message := VNull |};
                     {| date := InvalidDate; message := VString (lit "m") |}]
                    (Sample.world None))))
     = Ok (map reread
             [{| date := DateAt 0; message := VNull |};
              {| date := InvalidDate; message := VString (lit "m") |}])
  /\ (forallb valid_date
        [{| date := DateAt 0; message := VNull |};
         {| date := InvalidDate; message := VString (lit "m") |}] = true ->
      fst (@readMessages toy_platform Sample.service
             (snd (@writeEncryptedFile toy_platform Sample.service
                     [{| date := DateAt 0; message := VNull |};
                      {| date := InvalidDate; message := VString (lit "m") |}]
                     (Sample.world None))))
      = Ok [{| date := DateAt 0; message := VNull |};
            {| date := InvalidDate; message := VString (lit "m") |}]).
Proof.
  apply (write_then_read_back toy_platform Sample.service
           [{| date := DateAt 0; message := VNull |};
            {| date := InvalidDate; message := VString (lit "m") |}]
           (Sample.world None)); try reflexivity.
  constructor; [cbn; unfold maxTime; lia|].
  constructor; [exact I | constructor].
Defined.





End StoreExtras.

(* ================================================================== *)
(** ** Strings *)

Module StringFacts.
Import JSONStringFacts.

Lemma starts_with_app (p s : jsstring) : starts_with p (p ++ s) = true.
Proof.
  induction p as [|c p IH]; [reflexivity|]. cbn [app starts_with].
  now rewrite DateFacts.cunit_eqb_refl, IH.
Qed.

Lemma starts_with_inv (p s : jsstring) :
  starts_with p s = true -> exists r, s = p ++ r.
Proof.
  revert s. induction p as [|c p IH]; intros s H.
  - now exists s.
  - destruct s as [|d s]; [discriminate|]. cbn [starts_with] in H.
    apply andb_true_iff in H as [Hc Hp]. apply cunit_eqb_eq in Hc as ->.
    destruct (IH s Hp) as [r ->]. now exists r.
Qed.

Lemma includes_app (needle x y : jsstring) :
  includes needle (x ++ needle ++ y) = true.
Proof.
  induction x as [|c x IH].
  - cbn [app]. destruct (needle ++ y) eqn:E; cbn [includes];
      rewrite <- E, starts_with_app; reflexivity.
  - cbn [app includes]. rewrite IH. apply orb_true_r.
Qed.

Lemma includes_inv (needle hay : jsstring) :
  includes needle hay = true -> exists x y, hay = x ++ needle ++ y.
Proof.
  induction hay as [|c hay IH]; cbn [includes]; intros H.
  - rewrite orb_false_r in H. apply starts_with_inv in H as [r ->].
    now exists [], r.
  - apply orb_true_iff in H as [H|H].
    + apply starts_with_inv in H as [r ->]. now exists [], r.
    + destruct (IH H) as (x & y & ->). now exists (c :: x), y.
Qed.

Lemma join_cons (sep x : jsstring) (l : list jsstring) :
  l <> [] -> join sep (x :: l) = x ++ sep ++ join sep l.
Proof. destruct l; [contradiction | reflexivity]. Qed.

Lemma join_app (sep : jsstring) (a b : list jsstring) :
  a <> [] -> b <> [] ->
  join sep (a ++ b) = join sep a ++ sep ++ join sep b.
Proof.
  intros Ha Hb. induction a as [|x a IH]; [contradiction|].
  destruct a as [|y a].
  - cbn [app]. now rewrite join_cons.
  - change ((x :: y :: a) ++ b) with (x :: ((y :: a) ++ b)).
    rewrite join_cons by discriminate.
    rewrite IH by discriminate.
    rewrite (join_cons sep x (y :: a)) by discriminate.
    now rewrite <- !app_assoc.
Qed.


(** *** [trim] *)

Lemma trimStart_head (s : jsstring) :
  match trimStart s with
  | [] => True
  | c :: _ => is_space c = false
  end.
Proof.
  induction s as [|c s IH]; [exact I|]. cbn [trimStart].
  destruct (is_space c) eqn:E; [exact IH | exact E].
Qed.

Lemma trimStart_suffix (s : jsstring) : exists p, s = p ++ trimStart s.
Proof.
  induction s as [|c s [p IH]]; [now exists []|]. cbn [trimStart].
  destruct (is_space c).
  - exists (c :: p). cbn [app]. now f_equal.
  - now exists [].
Qed.

(** Dropping spaces at the end keeps the first character. *)
Lemma trimEnd_head (c : cunit) (s : jsstring) :
  is_space c = false -> exists r, trimEnd (c :: s) = c :: r.
Proof.
  intros Hc. unfold trimEnd. cbn [rev].
  assert (H : forall a, exists r, rev (trimStart (a ++ [c])) = c :: r).
  { induction a as [|d a [r IH]].
    - cbn [app trimStart]. rewrite Hc. now exists [].
    - cbn [app trimStart]. destruct (is_space d).
      + now exists r.
      + cbn [rev]. rewrite rev_app_distr. cbn [rev app]. eauto. }
  apply H.
Qed.

Lemma trimEnd_last (s : jsstring) :
  match rev (trimEnd s) with
  | [] => True
  | c :: _ => is_space c = false
  end.
Proof. unfold trimEnd. rewrite rev_involutive. apply trimStart_head. Qed.

(** The result of [trim] is empty or has no space at either end. *)
Lemma trim_ends (s : jsstring) :
  trim s = []
  \/ (exists c r, trim s = c :: r /\ is_space c = false)
     /\ (exists r c, trim s = r ++ [c] /\ is_space c = false).
Proof.
  unfold trim. pose proof (trimStart_head s) as Hh.
  destruct (trimStart s) as [|c t] eqn:E; [now left|]. right.
  destruct (trimEnd_head c t Hh) as [r Hr]. split.
  - now exists c, r.
  - pose proof (trimEnd_last (c :: t)) as Hl.
    destruct (rev (trimEnd (c :: t))) as [|d u] eqn:Er.
    + apply (f_equal (@rev cunit)) in Er. rewrite rev_involutive in Er.
      rewrite Hr in Er. discriminate.
    + exists (rev u), d. split; [|exact Hl].
      apply (f_equal (@rev cunit)) in Er. rewrite rev_involutive in Er.
      exact Er.
Qed.

(** *** [toLowerCase] *)

Section WithRuntime.
Context {R : Runtime}.

Lemma lower_from_app (whole a b : jsstring) (i : nat) :
  lower_from whole i (a ++ b)
  = lower_from whole i a ++ lower_from whole (i + length a) b.
Proof.
  revert i. induction a as [|c a IH]; intros i; cbn [app lower_from length].
  - now rewrite Nat.add_0_r.
  - rewrite IH, <- app_assoc. now rewrite Nat.add_succ_r.
Qed.

Lemma lower_from_ascii (whole s : jsstring) (i : nat) :
  forallb is_ascii s = true -> lower_from whole i s = map lower_ascii s.
Proof.
  revert i. induction s as [|c s IH]; intros i; [reflexivity|].
  cbn [forallb lower_from map]. intros H.
  apply andb_true_iff in H as [Hc Hs]. now rewrite Hc, IH.
Qed.

Lemma toLowerCase_ascii (s : jsstring) :
  forallb is_ascii s = true -> toLowerCase s = map lower_ascii s.
Proof. apply lower_from_ascii. Qed.

(** A run of code units below 128 is lowered in place, whatever
    surrounds it. *)
Lemma toLowerCase_run (pre s post : jsstring) :
  forallb is_ascii s = true ->
  exists x y, toLowerCase (pre ++ s ++ post) = x ++ map lower_ascii s ++ y.
Proof.
  intros H. unfold toLowerCase. rewrite !lower_from_app.
  rewrite (lower_from_ascii _ s _ H). eauto.
Qed.

End WithRuntime.

Lemma lower_ascii_is_ascii (c : cunit) :
  is_ascii (lower_ascii c) = true -> is_ascii c = true.
Proof.
  unfold lower_ascii, is_ascii.
  destruct ((65 <=? code c) && (code c <=? 90))%N eqn:E; [|trivial].
  intros _. apply andb_true_iff in E as [_ E].
  apply N.leb_le in E. apply N.ltb_lt. lia.
Qed.

Lemma lowered_ascii (s t : jsstring) :
  map lower_ascii s = t -> forallb is_ascii t = true ->
  forallb is_ascii s = true.
Proof.
  intros <-. induction s as [|c s IH]; [reflexivity|].
  cbn [map forallb]. intros H. apply andb_true_iff in H as [Hc Hs].
  now rewrite (lower_ascii_is_ascii c Hc), IH.
Qed.

End StringFacts.

(* ================================================================== *)
(** ** [AiSummaryService] *)

Module AiFacts.
Import StringFacts StoreFacts StoreClaims.

Section WithRuntime.
Context {R : Runtime}.

Lemma map_outcome_app {A B} (f : A -> outcome B) (a b : list A) :
  map_outcome f (a ++ b)
  = match map_outcome f a with
    | Done x =>
        match map_outcome f b with
        | Done y => Done (x ++ y)
        | Raised e => Raised e
        end
    | Raised e => Raised e
    end.
Proof.
  induction a as [|x a IH]; cbn [app map_outcome].
  - now destruct (map_outcome f b).
  - destruct (f x); [|reflexivity]. rewrite IH.
    destruct (map_outcome f a); [|reflexivity].
    now destruct (map_outcome f b).
Qed.

Lemma map_outcome_length {A B} (f : A -> outcome B) (l : list A)
      (r : list B) :
  map_outcome f l = Done r -> length r = length l.
Proof.
  revert r. induction l as [|x l IH]; intros r; cbn [map_outcome].
  - now intros [= <-].
  - destruct (f x); [|discriminate].
    destruct (map_outcome f l) as [bs|]; [|discriminate].
    intros [= <-]. cbn [length]. now rewrite (IH bs).
Qed.

Lemma log_line_of_scalar (e : StoredMessage) :
  scalar_message e = true -> valid_date e = true ->
  log_line_of e = Done (entry_line e).
Proof.
  destruct e as [[|t] m]; [discriminate|].
  unfold scalar_message, log_line_of, entry_line. cbn [date message].
  now destruct m as [| |[|]| | | |].
Qed.

Lemma log_line_of_invalid (e : StoredMessage) :
  valid_date e = false -> log_line_of e = Raised RangeError.
Proof. destruct e as [[|t] m]; [reflexivity | discriminate]. Qed.

Lemma lines_of_scalar (l : list StoredMessage) :
  forallb scalar_message l = true -> dated l = true ->
  map_outcome log_line_of l = Done (map entry_line l).
Proof.
  unfold dated. induction l as [|e l IH]; [reflexivity|].
  cbn [forallb map map_outcome]. intros Hs Hd.
  apply andb_true_iff in Hs as [Hs1 Hs2].
  apply andb_true_iff in Hd as [Hd1 Hd2].
  now rewrite log_line_of_scalar, IH.
Qed.

Lemma lines_of_undated (l : list StoredMessage) :
  forallb scalar_message l = true -> dated l = false ->
  map_outcome log_line_of l = Raised RangeError.
Proof.
  unfold dated. induction l as [|e l IH]; [discriminate|].
  cbn [forallb map_outcome]. intros Hs Hd.
  apply andb_true_iff in Hs as [Hs1 Hs2].
  destruct (valid_date e) eqn:Ev.
  - rewrite log_line_of_scalar by assumption. now rewrite IH.
  - now rewrite log_line_of_invalid.
Qed.



End WithRuntime.
End AiFacts.

Module AiExtras.
Import StringFacts StoreFacts StoreClaims AiFacts.

(** X8: for a log whose texts are strings, booleans, [null] or missing,
    [formatLogForAI] returns the lines [[date] text] joined by newlines
    when every date is valid, and raises the RangeError of [toISOString]
    as soon as one date is invalid. *)
Theorem formatLogForAI_needs_valid_dates (R : Runtime)
        (l : list StoredMessage) :
  forallb scalar_message l = true ->
  (dated l = true ->
   formatLogForAI l = Done (join [JSON.newline] (map entry_line l)))
  /\ (dated l = false -> formatLogForAI l = Raised RangeError).
Proof.
  intros Hs. unfold formatLogForAI. split; intros Hd.
  - now rewrite lines_of_scalar.
  - now rewrite lines_of_undated.
Qed.

Lemma formatLogForAI_needs_valid_dates_witness :
  (dated [{| date := DateAt 0; message := VString (lit "a") |};
          {| date := InvalidDate; message := VString (lit "m") |}] = true ->
   @formatLogForAI toy_runtime
     [{| date := DateAt 0; message := VString (lit "a") |};
      {| date := InvalidDate; message := VString (lit "m") |}]
   = Done (join [JSON.newline]
             (map entry_line
                [{| date := DateAt 0; message := VString (lit "a") |};
                 {| date := InvalidDate; message := VString (lit "m") |}])))
  /\ (dated [{| date := DateAt 0; message := VString (lit "a") |};
             {| date := InvalidDate; message := VString (lit "m") |}] = false ->
      @formatLogForAI toy_runtime
        [{| date := DateAt 0; message := VString (lit "a") |};
         {| date := InvalidDate; message := VString (lit "m") |}]
      = Raised RangeError).
Proof.
  apply (formatLogForAI_needs_valid_dates toy_runtime
           [{| date := DateAt 0; message := VString (lit "a") |};
            {| date := InvalidDate; message := VString (lit "m") |}]).
  reflexivity.
Defined.

(** X9: the formatted text of two non-empty logs one after the other is
    the text of the first, a newline and the text of the second; and if
    formatting either raises, formatting the whole raises. *)
Theorem formatLogForAI_app (R : Runtime) (a b : list StoredMessage) :
  a <> [] -> b <> [] ->
  formatLogForAI (a ++ b)
  = match formatLogForAI a, formatLogForAI b with
    | Done x, Done y => Done (x ++ JSON.newline :: y)
    | Raised e, _ => Raised e
    | Done _, Raised e => Raised e
    end.
Proof.
  intros Ha Hb. unfold formatLogForAI. rewrite map_outcome_app.
  destruct (map_outcome log_line_of a) as [x|e] eqn:Ex; [|reflexivity].
  destruct (map_outcome log_line_of b) as [y|e] eqn:Ey; [|reflexivity].
  f_equal. apply (join_app [JSON.newline]).
  - apply map_outcome_length in Ex. destruct x; [|discriminate].
    destruct a; [contradiction | discriminate].
  - apply map_outcome_length in Ey. destruct y; [|discriminate].
    destruct b; [contradiction | discriminate].
Qed.

Lemma formatLogForAI_app_witness :
  @formatLogForAI toy_runtime
    ([stored_of Sample.hello] ++ [stored_of Sample.bye])
  = match @formatLogForAI toy_runtime [stored_of Sample.hello],
          @formatLogForAI toy_runtime [stored_of Sample.bye] with
    | Done x, Done y => Done (x ++ JSON.newline :: y)
    | Raised e, _ => Raised e
    | Done _, Raised e => Raised e
    end.
Proof.
  apply (formatLogForAI_app toy_runtime [stored_of Sample.hello]
           [stored_of Sample.bye]); discriminate.
Defined.

(** X27: the formatted log does not tell where an entry ends: a single
    entry whose text holds a newline followed by the line of another entry
    is formatted exactly as the two entries are. *)
Theorem formatLogForAI_not_injective (R : Runtime) (t : Z) (s : jsstring)
        (e : StoredMessage) :
  valid_date e = true ->
  scalar_message e = true ->
  formatLogForAI
    [{| date := DateAt t;
        message := VString (s ++ JSON.newline :: entry_line e) |}]
  = formatLogForAI [{| date := DateAt t; message := VString s |}; e].
Proof.
  intros Hv Hs. unfold formatLogForAI. cbn [map_outcome].
  rewrite (log_line_of_scalar e Hs Hv).
  unfold log_line_of. cbn [date message template_text join].
  now rewrite <- !app_assoc.
Qed.

Lemma formatLogForAI_not_injective_witness :
  @formatLogForAI toy_runtime
    [{| date := DateAt 0;
        message := VString (lit "a" ++ JSON.newline
                              :: entry_line (stored_of Sample.hello)) |}]
  = @formatLogForAI toy_runtime
      [{| date := DateAt 0; message := VString (lit "a") |};
       stored_of Sample.hello].
Proof.
  apply (formatLogForAI_not_injective toy_runtime 0 (lit "a")
           (stored_of Sample.hello)); reflexivity.
Defined.



(** X11: [generatePsychologicalSummary] makes exactly one request, for
    the model gemma3:12b with a prompt that holds the log between a fixed
    head and a fixed tail, and touches neither the store nor the bot.  It
    returns only when the server answered with a response, and then
    returns that response trimmed, which is empty or has no white space at
    either end; every failure surfaces as the one error 'Failed to
    generate psychological analysis'. *)
Theorem generatePsychologicalSummary_outcomes (R : Runtime)
        (logContent : jsstring) (n : Net) :
  let r := fst (generatePsychologicalSummary logContent n) in
  let n' := snd (generatePsychologicalSummary logContent n) in
  requests n' = requests n ++ [request_for logContent]
  /\ prompt (request_for logContent) = prompt_head ++ logContent ++ prompt_tail
  /\ store n' = store n
  /\ calls n' = calls n
  /\ match ollama n (length (requests n)) (request_for logContent) with
     | Generated response =>
         r = Done (trim response)
         /\ (trim response = []
             \/ (exists c s, trim response = c :: s /\ is_space c = false)
                /\ (exists s c, trim response = s ++ [c]
                                /\ is_space c = false))
     | Garbled | Refused => r = Raised AnalysisFailed
     end.
Proof.
  unfold generatePsychologicalSummary, try_catch, mbind, ollama_generate,
    log, ret, raise.
  destruct (ollama n (length (requests n)) (request_for logContent))
    as [response| |]; cbn [fst snd requests store calls];
    repeat split; apply trim_ends.
Qed.

End AiExtras.

(* ================================================================== *)
(** ** [TelegramService] *)

Module TelegramFacts.
Import StringFacts StoreFacts StoreClaims StoreMore AiFacts.

(** Unfolds the effects of the services down to the servers' replies. *)
Ltac run :=
  unfold summarizeCaptainLog, generatePsychologicalSummary, try_catch,
    mbind, bot, on_store, log, ollama_generate, ret, raise, with_store;
  cbn [fst snd store ollama requests telegram calls journal].

(** Case analysis on the innermost reply that the computation waits
    for. *)
Ltac reply :=
  match goal with
  | |- context [match ?x with _ => _ end] =>
      lazymatch x with
      | context [match _ with _ => _ end] => fail
      | _ => destruct x eqn:?
      end
  end;
  cbn [fst snd store ollama requests telegram calls journal] in *.

Ltac settle :=
  cbn [fst snd store ollama requests telegram calls journal length Nat.eqb].

Ltac never_rejected Hup :=
  try solve [exfalso; eapply Hup; eassumption].

(** Names the result of a computation, and turns the goal into one about
    its unfolded form. *)
Ltac result_of m r n' :=
  let E := fresh "E" in
  destruct m as [r n'] eqn:E; cbn [fst snd]; revert E; run.

Ltac after_calls :=
  cbn [calls requests store]; rewrite <- ?app_assoc; cbn [app].

Lemma up_scene (w : World) (reply : ollama_reply) :
  telegram_up (Scene.net w reply).
Proof. intros i c. discriminate. Qed.

Section WithPlatform.
Context {P : Platform} {R : Runtime}.
Variable cryptoService : CryptoService.

(** What [summarizeCaptainLog] leaves alone. *)
Lemma summarize_frame (chatId : Z) (n : Net) :
  let n' := snd (summarizeCaptainLog cryptoService chatId n) in
  messages_json (store n') = messages_json (store n)
  /\ entropy (store n') = entropy (store n)
  /\ (requests n' = requests n
      \/ exists logContent, requests n' = requests n ++ [request_for logContent])
  /\ exists cs,
      calls n' = calls n ++ SendChatAction chatId (lit "typing") :: cs
      /\ Forall (fun c => call_chat c = chatId) cs
      /\ length cs <= 4.
Proof.
  pose proof (readMessages_frame cryptoService (store n)) as (Hf & _ & _ & He).
  result_of (summarizeCaptainLog cryptoService chatId n) r n'.
  repeat reply; intros [= <- <-]; after_calls;
    (split; [first [exact Hf | reflexivity]|]);
    (split; [first [exact He | reflexivity]|]);
    (split; [first [now left | right; eexists; reflexivity]|]);
    eexists; (split; [reflexivity|]);
    (split; [repeat constructor | cbn [length]; lia]).
Qed.

(** How [summarizeCaptainLog] can end. *)
Lemma summarize_rejection (chatId : Z) (n : Net) (e : service_error) :
  fst (summarizeCaptainLog cryptoService chatId n) = Raised e ->
  e = TelegramError
  /\ exists cs,
      calls (snd (summarizeCaptainLog cryptoService chatId n))
      = cs ++ [SendMessage chatId Text.try_again true]
      /\ telegram n (length cs) (SendMessage chatId Text.try_again true)
         = Rejected.
Proof.
  result_of (summarizeCaptainLog cryptoService chatId n) r n'.
  repeat reply; intros [= <- <-]; try discriminate;
    intros [= <-]; (split; [reflexivity|]);
    eexists; (split; [reflexivity|]); assumption.
Qed.

Lemma summarize_up (chatId : Z) (n : Net) :
  telegram_up n ->
  fst (summarizeCaptainLog cryptoService chatId n) = Done tt.
Proof.
  intros Hup.
  destruct (fst (summarizeCaptainLog cryptoService chatId n)) as [[]|e] eqn:E;
    [reflexivity|].
  destruct (summarize_rejection chatId n e E) as (_ & cs & _ & Hr).
  exfalso. exact (Hup _ _ Hr).
Qed.

Lemma next_call (n : Net) (c d : bot_call) (reply : telegram_reply) :
  telegram n (length (calls n) + 1) d = reply ->
  telegram n (length (calls n ++ [c])) d = reply.
Proof. now rewrite length_app. Qed.

Lemma summarize_answered (chatId : Z) (n : Net)
      (log : list StoredMessage) (logContent response : jsstring)
      (id : Z) :
  telegram_up n ->
  fst (readMessages cryptoService (store n)) = Ok log ->
  log <> [] ->
  formatLogForAI log = Done logContent ->
  ollama n (length (requests n)) (request_for logContent)
  = Generated response ->
  telegram n (length (calls n) + 1)
           (SendMessage chatId Text.on_the_case true) = Delivered id ->
  fst (summarizeCaptainLog cryptoService chatId n) = Done tt
  /\ calls (snd (summarizeCaptainLog cryptoService chatId n))
     = calls n ++ [SendChatAction chatId (lit "typing");
                   SendMessage chatId Text.on_the_case true;
                   EditMessageText (Text.analysis (trim response)) chatId
                                   id true]
  /\ requests (snd (summarizeCaptainLog cryptoService chatId n))
     = requests n ++ [request_for logContent].
Proof.
  intros Hup Hread Hne Hfmt Hol Hid.
  apply (next_call n (SendChatAction chatId (lit "typing"))) in Hid.
  destruct (readMessages cryptoService (store n)) as [r0 w] eqn:Er.
  cbn [fst] in Hread. subst r0.
  destruct log as [|e0 log0]; [contradiction|].
  result_of (summarizeCaptainLog cryptoService chatId n) r n'.
  repeat (repeat (progress (rewrite ?Er, ?Hfmt, ?Hol, ?Hid; settle));
          try (reply; never_rejected Hup)).
  all: intros [= <- <-]; after_calls; now repeat split.
Qed.

End WithPlatform.
End TelegramFacts.

Module HandlerFacts.
Import StringFacts StoreFacts StoreClaims StoreMore AiFacts TelegramFacts.

Section WithPlatform.
Context {P : Platform} {R : Runtime}.
Variable cryptoService : CryptoService.

Lemma appendMessage_ok (msg : Message) (w : World) :
  fst (appendMessage cryptoService msg w) = Ok tt.
Proof.
  unfold appendMessage.
  destruct (readMessages cryptoService w) as [[prior|e] w1]; [|reflexivity].
  destruct (writeEncryptedFile cryptoService _ w1) as [[u|e] w2];
    reflexivity.
Qed.

Lemma appendMessage_refused (msg : Message) (w : World)
      (prior : list StoredMessage) (residue : option (list octet)) :
  write_fault w = Some residue ->
  fst (readMessages cryptoService w) = Ok prior ->
  messages_json (snd (appendMessage cryptoService msg w)) = residue.
Proof.
  intros Hw Hr. unfold appendMessage.
  pose proof (readMessages_frame cryptoService w) as (_ & _ & Hwf & _).
  destruct (readMessages cryptoService w) as [r w1].
  cbn [fst snd] in *. subst r.
  destruct (writeEncryptedFile_fault cryptoService
              (prior ++ [stored_of msg]) w1 residue ltac:(congruence))
    as (Hres & Hfile & _).
  destruct (writeEncryptedFile cryptoService _ w1) as [res w2].
  cbn [fst snd] in *. subst res. exact Hfile.
Qed.

(** The command, in any mix of upper and lower case, anywhere in the
    text. *)
Lemma command_found (pre p post : jsstring) :
  map lower_ascii p = Text.command ->
  asks_for_summary (Some (pre ++ p ++ post)) = true.
Proof.
  intros Hp. unfold asks_for_summary.
  assert (Ha : forallb is_ascii p = true)
    by (apply (lowered_ascii p Text.command Hp); reflexivity).
  destruct (toLowerCase_run pre p post Ha) as (x & y & ->).
  rewrite Hp. apply includes_app.
Qed.

Lemma command_in_ascii (t : jsstring) :
  forallb is_ascii t = true ->
  asks_for_summary (Some t) = true ->
  exists pre p post,
    t = pre ++ p ++ post /\ map lower_ascii p = Text.command.
Proof.
  intros Ha. unfold asks_for_summary. rewrite (toLowerCase_ascii t Ha).
  intros H. apply includes_inv in H as (x & y & H).
  apply map_eq_app in H as (pre & rest & -> & _ & H).
  apply map_eq_app in H as (p & post & -> & Hp & _).
  now exists pre, p, post.
Qed.

Lemma on_message_command (msg : Incoming) (n : Net) :
  asks_for_summary (msg_text (content msg)) = true ->
  on_message cryptoService msg n
  = summarizeCaptainLog cryptoService (chat_id msg) (noted msg n).
Proof.
  intros H. unfold on_message, mbind, noted, log. cbn [snd].
  now rewrite H.
Qed.

Lemma on_message_ordinary (msg : Incoming) (n : Net) :
  asks_for_summary (msg_text (content msg)) = false ->
  let n' := snd (on_message cryptoService msg n) in
  store n' = snd (appendMessage cryptoService (content msg) (store n))
  /\ calls n' = calls n ++ [SendMessage (chat_id msg) Text.received false]
  /\ requests n' = requests n
  /\ ollama n' = ollama n
  /\ telegram n' = telegram n
  /\ fst (on_message cryptoService msg n)
     = match telegram n (length (calls n))
                      (SendMessage (chat_id msg) Text.received false) with
       | Delivered _ => Done tt
       | Rejected => Raised TelegramError
       end.
Proof.
  intros H.
  pose proof (appendMessage_ok (content msg) (store n)) as Hok.
  destruct (on_message cryptoService msg n) as [r n'] eqn:E.
  cbn [fst snd]. revert E.
  unfold on_message, mbind, log, on_store, bot, ret, with_store.
  settle. rewrite H. settle.
  destruct (appendMessage cryptoService (content msg) (store n))
    as [r0 w]. cbn [fst snd] in *. subst r0. settle.
  destruct (telegram n (length (calls n))
                     (SendMessage (chat_id msg) Text.received false));
    intros [= <- <-]; settle; now repeat split.
Qed.

Lemma noted_frame (msg : Incoming) (n : Net) :
  store (noted msg n) = store n
  /\ calls (noted msg n) = calls n
  /\ requests (noted msg n) = requests n
  /\ ollama (noted msg n) = ollama n
  /\ telegram (noted msg n) = telegram n.
Proof. now repeat split. Qed.

Lemma on_message_rejection (msg : Incoming) (n : Net) (e : service_error) :
  fst (on_message cryptoService msg n) = Raised e -> e = TelegramError.
Proof.
  destruct (asks_for_summary (msg_text (content msg))) eqn:Ha.
  - rewrite (on_message_command msg n Ha). intros H.
    now apply summarize_rejection in H.
  - destruct (on_message_ordinary msg n Ha) as (_ & _ & _ & _ & _ & ->).
    destruct (telegram n _ _); [discriminate | congruence].
Qed.

Lemma on_message_up (msg : Incoming) (n : Net) :
  telegram_up n -> fst (on_message cryptoService msg n) = Done tt.
Proof.
  intros Hup.
  destruct (asks_for_summary (msg_text (content msg))) eqn:Ha.
  - rewrite (on_message_command msg n Ha). apply summarize_up.
    intros i c. apply Hup.
  - destruct (on_message_ordinary msg n Ha) as (_ & _ & _ & _ & _ & ->).
    destruct (telegram n _ _) eqn:E; [reflexivity|].
    exfalso. exact (Hup _ _ E).
Qed.

End WithPlatform.
End HandlerFacts.

Module TelegramExtras.
Import StringFacts StoreFacts StoreClaims StoreMore AiFacts TelegramFacts
  HandlerFacts.

(** X12: when the log reads as empty (no file, an unreadable file or an
    empty array) and the servers deliver, [summarizeCaptainLog] sends the
    typing action and then "Captain's log is empty.", asks the model
    nothing and returns normally. *)
Theorem summarize_reports_empty_log (P : Platform) (R : Runtime)
        (cryptoService : CryptoService) (chatId : Z) (n : Net) :
  telegram_up n ->
  fst (readMessages cryptoService (store n)) = Ok [] ->
  fst (summarizeCaptainLog cryptoService chatId n) = Done tt
  /\ calls (snd (summarizeCaptainLog cryptoService chatId n))
     = calls n ++ [SendChatAction chatId (lit "typing");
                   SendMessage chatId Text.log_is_empty false]
  /\ requests (snd (summarizeCaptainLog cryptoService chatId n))
     = requests n.
Proof.
  intros Hup Hread.
  destruct (readMessages cryptoService (store n)) as [r0 w] eqn:Er.
  cbn [fst] in Hread. subst r0.
  result_of (summarizeCaptainLog cryptoService chatId n) r n'.
  repeat (reply; never_rejected Hup; rewrite ?Er; cbn [length Nat.eqb]).
  intros [= <- <-]. after_calls. now repeat split.
Qed.

Lemma summarize_reports_empty_log_witness :
  fst (@summarizeCaptainLog toy_platform toy_runtime Sample.service 7
         (Scene.net (Sample.world None) Refused)) = Done tt
  /\ calls (snd (@summarizeCaptainLog toy_platform toy_runtime Sample.service 7
                   (Scene.net (Sample.world None) Refused)))
     = calls (Scene.net (Sample.world None) Refused)
         ++ [SendChatAction 7 (lit "typing");
             SendMessage 7 Text.log_is_empty false]
  /\ requests (snd (@summarizeCaptainLog toy_platform toy_runtime
                      Sample.service 7
                      (Scene.net (Sample.world None) Refused)))
     = requests (Scene.net (Sample.world None) Refused).
Proof.
  apply (summarize_reports_empty_log toy_platform toy_runtime Sample.service
           7 (Scene.net (Sample.world None) Refused)).
  - apply up_scene.
  - reflexivity.
Defined.

(** X13: [summarizeCaptainLog] returns normally whenever the servers
    deliver, whatever the file holds and whatever the model does.  It
    rejects only with the error of a rejected bot call, and only after
    the last call it made, the apology sent from its outer [catch], was
    itself rejected. *)
Theorem summarize_rejects_only_with_apology (P : Platform) (R : Runtime)
        (cryptoService : CryptoService) (chatId : Z) (n : Net) :
  (telegram_up n ->
   fst (summarizeCaptainLog cryptoService chatId n) = Done tt)
  /\ (forall e,
         fst (summarizeCaptainLog cryptoService chatId n) = Raised e ->
         e = TelegramError
         /\ exists cs,
             calls (snd (summarizeCaptainLog cryptoService chatId n))
             = cs ++ [SendMessage chatId Text.try_again true]
             /\ telegram n (length cs)
                          (SendMessage chatId Text.try_again true)
                = Rejected).
Proof.
  split.
  - apply summarize_up.
  - intros e. apply summarize_rejection.
Qed.

(** X14: [summarizeCaptainLog] never changes the log file and draws no
    random bytes; it asks the model at most once; its first call of the
    bot is the typing action and it makes at most four more, all
    addressed to the chat that asked. *)
Theorem summarize_keeps_store (P : Platform) (R : Runtime)
        (cryptoService : CryptoService) (chatId : Z) (n : Net) :
  let n' := snd (summarizeCaptainLog cryptoService chatId n) in
  messages_json (store n') = messages_json (store n)
  /\ entropy (store n') = entropy (store n)
  /\ (requests n' = requests n
      \/ exists logContent,
           requests n' = requests n ++ [request_for logContent])
  /\ exists cs,
      calls n' = calls n ++ SendChatAction chatId (lit "typing") :: cs
      /\ Forall (fun c => call_chat c = chatId) cs
      /\ length cs <= 4.
Proof. apply summarize_frame. Qed.

(** X15: with a non-empty log that can be formatted, servers that
    deliver and a model that answers, [summarizeCaptainLog] sends the
    typing action and the "on the case" message, asks the model once with
    the formatted log, and edits that message into the analysis: the
    model's response, trimmed, under the heading. *)
Theorem summarize_sends_analysis (P : Platform) (R : Runtime)
        (cryptoService : CryptoService) (chatId : Z) (n : Net)
        (log : list StoredMessage) (logContent response : jsstring)
        (id : Z) :
  telegram_up n ->
  fst (readMessages cryptoService (store n)) = Ok log ->
  log <> [] ->
  formatLogForAI log = Done logContent ->
  ollama n (length (requests n)) (request_for logContent)
  = Generated response ->
  telegram n (length (calls n) + 1)
           (SendMessage chatId Text.on_the_case true) = Delivered id ->
  fst (summarizeCaptainLog cryptoService chatId n) = Done tt
  /\ calls (snd (summarizeCaptainLog cryptoService chatId n))
     = calls n ++ [SendChatAction chatId (lit "typing");
                   SendMessage chatId Text.on_the_case true;
                   EditMessageText (Text.analysis (trim response)) chatId
                                   id true]
  /\ requests (snd (summarizeCaptainLog cryptoService chatId n))
     = requests n ++ [request_for logContent].
Proof. apply summarize_answered. Qed.

Lemma summarize_sends_analysis_witness :
  fst (@summarizeCaptainLog toy_platform toy_runtime Sample.service 7
         (Scene.net Scene.one_entry (Generated (lit " {ok} ")))) = Done tt
  /\ calls (snd (@summarizeCaptainLog toy_platform toy_runtime Sample.service
                   7 (Scene.net Scene.one_entry (Generated (lit " {ok} ")))))
     = calls (Scene.net Scene.one_entry (Generated (lit " {ok} ")))
         ++ [SendChatAction 7 (lit "typing");
             SendMessage 7 Text.on_the_case true;
             EditMessageText (Text.analysis (trim (lit " {ok} "))) 7 1 true]
  /\ requests (snd (@summarizeCaptainLog toy_platform toy_runtime
                      Sample.service 7
                      (Scene.net Scene.one_entry (Generated (lit " {ok} ")))))
     = requests (Scene.net Scene.one_entry (Generated (lit " {ok} ")))
         ++ [request_for Scene.hello_line].
Proof.
  apply (summarize_sends_analysis toy_platform toy_runtime Sample.service 7
           (Scene.net Scene.one_entry (Generated (lit " {ok} ")))
           [stored_of Sample.hello] Scene.hello_line (lit " {ok} ") 1).
  - apply up_scene.
  - reflexivity.
  - discriminate.
  - reflexivity.
  - reflexivity.
  - reflexivity.
Defined.

(** X16: when the model's server refuses the request or answers without a
    response, the "on the case" message is edited into the raw log: the
    warning text followed by the formatted log.  The call returns
    normally. *)
Theorem summarize_falls_back_on_model_failure (P : Platform) (R : Runtime)
        (cryptoService : CryptoService) (chatId : Z) (n : Net)
      (log : list StoredMessage) (logContent : jsstring) (id : Z) :
  telegram_up n ->
  fst (readMessages cryptoService (store n)) = Ok log ->
  log <> [] ->
  formatLogForAI log = Done logContent ->
  (forall response,
      ollama n (length (requests n)) (request_for logContent)
      <> Generated response) ->
  telegram n (length (calls n) + 1)
           (SendMessage chatId Text.on_the_case true) = Delivered id ->
  fst (summarizeCaptainLog cryptoService chatId n) = Done tt
  /\ calls (snd (summarizeCaptainLog cryptoService chatId n))
     = calls n ++ [SendChatAction chatId (lit "typing");
                   SendMessage chatId Text.on_the_case true;
                   EditMessageText (Text.raw_log logContent) chatId
                                   id true]
  /\ requests (snd (summarizeCaptainLog cryptoService chatId n))
     = requests n ++ [request_for logContent].
Proof.
  intros Hup Hread Hne Hfmt Hol Hid.
  apply (next_call n (SendChatAction chatId (lit "typing"))) in Hid.
  destruct (readMessages cryptoService (store n)) as [r0 w] eqn:Er.
  cbn [fst] in Hread. subst r0.
  destruct log as [|e0 log0]; [contradiction|].
  result_of (summarizeCaptainLog cryptoService chatId n) r n'.
  repeat (repeat (progress (rewrite ?Er, ?Hfmt, ?Hid; settle));
          try (reply; never_rejected Hup;
               try solve [exfalso; eapply Hol; reflexivity])).
  all: intros [= <- <-]; after_calls; now repeat split.
Qed.

Lemma summarize_falls_back_on_model_failure_witness :
  fst (@summarizeCaptainLog toy_platform toy_runtime Sample.service 7
         (Scene.net Scene.one_entry Refused)) = Done tt
  /\ calls (snd (@summarizeCaptainLog toy_platform toy_runtime Sample.service
                   7 (Scene.net Scene.one_entry Refused)))
     = calls (Scene.net Scene.one_entry Refused)
         ++ [SendChatAction 7 (lit "typing");
             SendMessage 7 Text.on_the_case true;
             EditMessageText (Text.raw_log Scene.hello_line) 7 1 true]
  /\ requests (snd (@summarizeCaptainLog toy_platform toy_runtime
                      Sample.service 7 (Scene.net Scene.one_entry Refused)))
     = requests (Scene.net Scene.one_entry Refused)
         ++ [request_for Scene.hello_line].
Proof.
  apply (summarize_falls_back_on_model_failure toy_platform toy_runtime
           Sample.service 7 (Scene.net Scene.one_entry Refused)
           [stored_of Sample.hello] Scene.hello_line 1).
  - apply up_scene.
  - reflexivity.
  - discriminate.
  - reflexivity.
  - discriminate.
  - reflexivity.
Defined.

(** X17: the inner [try] also covers the edit that carries the analysis.
    When the model answered but the servers reject that edit (as they do
    for text that is not valid Markdown), a second edit with the raw log
    follows, and the call returns normally if that one is delivered. *)
Theorem summarize_falls_back_on_rejected_edit (P : Platform) (R : Runtime)
        (cryptoService : CryptoService) (chatId : Z) (n : Net)
      (log : list StoredMessage) (logContent response : jsstring)
      (id : Z) :
  fst (readMessages cryptoService (store n)) = Ok log ->
  log <> [] ->
  formatLogForAI log = Done logContent ->
  ollama n (length (requests n)) (request_for logContent)
  = Generated response ->
  telegram n (length (calls n)) (SendChatAction chatId (lit "typing"))
  <> Rejected ->
  telegram n (length (calls n) + 1)
           (SendMessage chatId Text.on_the_case true) = Delivered id ->
  telegram n (length (calls n) + 2)
           (EditMessageText (Text.analysis (trim response)) chatId id true)
  = Rejected ->
  telegram n (length (calls n) + 3)
           (EditMessageText (Text.raw_log logContent) chatId id true)
  <> Rejected ->
  fst (summarizeCaptainLog cryptoService chatId n) = Done tt
  /\ calls (snd (summarizeCaptainLog cryptoService chatId n))
     = calls n ++ [SendChatAction chatId (lit "typing");
                   SendMessage chatId Text.on_the_case true;
                   EditMessageText (Text.analysis (trim response)) chatId
                                   id true;
                   EditMessageText (Text.raw_log logContent) chatId
                                   id true].
Proof.
  intros Hread Hne Hfmt Hol Ht Hid He1 He2.
  assert (L1 : forall c, length (calls n ++ [c]) = length (calls n) + 1)
    by (intros c; now rewrite length_app).
  assert (L2 : forall c d, length ((calls n ++ [c]) ++ [d])
                           = length (calls n) + 2)
    by (intros c d; rewrite !length_app; cbn [length]; lia).
  assert (L3 : forall c d e, length (((calls n ++ [c]) ++ [d]) ++ [e])
                             = length (calls n) + 3)
    by (intros c d e; rewrite !length_app; cbn [length]; lia).
  destruct (readMessages cryptoService (store n)) as [r0 w] eqn:Er.
  cbn [fst] in Hread. subst r0.
  destruct log as [|e0 log0]; [contradiction|].
  result_of (summarizeCaptainLog cryptoService chatId n) r n'.
  repeat (repeat (progress (rewrite ?L3, ?L2, ?L1, ?Er, ?Hfmt, ?Hol, ?Hid,
                              ?He1; settle));
          try (reply; try contradiction)).
  all: intros [= <- <-]; after_calls; now repeat split.
Qed.

Lemma summarize_falls_back_on_rejected_edit_witness :
  fst (@summarizeCaptainLog toy_platform toy_runtime Sample.service 7
         (Scene.net_rejecting 2 Scene.one_entry (Generated (lit "_"))))
  = Done tt
  /\ calls (snd (@summarizeCaptainLog toy_platform toy_runtime Sample.service
                   7 (Scene.net_rejecting 2 Scene.one_entry
                        (Generated (lit "_")))))
     = calls (Scene.net_rejecting 2 Scene.one_entry (Generated (lit "_")))
         ++ [SendChatAction 7 (lit "typing");
             SendMessage 7 Text.on_the_case true;
             EditMessageText (Text.analysis (trim (lit "_"))) 7 1 true;
             EditMessageText (Text.raw_log Scene.hello_line) 7 1 true].
Proof.
  apply (summarize_falls_back_on_rejected_edit toy_platform toy_runtime
           Sample.service 7
           (Scene.net_rejecting 2 Scene.one_entry (Generated (lit "_")))
           [stored_of Sample.hello] Scene.hello_line (lit "_") 1);
    try reflexivity; discriminate.
Defined.

(** X18: when [readMessages] raises (the file decrypts to JSON that is
    not an array of objects) or the log cannot be formatted (an entry has
    an invalid date), the outer [catch] answers with the "try again
    later" message; the model is not asked, and the call returns
    normally. *)
Theorem summarize_apologises_for_unusable_log (P : Platform) (R : Runtime)
        (cryptoService : CryptoService) (chatId : Z) (n : Net) :
  telegram_up n ->
  (exists e, fst (readMessages cryptoService (store n)) = Throw e)
  \/ (exists log e,
         fst (readMessages cryptoService (store n)) = Ok log
         /\ formatLogForAI log = Raised e) ->
  fst (summarizeCaptainLog cryptoService chatId n) = Done tt
  /\ calls (snd (summarizeCaptainLog cryptoService chatId n))
     = calls n ++ [SendChatAction chatId (lit "typing");
                   SendMessage chatId Text.try_again true]
  /\ requests (snd (summarizeCaptainLog cryptoService chatId n))
     = requests n.
Proof.
  intros Hup [[e Hread] | (log & e & Hread & Hfmt)];
    destruct (readMessages cryptoService (store n)) as [r0 w] eqn:Er;
    cbn [fst] in Hread; subst r0.
  - result_of (summarizeCaptainLog cryptoService chatId n) r n'.
    repeat (reply; never_rejected Hup; rewrite ?Er; cbn [length Nat.eqb]).
    all: intros [= <- <-]; after_calls; now repeat split.
  - destruct log as [|e0 log0]; [discriminate|].
    result_of (summarizeCaptainLog cryptoService chatId n) r n'.
    repeat (reply; never_rejected Hup; rewrite ?Er, ?Hfmt;
            cbn [length Nat.eqb]).
    all: intros [= <- <-]; after_calls; now repeat split.
Qed.

Lemma summarize_apologises_for_unusable_log_witness :
  fst (@summarizeCaptainLog toy_platform toy_runtime Sample.service 7
         (Scene.net Sample.dateless_world Refused)) = Done tt
  /\ calls (snd (@summarizeCaptainLog toy_platform toy_runtime Sample.service
                   7 (Scene.net Sample.dateless_world Refused)))
     = calls (Scene.net Sample.dateless_world Refused)
         ++ [SendChatAction 7 (lit "typing");
             SendMessage 7 Text.try_again true]
  /\ requests (snd (@summarizeCaptainLog toy_platform toy_runtime
                      Sample.service 7
                      (Scene.net Sample.dateless_world Refused)))
     = requests (Scene.net Sample.dateless_world Refused).
Proof.
  apply (summarize_apologises_for_unusable_log toy_platform toy_runtime
           Sample.service 7 (Scene.net Sample.dateless_world Refused)).
  - apply up_scene.
  - right.
    exists [{| date := InvalidDate; message := VString (lit "m") |}],
           RangeError.
    split; reflexivity.
Defined.

(** X19: the handler takes a message for the command when its text holds
    "summarize captain's log" in any mix of upper and lower case,
    anywhere in the text and whatever surrounds it; for a text of code
    units below 128, only then.  A message without text, or with the
    empty text, is never taken for the command. *)
Theorem command_recognised (R : Runtime) :
  (forall pre p post,
      map lower_ascii p = Text.command ->
      asks_for_summary (Some (pre ++ p ++ post)) = true)
  /\ (forall t,
         forallb is_ascii t = true ->
         asks_for_summary (Some t) = true ->
         exists pre p post,
           t = pre ++ p ++ post /\ map lower_ascii p = Text.command)
  /\ asks_for_summary None = false
  /\ asks_for_summary (Some []) = false.
Proof.
  split; [apply command_found|].
  split; [apply command_in_ascii|].
  split; reflexivity.
Qed.

(** X20: a message taken for the command is not stored: the handler
    runs [summarizeCaptainLog] for the chat and returns, so the log file
    is as it was, and the first call of the bot is the typing action. *)
Theorem command_is_not_logged (P : Platform) (R : Runtime)
        (cryptoService : CryptoService) (msg : Incoming) (n : Net) :
  asks_for_summary (msg_text (content msg)) = true ->
  on_message cryptoService msg n
  = summarizeCaptainLog cryptoService (chat_id msg) (noted msg n)
  /\ messages_json (store (snd (on_message cryptoService msg n)))
     = messages_json (store n)
  /\ exists cs,
      calls (snd (on_message cryptoService msg n))
      = calls n ++ SendChatAction (chat_id msg) (lit "typing") :: cs.
Proof.
  intros H. rewrite (on_message_command cryptoService msg n H).
  destruct (summarize_frame cryptoService (chat_id msg) (noted msg n))
    as (Hf & _ & _ & cs & Hc & _).
  split; [reflexivity|]. split; [exact Hf|]. exists cs. exact Hc.
Qed.

Lemma command_is_not_logged_witness :
  @on_message toy_platform toy_runtime Sample.service Scene.please_summarize
    (Scene.net Scene.one_entry Refused)
  = @summarizeCaptainLog toy_platform toy_runtime Sample.service
      (chat_id Scene.please_summarize)
      (noted Scene.please_summarize (Scene.net Scene.one_entry Refused))
  /\ messages_json
       (store (snd (@on_message toy_platform toy_runtime Sample.service
                      Scene.please_summarize
                      (Scene.net Scene.one_entry Refused))))
     = messages_json (store (Scene.net Scene.one_entry Refused))
  /\ exists cs,
      calls (snd (@on_message toy_platform toy_runtime Sample.service
                    Scene.please_summarize
                    (Scene.net Scene.one_entry Refused)))
      = calls (Scene.net Scene.one_entry Refused)
          ++ SendChatAction (chat_id Scene.please_summarize) (lit "typing")
               :: cs.
Proof.
  apply (command_is_not_logged toy_platform toy_runtime Sample.service
           Scene.please_summarize (Scene.net Scene.one_entry Refused)).
  reflexivity.
Defined.

(** X21: any other message is handed to [appendMessage] and then
    acknowledged with "Message received, captain!": that is the one call
    of the bot, the model is not asked, and the handler returns normally
    exactly when the acknowledgement is delivered. *)
Theorem message_stored_then_acknowledged (P : Platform) (R : Runtime)
        (cryptoService : CryptoService) (msg : Incoming) (n : Net) :
  asks_for_summary (msg_text (content msg)) = false ->
  store (snd (on_message cryptoService msg n))
  = snd (appendMessage cryptoService (content msg) (store n))
  /\ calls (snd (on_message cryptoService msg n))
     = calls n ++ [SendMessage (chat_id msg) Text.received false]
  /\ requests (snd (on_message cryptoService msg n)) = requests n
  /\ fst (on_message cryptoService msg n)
     = match telegram n (length (calls n))
                      (SendMessage (chat_id msg) Text.received false) with
       | Delivered _ => Done tt
       | Rejected => Raised TelegramError
       end.
Proof.
  intros H.
  destruct (on_message_ordinary cryptoService msg n H)
    as (H1 & H2 & H3 & _ & _ & H4).
  now repeat split.
Qed.

Lemma message_stored_then_acknowledged_witness :
  store (snd (@on_message toy_platform toy_runtime Sample.service Scene.photo
                (Scene.net (Sample.world None) Refused)))
  = snd (@appendMessage toy_platform Sample.service (content Scene.photo)
           (store (Scene.net (Sample.world None) Refused)))
  /\ calls (snd (@on_message toy_platform toy_runtime Sample.service
                   Scene.photo (Scene.net (Sample.world None) Refused)))
     = calls (Scene.net (Sample.world None) Refused)
         ++ [SendMessage (chat_id Scene.photo) Text.received false]
  /\ requests (snd (@on_message toy_platform toy_runtime Sample.service
                      Scene.photo (Scene.net (Sample.world None) Refused)))
     = requests (Scene.net (Sample.world None) Refused)
  /\ fst (@on_message toy_platform toy_runtime Sample.service Scene.photo
            (Scene.net (Sample.world None) Refused))
     = match telegram (Scene.net (Sample.world None) Refused)
                      (length (calls (Scene.net (Sample.world None) Refused)))
                      (SendMessage (chat_id Scene.photo) Text.received false)
       with
       | Delivered _ => Done tt
       | Rejected => Raised TelegramError
       end.
Proof.
  apply (message_stored_then_acknowledged toy_platform toy_runtime
           Sample.service Scene.photo
           (Scene.net (Sample.world None) Refused)).
  reflexivity.
Defined.

(** X22: the acknowledgement does not depend on the message having been
    saved.  When the file system refuses the write, [appendMessage]
    swallows the error, the file holds what the failed write left and
    not the message, and the sender is still told "Message received,
    captain!". *)
Theorem acknowledged_though_not_saved (P : Platform) (R : Runtime)
        (cryptoService : CryptoService) (msg : Incoming) (n : Net)
        (prior : list StoredMessage) (residue : option (list octet)) :
  asks_for_summary (msg_text (content msg)) = false ->
  write_fault (store n) = Some residue ->
  fst (readMessages cryptoService (store n)) = Ok prior ->
  telegram n (length (calls n))
           (SendMessage (chat_id msg) Text.received false) <> Rejected ->
  fst (on_message cryptoService msg n) = Done tt
  /\ calls (snd (on_message cryptoService msg n))
     = calls n ++ [SendMessage (chat_id msg) Text.received false]
  /\ messages_json (store (snd (on_message cryptoService msg n))) = residue.
Proof.
  intros H Hw Hr Ht.
  destruct (on_message_ordinary cryptoService msg n H)
    as (H1 & H2 & _ & _ & _ & H4).
  split; [|split; [exact H2|]].
  - rewrite H4. now destruct (telegram n _ _).
  - rewrite H1. now apply appendMessage_refused with prior.
Qed.

Lemma acknowledged_though_not_saved_witness :
  fst (@on_message toy_platform toy_runtime Sample.service Scene.hello
         (Scene.net Sample.read_only_world Refused)) = Done tt
  /\ calls (snd (@on_message toy_platform toy_runtime Sample.service
                   Scene.hello (Scene.net Sample.read_only_world Refused)))
     = calls (Scene.net Sample.read_only_world Refused)
         ++ [SendMessage (chat_id Scene.hello) Text.received false]
  /\ messages_json
       (store (snd (@on_message toy_platform toy_runtime Sample.service
                      Scene.hello
                      (Scene.net Sample.read_only_world Refused))))
     = None.
Proof.
  apply (acknowledged_though_not_saved toy_platform toy_runtime
           Sample.service Scene.hello
           (Scene.net Sample.read_only_world Refused) [] None);
    try reflexivity.
  discriminate.
Defined.

(** X23: the handler returns normally whenever the servers deliver, for
    every message, file and model; when it rejects, it is with the error
    of a rejected bot call. *)
Theorem handler_rejects_only_on_telegram (P : Platform) (R : Runtime)
        (cryptoService : CryptoService) (msg : Incoming) (n : Net) :
  (telegram_up n -> fst (on_message cryptoService msg n) = Done tt)
  /\ (forall e,
         fst (on_message cryptoService msg n) = Raised e ->
         e = TelegramError).
Proof.
  split.
  - apply on_message_up.
  - intros e. apply on_message_rejection.
Qed.

(** X24: from an absent file and without faults, a message that is not
    the command, with a date in the range of [Date], and then, once its
    handler has returned, the command: the model is asked once, with a prompt that holds the line
    [[date] text] of the first message between the fixed head and tail,
    and the bot's calls are the acknowledgement, the typing action, the
    "on the case" message and its edit into the trimmed response. *)
Theorem stored_message_reaches_prompt (P : Platform) (R : Runtime)
        (cryptoService : CryptoService) (m c : Incoming) (n : Net)
        (response : jsstring) :
  messages_json (store n) = None ->
  read_fault (store n) = false ->
  write_fault (store n) = None ->
  telegram_up n ->
  asks_for_summary (msg_text (content m)) = false ->
  asks_for_summary (msg_text (content c)) = true ->
  in_date_range (content m) ->
  ollama n (length (requests n))
         (request_for
            (lit "[" ++ DateTime.toISOString (msg_date (content m) * 1000)
               ++ lit "] " ++ text_or_default (msg_text (content m))))
  = Generated response ->
  let n' := snd (on_message cryptoService c
                   (snd (on_message cryptoService m n))) in
  requests n'
  = requests n
      ++ [request_for
            (lit "[" ++ DateTime.toISOString (msg_date (content m) * 1000)
               ++ lit "] " ++ text_or_default (msg_text (content m)))]
  /\ exists id,
      calls n'
      = calls n
          ++ [SendMessage (chat_id m) Text.received false;
              SendChatAction (chat_id c) (lit "typing");
              SendMessage (chat_id c) Text.on_the_case true;
              EditMessageText (Text.analysis (trim response)) (chat_id c)
                              id true].
Proof.
  intros Hf Hr Hw Hup Hm Hc Hd Hol. cbn zeta.
  destruct (on_message_ordinary cryptoService m n Hm)
    as (Hs1 & Hc1 & Hq1 & Ho1 & Ht1 & _).
  set (n1 := snd (on_message cryptoService m n)) in *.
  rewrite (on_message_command cryptoService c n1 Hc).
  set (n0 := noted c n1).
  pose proof (readMessages_absent P cryptoService (store n) Hf) as Hread.
  destruct (appendMessage_then_read cryptoService (content m) (store n) []
              Hr Hw Hread eq_refl) as (Hlog & _ & _).
  cbn [app map] in Hlog. rewrite (stored_of_valid (content m) Hd) in Hlog.
  assert (Hline : formatLogForAI [stored_of (content m)]
                  = Done (lit "["
                            ++ DateTime.toISOString
                                 (msg_date (content m) * 1000)
                            ++ lit "] "
                            ++ text_or_default (msg_text (content m)))).
  { unfold formatLogForAI, stored_of, DateTime.of_number, TimeClip.
    unfold in_date_range in Hd. apply Z.leb_le in Hd. rewrite Hd.
    reflexivity. }
  assert (Hup0 : telegram_up n0).
  { intros i d. change (telegram n0) with (telegram n1). rewrite Ht1.
    apply Hup. }
  destruct (telegram n0 (length (calls n0) + 1)
                     (SendMessage (chat_id c) Text.on_the_case true))
    as [id|] eqn:Eid; [|exfalso; exact (Hup0 _ _ Eid)].
  destruct (summarize_answered cryptoService (chat_id c) n0
              [stored_of (content m)]
              (lit "[" ++ DateTime.toISOString (msg_date (content m) * 1000)
                 ++ lit "] " ++ text_or_default (msg_text (content m)))
              response id Hup0)
    as (_ & Hcalls & Hreq); try assumption.
  - change (store n0) with (store n1). rewrite Hs1, Hlog. reflexivity.
  - discriminate.
  - change (ollama n0) with (ollama n1). change (requests n0) with (requests n1).
    rewrite Ho1, Hq1. exact Hol.
  - split.
    + rewrite Hreq. change (requests n0) with (requests n1). now rewrite Hq1.
    + exists id. rewrite Hcalls. change (calls n0) with (calls n1).
      rewrite Hc1, <- app_assoc. reflexivity.
Qed.

Lemma stored_message_reaches_prompt_witness :
  requests (snd (@on_message toy_platform toy_runtime Sample.service
                   Scene.please_summarize
                   (snd (@on_message toy_platform toy_runtime Sample.service
                           Scene.hello
                           (Scene.net (Sample.world None)
                                      (Generated (lit " {ok} ")))))))
  = requests (Scene.net (Sample.world None) (Generated (lit " {ok} ")))
      ++ [request_for
            (lit "["
               ++ DateTime.toISOString (msg_date (content Scene.hello) * 1000)
               ++ lit "] "
               ++ text_or_default (msg_text (content Scene.hello)))]
  /\ exists id,
      calls (snd (@on_message toy_platform toy_runtime Sample.service
                    Scene.please_summarize
                    (snd (@on_message toy_platform toy_runtime
                            Sample.service Scene.hello
                            (Scene.net (Sample.world None)
                                       (Generated (lit " {ok} ")))))))
      = calls (Scene.net (Sample.world None) (Generated (lit " {ok} ")))
          ++ [SendMessage (chat_id Scene.hello) Text.received false;
              SendChatAction (chat_id Scene.please_summarize) (lit "typing");
              SendMessage (chat_id Scene.please_summarize) Text.on_the_case
                          true;
              EditMessageText (Text.analysis (trim (lit " {ok} ")))
                              (chat_id Scene.please_summarize) id true].
Proof.
  apply (stored_message_reaches_prompt toy_platform toy_runtime
           Sample.service Scene.hello Scene.please_summarize
           (Scene.net (Sample.world None) (Generated (lit " {ok} ")))
           (lit " {ok} ")); try reflexivity.
  - apply up_scene.
  - unfold in_date_range, maxTime. cbn. lia.
Defined.

End TelegramExtras.
